(** * OS Monitor: a shallow embedding of [src/extension.ts]

    The extension samples CPU, memory, disk and network counters once per
    tick, formats them for the status bar, and runs a download speed test on
    demand.  This development embeds the sampling functions of
    [extension.ts] and proves properties of them.

    Modelling conventions.
    - A JavaScript string is the list of its UTF-16 code units.
    - The counters the platform hands over ([os.cpus()] times, [os.totalmem()],
      byte counters of [/proc/net/dev], [Date.now()]) are integers; JavaScript
      adds and subtracts integers below [2^53] exactly, so sums and differences
      of counters are taken in [Z].
    - Every quotient, every product with a fractional operand and every
      [toFixed] is computed in IEEE 754 binary64, with the operations of
      [SpecFloat] at precision 53 and maximal exponent 1024.
    - Module-level [let] variables become explicit state that each function
      receives and returns. *)

From Stdlib Require Import String Ascii ZArith List Bool Lia.
From Stdlib Require Import Floats.SpecFloat.
From Stdlib Require DecimalN.
Import ListNotations.

Local Open Scope Z_scope.

(** ** JavaScript strings *)

Module JsString.

Definition jsstring := list N.

(** [js s] reads a literal: one code unit per character. *)
Definition js (s : string) : jsstring :=
  map N_of_ascii (list_ascii_of_string s).

Definition LF : N := 10%N.
Definition SPACE : N := 32%N.

(** [WhiteSpace] and [LineTerminator] of ECMAScript, the set behind
    [String.prototype.trim] and the regular expression class [\s]. *)
Definition is_space (c : N) : bool :=
  (  (c =? 9) || (c =? 10) || (c =? 11) || (c =? 12) || (c =? 13)
  || (c =? 32) || (c =? 160) || (c =? 5760)
  || ((8192 <=? c) && (c <=? 8202))
  || (c =? 8232) || (c =? 8233) || (c =? 8239) || (c =? 8287)
  || (c =? 12288) || (c =? 65279))%N.

Fixpoint trimStart (s : jsstring) : jsstring :=
  match s with
  | c :: s' => if is_space c then trimStart s' else s
  | [] => []
  end.

Definition trimEnd (s : jsstring) : jsstring := rev (trimStart (rev s)).

(** [s.trim()] *)
Definition trim (s : jsstring) : jsstring := trimEnd (trimStart s).

(** [s.split(c)] for a separator of one code unit: every occurrence cuts, and
    the empty string yields one empty piece. *)
Fixpoint split_char (sep : N) (s : jsstring) : list jsstring :=
  match s with
  | [] => [[]]
  | c :: s' =>
      match split_char sep s' with
      | cur :: rest => if (c =? sep)%N then [] :: cur :: rest else (c :: cur) :: rest
      | [] => [[c]]
      end
  end.

(** [s.split(/\s+/)]: the pieces between maximal runs of white space.  The
    flag records that the previous code unit was white space, so that a run is
    cut once. *)
Fixpoint split_ws_from (in_run : bool) (s : jsstring) : list jsstring :=
  match s with
  | [] => [[]]
  | c :: s' =>
      if is_space c then
        if in_run then split_ws_from true s' else [] :: split_ws_from true s'
      else
        match split_ws_from false s' with
        | cur :: rest => (c :: cur) :: rest
        | [] => [[c]]
        end
  end.

Definition split_ws (s : jsstring) : list jsstring := split_ws_from false s.

Fixpoint starts_with (p s : jsstring) : bool :=
  match p, s with
  | [], _ => true
  | a :: p', b :: s' => (a =? b)%N && starts_with p' s'
  | _ :: _, [] => false
  end.

Definition ends_with (p s : jsstring) : bool := starts_with (rev p) (rev s).

(** [s.includes(p)] *)
Fixpoint includes (p s : jsstring) : bool :=
  starts_with p s ||
  match s with
  | [] => false
  | _ :: s' => includes p s'
  end.

Fixpoint eqb (a b : jsstring) : bool :=
  match a, b with
  | [], [] => true
  | x :: a', y :: b' => (x =? y)%N && eqb a' b'
  | _, _ => false
  end.

(** [parts.join(sep)] *)
Fixpoint join (sep : jsstring) (parts : list jsstring) : jsstring :=
  match parts with
  | [] => []
  | [p] => p
  | p :: rest => p ++ sep ++ join sep rest
  end.

End JsString.
Import JsString.

(** ** JavaScript numbers

    A number is a binary64 value; [SpecFloat] gives the operations as
    functions on sign, mantissa and exponent. *)

Module JsNumber.

Definition prec : Z := 53.
Definition emax : Z := 1024.

Definition number := spec_float.

Definition fsub : number -> number -> number := SFsub prec emax.
Definition fmul : number -> number -> number := SFmul prec emax.
Definition fdiv : number -> number -> number := SFdiv prec emax.
Definition flt : number -> number -> bool := SFltb.
Definition fle : number -> number -> bool := SFleb.

(** The number denoted by an integer: the nearest binary64 value. *)
Definition ofZ (z : Z) : number := binary_normalize prec emax z 0 false.

(** Decimal digits of a natural number, most significant first. *)
Fixpoint uint_units (u : Decimal.uint) : jsstring :=
  match u with
  | Decimal.Nil => []
  | Decimal.D0 u' => 48%N :: uint_units u'
  | Decimal.D1 u' => 49%N :: uint_units u'
  | Decimal.D2 u' => 50%N :: uint_units u'
  | Decimal.D3 u' => 51%N :: uint_units u'
  | Decimal.D4 u' => 52%N :: uint_units u'
  | Decimal.D5 u' => 53%N :: uint_units u'
  | Decimal.D6 u' => 54%N :: uint_units u'
  | Decimal.D7 u' => 55%N :: uint_units u'
  | Decimal.D8 u' => 56%N :: uint_units u'
  | Decimal.D9 u' => 57%N :: uint_units u'
  end.

Definition digits10 (n : Z) : jsstring := uint_units (N.to_uint (Z.to_N n)).

(** The digits of [n] with a point before the last [f] of them, padded with
    zeros on the left so that one digit stands before the point (steps 10.b to
    10.d of [Number.prototype.toFixed]). *)
Definition fixed_digits (f : nat) (n : Z) : jsstring :=
  let m := digits10 n in
  match f with
  | O => m
  | S _ =>
      let k := length m in
      let m' := repeat 48%N (S f - k)%nat ++ m in
      let k' := length m' in
      firstn (k' - f)%nat m' ++ js "." ++ skipn (k' - f)%nat m'
  end.

(** The integer [n] for which [n / 10^f] is nearest to [m * 2^e], the larger
    one of two. *)
Definition nearest_scaled (f : nat) (m : positive) (e : Z) : Z :=
  let s := Zpos m * 10 ^ Z.of_nat f in
  match e with
  | Zneg k => (2 * s + 2 ^ Zpos k) / 2 ^ (Zpos k + 1)
  | _ => s * 2 ^ e
  end.

(** [10^21 <= m * 2^e] *)
Definition at_least_1e21 (m : positive) (e : Z) : bool :=
  match e with
  | Zneg k => 10 ^ 21 * 2 ^ Zpos k <=? Zpos m
  | _ => 10 ^ 21 <=? Zpos m * 2 ^ e
  end.

(** [s] without the zeros at its end. *)
Definition strip_zeros (s : jsstring) : jsstring :=
  rev ((fix strip (r : jsstring) : jsstring :=
          match r with
          | 48%N :: r' => strip r'
          | _ => r
          end) (rev s)).

(** The same finite number. *)
Definition sf_same (a b : number) : bool :=
  match a, b with
  | S754_finite sa ma ea, S754_finite sb mb eb =>
      Bool.eqb sa sb && Pos.eqb ma mb && Z.eqb ea eb
  | _, _ => false
  end.

(** The integer with the fewest significant digits, [k] of them at least, that
    converts to the same number as [v], which has [nd] digits: of the two
    neighbours of [v] with [k] significant digits, the one that converts
    back, the nearer of the two when both do.  Seventeen digits always
    suffice. *)
Fixpoint shortest_from (fuel : nat) (k : Z) (nd v : Z) : Z :=
  match fuel with
  | O => v
  | S fuel' =>
      let p := 10 ^ (nd - k) in
      let lo := (v / p) * p in
      let hi := lo + p in
      let oklo := sf_same (ofZ lo) (ofZ v) in
      let okhi := sf_same (ofZ hi) (ofZ v) in
      if oklo && okhi then
        (if v - lo <? hi - v then lo
         else if hi - v <? v - lo then hi
         else if Z.even (v / p) then lo else hi)
      else if oklo then lo
      else if okhi then hi
      else shortest_from fuel' (k + 1) nd v
  end.

(** [Number::toString] for a value of at least [10^21].  In binary64 such a
    value has a positive exponent and is an integer [v]; its shortest digits
    are written in exponent notation. *)
Definition exponent_digits (v : Z) : jsstring :=
  let nd := Z.of_nat (length (digits10 v)) in
  let w := shortest_from 17 1 nd v in
  let n := Z.of_nat (length (digits10 w)) in
  let s := strip_zeros (digits10 w) in
  match s with
  | [d] => [d] ++ js "e+" ++ digits10 (n - 1)
  | d :: ds => [d] ++ js "." ++ ds ++ js "e+" ++ digits10 (n - 1)
  | [] => []
  end.

(** [x.toFixed(f)] for [0 <= f <= 100]. *)
Definition toFixed (f : nat) (x : number) : jsstring :=
  match x with
  | S754_nan => js "NaN"
  | S754_infinity false => js "Infinity"
  | S754_infinity true => js "-Infinity"
  | S754_zero _ => fixed_digits f 0
  | S754_finite s m e =>
      (if s then js "-" else []) ++
      (if at_least_1e21 m e then exponent_digits (Zpos m * 2 ^ e)
       else fixed_digits f (nearest_scaled f m e))
  end.

End JsNumber.
Import JsNumber.

(** [parseInt]: the sign and the magnitude of the longest digit prefix, before
    the conversion to a number; [None] stands for [NaN].  [radix] is the second
    argument, [None] when the call gives none (then a [0x] prefix selects 16). *)
Module ParseInt.

Definition digit_value (radix : Z) (c : N) : option Z :=
  let v :=
    if ((48 <=? c) && (c <=? 57))%N then Some (Z.of_N c - 48)
    else if ((97 <=? c) && (c <=? 122))%N then Some (Z.of_N c - 87)
    else if ((65 <=? c) && (c <=? 90))%N then Some (Z.of_N c - 55)
    else None in
  match v with
  | Some d => if d <? radix then Some d else None
  | None => None
  end.

Fixpoint digits_prefix (radix : Z) (acc : option Z) (s : jsstring) : option Z :=
  match s with
  | [] => acc
  | c :: s' =>
      match digit_value radix c with
      | Some d =>
          digits_prefix radix
            (Some (match acc with Some a => a * radix + d | None => d end)) s'
      | None => acc
      end
  end.

Definition parse (radix : option Z) (input : jsstring) : option (bool * Z) :=
  let s := trimStart input in
  let '(neg, s) :=
    match s with
    | 45%N :: s' => (true, s')
    | 43%N :: s' => (false, s')
    | _ => (false, s)
    end in
  let '(r, s) :=
    match radix with
    | Some r => (r, s)
    | None =>
        match s with
        | 48%N :: 120%N :: s' => (16, s')
        | 48%N :: 88%N :: s' => (16, s')
        | _ => (10, s)
        end
    end in
  match digits_prefix r None s with
  | Some n => Some (neg, n)
  | None => None
  end.

(** [parseInt(s)] as a number; an absent argument reads as ["undefined"]. *)
Definition parseInt (s : option jsstring) : number :=
  match s with
  | None => S754_nan
  | Some s =>
      match parse None s with
      | None => S754_nan
      | Some (neg, 0) => S754_zero neg
      | Some (neg, n) => ofZ (if neg then - n else n)
      end
  end.

(** [parseInt(s, 10) || 0], as the integer that the digits spell: [NaN] and
    both zeros give [0].  The number that the code holds is the nearest
    binary64 value, which is this integer as long as it is below [2^53]. *)
Definition parseInt10_or_0 (s : option jsstring) : Z :=
  match s with
  | None => 0
  | Some s =>
      match parse (Some 10) s with
      | None => 0
      | Some (neg, n) => if neg then - n else n
      end
  end.

End ParseInt.

(** ** Results of a call: a value, or a thrown [TypeError] *)

Inductive exn := TypeError (msg : jsstring).

Inductive outcome (A : Type) :=
  | Returned (a : A)
  | Thrown (e : exn).
Arguments Returned {A} a.
Arguments Thrown {A} e.

(** ** CPU load: [calculateCpuUsage] *)

(** [os.CpuInfo.times]: the five counters, in the order in which
    [for (const type in times)] visits them. *)
Record CpuTimes := mkTimes {
  user : Z; nice : Z; sys : Z; idle : Z; irq : Z
}.

Record CpuInfo := mkCpu { times : CpuTimes }.

Definition times_total (t : CpuTimes) : Z :=
  0 + user t + nice t + sys t + idle t + irq t.

(** The [for] loop over [currentCpus], from index [i] on, with the two
    accumulators; [previousCpus[i]] past the end is [undefined], and reading
    [prev.times] of it throws.  The sums are those of the code as long as
    they are exact there, which [safe_sample] below ensures. *)
Fixpoint cpu_loop (previousCpus : list CpuInfo) (i : nat)
    (rest : list CpuInfo) (idleDiff totalDiff : Z) : option (Z * Z) :=
  match rest with
  | [] => Some (idleDiff, totalDiff)
  | current :: rest' =>
      match nth_error previousCpus i with
      | None => None
      | Some prev =>
          let currentTotal := times_total (times current) in
          let prevTotal := times_total (times prev) in
          let currentIdle := idle (times current) in
          let prevIdle := idle (times prev) in
          cpu_loop previousCpus (S i) rest'
            (idleDiff + (currentIdle - prevIdle))
            (totalDiff + (currentTotal - prevTotal))
      end
  end.

Definition undefined_times : exn :=
  TypeError (js "Cannot read properties of undefined (reading 'times')").

(** The quotient form of the result. *)
Definition cpu_percent (idleDiff totalDiff : Z) : number :=
  fmul (fsub (ofZ 1) (fdiv (ofZ idleDiff) (ofZ totalDiff))) (ofZ 100).

(** [calculateCpuUsage(currentCpus)] with [previousCpus] as state: the result
    and the new [previousCpus]. *)
Definition calculateCpuUsage (previousCpus currentCpus : list CpuInfo)
    : outcome jsstring * list CpuInfo :=
  match cpu_loop previousCpus 0 currentCpus 0 0 with
  | None => (Thrown undefined_times, previousCpus)
  | Some (idleDiff, totalDiff) =>
      let previousCpus' := currentCpus in
      if totalDiff =? 0 then (Returned (js "0.0"), previousCpus')
      else (Returned (toFixed 1 (cpu_percent idleDiff totalDiff)), previousCpus')
  end.

(** ** Disk usage: [getDiskUsage] *)

(** What [cp.exec] hands to its callback. *)
Inductive exec_result :=
  | ExecError
  | ExecOutput (stdout : jsstring).

Definition GiB : Z := 1024 * 1024 * 1024.

Definition last_but (k : nat) (parts : list jsstring) : option jsstring :=
  nth_error parts (length parts - k).

(** The body of the loop over the lines of [wmic], from the second line on. *)
Fixpoint wmic_rows (lines : list jsstring) : jsstring :=
  match lines with
  | [] => js "?"
  | line :: lines' =>
      let parts := split_ws (trim line) in
      let caption_ok :=
        match last_but 3 parts with
        | Some p => includes (js "C:") p
        | None => false
        end in
      if (3 <=? length parts)%nat && caption_ok then
        let freeBytes := ParseInt.parseInt (last_but 2 parts) in
        let sizeBytes := ParseInt.parseInt (last_but 1 parts) in
        let usedBytes := fsub sizeBytes freeBytes in
        let usedGB := toFixed 0 (fdiv usedBytes (ofZ GiB)) in
        let totalGB := toFixed 0 (fdiv sizeBytes (ofZ GiB)) in
        let percent := toFixed 0 (fmul (fdiv usedBytes sizeBytes) (ofZ 100)) in
        usedGB ++ js "/" ++ totalGB ++ js "GB " ++ percent ++ js "%"
      else wmic_rows lines'
  end.

Definition is_empty (s : jsstring) : bool :=
  match s with [] => true | _ => false end.

Definition getDiskUsage_win32 (r : exec_result) : jsstring :=
  match r with
  | ExecError => js "?"
  | ExecOutput stdout =>
      let lines :=
        filter (fun line => negb (is_empty (trim line)))
               (split_char LF (trim stdout)) in
      wmic_rows (tl lines)
  end.

(** The callback of [df -h --output=size,used,pcent /]. *)
Definition getDiskUsage_posix (r : exec_result) : jsstring :=
  match r with
  | ExecError => js "?"
  | ExecOutput stdout =>
      let lines := split_char LF (trim stdout) in
      if (2 <=? length lines)%nat then
        let parts := split_ws (trim (nth 1 lines [])) in
        if (3 <=? length parts)%nat then
          let size := nth 0 parts [] in
          let used := nth 1 parts [] in
          let percent := nth 2 parts [] in
          used ++ js "/" ++ size ++ js " " ++ percent
        else js "?"
      else js "?"
  end.

Definition getDiskUsage (platform : jsstring) (r : exec_result) : jsstring :=
  if JsString.eqb platform (js "win32") then getDiskUsage_win32 r
  else getDiskUsage_posix r.

(** ** Network throughput: [getTrafUsage] *)

(** [prevNet] *)
Record NetState := mkNet { bytes : Z; time : Z }.

Definition prevNet_initial : NetState := mkNet 0 0.

(** What [fs.readFile] hands to its callback. *)
Inductive read_result :=
  | ReadError
  | ReadData (data : jsstring).

Definition COLON : N := 58%N.

(** The body of the loop over the lines of [/proc/net/dev]: [rx] and [tx]
    of one line, as integers; a line that the loop skips has none to add.
    The code holds them as numbers and adds numbers, which is exact as long
    as no counter and no sum reaches [2^53]; the theorems about the lines
    carry that bound. *)
Definition line_counters (raw : jsstring) : Z * Z :=
  let line := trim raw in
  if includes (js "lo:") line then (0, 0)
  else
    let parts := split_ws line in
    let p0 := nth 0 parts [] in
    if includes (js ":") p0 then
      if ends_with (js ":") p0 then
        (ParseInt.parseInt10_or_0 (nth_error parts 1),
         ParseInt.parseInt10_or_0 (nth_error parts 9))
      else
        let sub := split_char COLON p0 in
        (ParseInt.parseInt10_or_0 (nth_error sub 1),
         ParseInt.parseInt10_or_0 (nth_error parts 8))
    else if match nth_error parts 1 with
            | Some p1 => negb (is_empty p1) && starts_with (js ":") p1
            | None => false
            end then
      (ParseInt.parseInt10_or_0 (nth_error parts 2),
       ParseInt.parseInt10_or_0 (nth_error parts 10))
    else (0, 0).

(** What one line adds to [totalBytes]. *)
Definition line_bytes (raw : jsstring) : Z :=
  let '(rx, tx) := line_counters raw in rx + tx.

(** [totalBytes] after the loop, which starts at the third line; the sum
    of the code as long as it is exact there, which [counters_exact] below
    ensures. *)
Definition total_bytes (data : jsstring) : Z :=
  fold_left (fun acc line => acc + line_bytes line)
            (skipn 2 (split_char LF data)) 0.

(** [mbps] after the guarded computation of lines 258 to 266. *)
Definition traffic_mbps (prevNet : NetState) (now totalBytes : Z) : number :=
  if time prevNet >? 0 then
    let timeDiffSec := fdiv (ofZ (now - time prevNet)) (ofZ 1000) in
    let bytesDiff := totalBytes - bytes prevNet in
    if flt (ofZ 0) timeDiffSec && (bytesDiff >=? 0) then
      let bps := fdiv (ofZ bytesDiff) timeDiffSec in
      fdiv (fmul bps (ofZ 8)) (ofZ (1000 * 1000))
    else ofZ 0
  else ofZ 0.

Definition format_rate (mbps : number) : jsstring :=
  if flt mbps (ofZ 1) then toFixed 0 (fmul mbps (ofZ 1000)) ++ js "Kbps"
  else toFixed 1 mbps ++ js "Mbps".

(** One sample of the tracker, once the counters are read: the display and
    the new [prevNet]. *)
Definition traffic_sample (prevNet : NetState) (now totalBytes : Z)
    : jsstring * NetState :=
  (format_rate (traffic_mbps prevNet now totalBytes), mkNet totalBytes now).

Definition getTrafUsage (platform : jsstring) (r : read_result) (now : Z)
    (prevNet : NetState) : jsstring * NetState :=
  if negb (JsString.eqb platform (js "linux")) then (js "N/A", prevNet)
  else
    match r with
    | ReadError => (js "0Kbps", prevNet)
    | ReadData data => traffic_sample prevNet now (total_bytes data)
    end.

(** ** The orchestrator: [getResources] *)

Record Resources := mkResources {
  cpu : jsstring; ram : jsstring; disk : jsstring; traf : jsstring
}.

(** The two module variables that the tick path writes. *)
Record TrackerState := mkTracker {
  previousCpus : list CpuInfo;
  prevNet : NetState
}.

(** What the platform answers during one tick. *)
Record TickInput := mkTick {
  platform : jsstring;
  cpus : list CpuInfo;
  totalmem : Z;
  freemem : Z;
  diskExec : exec_result;
  netRead : read_result;
  now : Z
}.

Definition ram_display (totalMem freeMem : Z) : jsstring :=
  let usedMem := totalMem - freeMem in
  let ramPercentage := toFixed 1 (fmul (fdiv (ofZ usedMem) (ofZ totalMem)) (ofZ 100)) in
  let usedMemGB := toFixed 1 (fdiv (ofZ usedMem) (ofZ GiB)) in
  let totalMemGB := toFixed 1 (fdiv (ofZ totalMem) (ofZ GiB)) in
  usedMemGB ++ js "/" ++ totalMemGB ++ js "GB " ++ ramPercentage ++ js "%".

Definition getResources (st : TrackerState) (t : TickInput)
    : outcome Resources * TrackerState :=
  match calculateCpuUsage (previousCpus st) (cpus t) with
  | (Thrown e, cpus') => (Thrown e, mkTracker cpus' (prevNet st))
  | (Returned currentCpuUsage, cpus') =>
      let ramStr := ram_display (totalmem t) (freemem t) in
      let diskUsage := getDiskUsage (platform t) (diskExec t) in
      let '(trafUsage, net') :=
        getTrafUsage (platform t) (netRead t) (now t) (prevNet st) in
      (Returned (mkResources currentCpuUsage ramStr diskUsage trafUsage),
       mkTracker cpus' net')
  end.

(** ** The status bar: [updateStatusBarItem] *)

Record Config := mkConfig {
  showOS : bool; showCPU : bool; showRAM : bool; showDisk : bool;
  showTraffic : bool; showBandwidth : bool; iconOnly : bool
}.

Definition default_config : Config :=
  mkConfig true true true true true true false.

(** [lastSpeedTestResult] and [isTestingSpeed] *)
Record ProbeVars := mkProbe {
  isTestingSpeed : bool;
  lastSpeedTestResult : jsstring
}.

Definition probe_initial : ProbeVars := mkProbe false (js "N/A").

Record StatusBar := mkBar { text : jsstring; tooltip : jsstring }.

(** [bwStr] *)
Definition bandwidth_display (p : ProbeVars) : jsstring :=
  if isTestingSpeed p then js "Testing..." else lastSpeedTestResult p.

(** [resources.ram.split(' ').pop() || resources.ram] *)
Definition ram_token (ramStr : jsstring) : jsstring :=
  let popped := last (split_char SPACE ramStr) [] in
  if is_empty popped then ramStr else popped.

Definition disk_token (diskStr : jsstring) : jsstring :=
  let diskParts := split_char SPACE diskStr in
  if (1 <? length diskParts)%nat then last diskParts [] else diskStr.

Definition label (c : Config) (l : string) : jsstring :=
  if iconOnly c then [] else js l.

Definition status_of (c : Config) (osName : jsstring) (p : ProbeVars)
    (resources : Resources) : StatusBar :=
  let bwStr := bandwidth_display p in
  let ramPercent := ram_token (ram resources) in
  let diskPercent := disk_token (disk resources) in
  let parts :=
    (if showOS c then [js "$(desktop-download) " ++ osName] else []) ++
    (if showCPU c then [js "$(pulse) " ++ label c "CPU " ++ cpu resources ++ js "%"] else []) ++
    (if showRAM c then [js "$(server) " ++ label c "RAM " ++ ramPercent] else []) ++
    (if showDisk c then [js "$(database) " ++ label c "DISK " ++ diskPercent] else []) ++
    (if showTraffic c then [js "$(arrow-swap) " ++ label c "TRAF " ++ traf resources] else []) ++
    (if showBandwidth c then [js "$(dashboard) " ++ label c "BW " ++ bwStr] else []) in
  mkBar (join (js " | ") parts)
        (js "OS: " ++ osName ++ [LF] ++
         js "CPU Usage: " ++ cpu resources ++ js "%" ++ [LF] ++
         js "RAM Usage: " ++ ram resources ++ [LF] ++
         js "Disk Usage: " ++ disk resources ++ [LF] ++
         js "Traffic: " ++ traf resources ++ [LF] ++
         js "Bandwidth: " ++ bwStr ++ js " (Click to Test)").

(** [updateStatusBarItem()]: [osName] is what [getOSName()] answers.  When
    [getResources] throws, the status bar is not written. *)
Definition updateStatusBarItem (c : Config) (osName : jsstring) (p : ProbeVars)
    (st : TrackerState) (t : TickInput) : outcome StatusBar * TrackerState :=
  match getResources st t with
  | (Thrown e, st') => (Thrown e, st')
  | (Returned resources, st') => (Returned (status_of c osName p resources), st')
  end.

(** ** The speed test: [runSpeedTest]

    [runSpeedTest] runs to its [await], and later from the settling of the
    promise to its end; JavaScript runs each of the two stretches without
    interleaving.  A flight is a call that is waiting at the [await], with its
    local variables. *)

Record Flight := mkFlight { startTime : Z; downloadedBytes : Z }.

Record World := mkWorld {
  vars : ProbeVars;
  flights : list Flight;
  requests : nat;             (* calls of [https.get] so far *)
  infos : list jsstring;      (* [showInformationMessage] so far *)
  errors : list jsstring;     (* [showErrorMessage] so far *)
  refreshes : nat             (* calls of [updateStatusBarItem] from here *)
}.

Definition world_initial : World :=
  mkWorld probe_initial [] 0 [] [] 0.

(** How the promise of a flight settles. *)
Inductive settlement :=
  | Resolved (endTime : Z)
  | Rejected (message : jsstring).

Inductive event :=
  | Click (now : Z)                        (* the command [os-monitor.checkSpeed] *)
  | Response (id : nat) (statusCode : N)   (* the callback of [https.get] *)
  | Chunk (id : nat) (len : Z)             (* ['data'] *)
  | End (id : nat) (now : Z)               (* ['end'] *)
  | RequestError (id : nat) (message : jsstring)   (* ['error'] on the request *)
  | StreamError (id : nat) (message : jsstring).   (* ['error'] on the response *)

(** Lines 281 to 294: the guard, the flag, and the request. *)
Definition runSpeedTest_start (now : Z) (w : World) : World :=
  if isTestingSpeed (vars w) then w
  else
    mkWorld (mkProbe true (js "Testing..."))
            (flights w ++ [mkFlight now 0])
            (S (requests w))
            (infos w) (errors w)
            (S (refreshes w)).

Definition speed_mbps (f : Flight) (endTime : Z) : number :=
  let durationSec := fdiv (ofZ (endTime - startTime f)) (ofZ 1000) in
  let bps := fdiv (ofZ (downloadedBytes f * 8)) durationSec in
  fdiv bps (ofZ (1000 * 1000)).

Fixpoint remove_nth {A} (i : nat) (l : list A) : list A :=
  match l, i with
  | [], _ => []
  | _ :: l', O => l'
  | x :: l', S i' => x :: remove_nth i' l'
  end.

(** Lines 317 to 331: after the [await], through [try], [catch] and
    [finally]. *)
Definition runSpeedTest_settle (id : nat) (s : settlement) (w : World) : World :=
  match nth_error (flights w) id with
  | None => w
  | Some f =>
      let rest := remove_nth id (flights w) in
      match s with
      | Resolved endTime =>
          let result := toFixed 1 (speed_mbps f endTime) ++ js "Mbps" in
          mkWorld (mkProbe false result) rest (requests w)
                  (infos w ++ [js "Speed Test Complete: " ++ result])
                  (errors w)
                  (S (refreshes w))
      | Rejected message =>
          mkWorld (mkProbe false (js "Error")) rest (requests w)
                  (infos w)
                  (errors w ++ [js "Speed Test Failed: " ++ message])
                  (S (refreshes w))
      end
  end.

Fixpoint update_nth {A} (i : nat) (f : A -> A) (l : list A) : list A :=
  match l, i with
  | [], _ => []
  | x :: l', O => f x :: l'
  | x :: l', S i' => x :: update_nth i' f l'
  end.

Definition step (w : World) (ev : event) : World :=
  match ev with
  | Click now => runSpeedTest_start now w
  | Response id statusCode =>
      if (statusCode =? 200)%N then w
      else runSpeedTest_settle id
             (Rejected (js "Request failed: " ++ digits10 (Z.of_N statusCode))) w
  | Chunk id len =>
      mkWorld (vars w)
              (update_nth id
                 (fun f => mkFlight (startTime f) (downloadedBytes f + len))
                 (flights w))
              (requests w) (infos w) (errors w) (refreshes w)
  | End id now => runSpeedTest_settle id (Resolved now) w
  | RequestError id message => runSpeedTest_settle id (Rejected message) w
  | StreamError id message => runSpeedTest_settle id (Rejected message) w
  end.

Definition run (w : World) (evs : list event) : World := fold_left step evs w.

(** A probe is running in [w]. *)
Definition running (w : World) : bool := isTestingSpeed (vars w).

(** * Vocabulary of the properties *)

(** ** The CPU loop as two sums *)

Definition sum_idle (l : list CpuInfo) : Z :=
  fold_right (fun c acc => idle (times c) + acc) 0 l.

Definition sum_total (l : list CpuInfo) : Z :=
  fold_right (fun c acc => times_total (times c) + acc) 0 l.

(** The summed deltas over the cores that both samples have. *)
Definition idle_delta (prev cur : list CpuInfo) : Z :=
  sum_idle cur - sum_idle (firstn (length cur) prev).

Definition total_delta (prev cur : list CpuInfo) : Z :=
  sum_total cur - sum_total (firstn (length cur) prev).

Definition core (u n s i q : Z) : CpuInfo := mkCpu (mkTimes u n s i q).



(** Every counter of every core is at least what it was. *)
Definition times_le (p c : CpuTimes) : Prop :=
  user p <= user c /\ nice p <= nice c /\ sys p <= sys c /\
  idle p <= idle c /\ irq p <= irq c.

Definition non_decreasing (prev cur : list CpuInfo) : Prop :=
  Forall2 (fun p c => times_le (times p) (times c)) prev cur.

(** ** The speed test *)

(** Either a probe runs and exactly one call waits at its [await], or none
    runs and none waits. *)
Definition single_flight (w : World) : Prop :=
  (running w = true /\ length (flights w) = 1%nat) \/
  (running w = false /\ flights w = []).

(** A failed transport, seen from the one waiting call: a response whose
    status is not 200, an error of the request, an error of the stream. *)
Definition is_failure (ev : event) : bool :=
  match ev with
  | Response O code => negb (code =? 200)%N
  | RequestError O _ => true
  | StreamError O _ => true
  | _ => false
  end.

(** ** The disk probe *)

(** The lines of the output as the POSIX callback cuts them, and the columns
    of the second one. *)
Definition posix_lines (stdout : jsstring) : list jsstring :=
  split_char LF (trim stdout).

Definition posix_columns (stdout : jsstring) : list jsstring :=
  split_ws (trim (nth 1 (posix_lines stdout) [])).

(** Fewer than two lines, or fewer than three columns on the second. *)
Definition posix_unparseable (stdout : jsstring) : Prop :=
  (length (posix_lines stdout) < 2)%nat \/
  (length (posix_columns stdout) < 3)%nat.

(** A row of [wmic] that the loop accepts: three columns at least, and [C:]
    in the third from the end. *)
Definition wmic_row_accepted (line : jsstring) : bool :=
  let parts := split_ws (trim line) in
  (3 <=? length parts)%nat &&
  match last_but 3 parts with
  | Some p => includes (js "C:") p
  | None => false
  end.

Definition wmic_rows_of (stdout : jsstring) : list jsstring :=
  tl (filter (fun line => negb (is_empty (trim line)))
             (split_char LF (trim stdout))).

Definition disk_unparseable (platform stdout : jsstring) : Prop :=
  if JsString.eqb platform (js "win32")
  then forallb (fun line => negb (wmic_row_accepted line)) (wmic_rows_of stdout) = true
  else posix_unparseable stdout.

(** The output of [df] that the source quotes. *)
Definition df_sample : jsstring :=
  js "Size  Used Use%" ++ [LF] ++ js "20G   10G  53%" ++ [LF].

(** ** The tick *)

Definition with_disk (t : TickInput) (d : exec_result) : TickInput :=
  mkTick (platform t) (cpus t) (totalmem t) (freemem t) d (netRead t) (now t).

Definition with_net (t : TickInput) (n : read_result) : TickInput :=
  mkTick (platform t) (cpus t) (totalmem t) (freemem t) (diskExec t) n (now t).

(** No code unit of [s] is a space. *)
Definition spaceless (s : jsstring) : Prop := ~ In SPACE s.

(** ** Dyadic values *)

(** [m * 2^e <= m' * 2^e'], with both sides scaled to the lower exponent. *)
Definition dy_le (m e m' e' : Z) : Prop :=
  m * 2 ^ (e - Z.min e e') <= m' * 2 ^ (e' - Z.min e e').

(** A number that is zero, or positive and at most [mB * 2^eB]. *)
Definition at_most (x : number) (mB eB : Z) : Prop :=
  match x with
  | S754_zero _ => True
  | S754_finite false m e => dy_le (Zpos m) e mB eB
  | _ => False
  end.

(** [k] shifts take [a] to [b]: the mantissa is a floor, and the round bit
    tells that something was cut. *)
Definition shifted (k : Z) (a b : shr_record) : Prop :=
  0 <= shr_m b /\
  shr_m b * 2 ^ k <= shr_m a < (shr_m b + 1) * 2 ^ k /\
  (shr_r b = true -> shr_m b * 2 ^ k < shr_m a).

(** The upper integer of a bracket: the mantissa when the location is exact,
    one more otherwise. *)
Definition bracket_top (m : Z) (l : location) : Z :=
  match l with
  | loc_Exact => m
  | _ => m + 1
  end.

(** The mantissas of 1 and of 100, at the exponents [-52] and [-46]. *)
Definition one_m : Z := 4503599627370496.
Definition hundred_m : Z := 7036874417766400.

(** The sign bit is clear, or the number is [NaN]: not below zero. *)
Definition nonneg (x : number) : Prop :=
  match x with
  | S754_nan => True
  | S754_zero s | S754_infinity s | S754_finite s _ _ => s = false
  end.

(** The number carries the sign [s]. *)
Definition signed (s : bool) (x : number) : Prop :=
  match x with
  | S754_nan => False
  | S754_zero s' | S754_infinity s' | S754_finite s' _ _ => s' = s
  end.

Definition MINUS : N := 45%N.

(** ** Counters that JavaScript counts exactly *)

Definition times_nonneg (t : CpuTimes) : Prop :=
  0 <= user t /\ 0 <= nice t /\ 0 <= sys t /\ 0 <= idle t /\ 0 <= irq t.

(** No counter is negative, and their sum over the sample is below [2^53]:
    every sum and difference that the loop forms is then exact. *)
Definition safe_sample (l : list CpuInfo) : Prop :=
  Forall (fun c => times_nonneg (times c)) l /\ sum_total l < 2 ^ 53.

(** The counters that the loop reads from [/proc/net/dev] are not negative
    and [totalBytes] stays below [2^53]: every number that the loop parses
    and every sum that it forms is then exact. *)
Definition counters_exact (data : jsstring) : bool :=
  forallb (fun raw =>
             (0 <=? fst (line_counters raw)) && (0 <=? snd (line_counters raw)))
          (skipn 2 (split_char LF data))
  && (total_bytes data <? 2 ^ 53).

(** ** The shape of an output of [df] *)

(** Only white space. *)
Definition blank (s : jsstring) : Prop :=
  Forall (fun c => is_space c = true) s.

(** A column: not empty, no white space. *)
Definition solid (s : jsstring) : Prop :=
  s <> [] /\ Forall (fun c => is_space c = false) s.

(** What stands between two columns: white space, not empty, on one line. *)
Definition gap (s : jsstring) : Prop :=
  s <> [] /\ blank s /\ ~ In LF s.

(** A header line: one line that is not blank. *)
Definition header (s : jsstring) : Prop :=
  ~ In LF s /\ exists c, In c s /\ is_space c = false.

(** [t] in front of the first piece. *)
Definition onto_first (t : jsstring) (pieces : list jsstring) : list jsstring :=
  match pieces with
  | cur :: rest => (t ++ cur) :: rest
  | [] => [t]
  end.

(** * More of the program, and the vocabulary of further properties *)

(** ** The timer: [activate]

    [activate] calls [updateStatusBarItem] once and then hands it to
    [setInterval]; the command [os-monitor.update] calls it, and so does
    [runSpeedTest], at its start and at its end.  Each call takes its CPU
    sample at once, before it waits for anything, so the calls replace
    [previousCpus] in the order in which they are made.  Each call reads
    the configuration, the name of the system and the state of the speed
    test anew; a refresh holds what one call finds. *)

Record Refresh := mkRefresh {
  r_config : Config;
  r_osName : jsstring;
  r_probe : ProbeVars;
  r_input : TickInput
}.

(** The calls of [updateStatusBarItem] one after the other, those of the
    timer and the others alike: what each one gives, and the state of the
    trackers at the end. *)
Fixpoint timer_ticks (st : TrackerState) (rs : list Refresh)
    : list (outcome StatusBar) * TrackerState :=
  match rs with
  | [] => ([], st)
  | r :: rs' =>
      let '(o, st') :=
        updateStatusBarItem (r_config r) (r_osName r) (r_probe r) st (r_input r) in
      let '(os, st'') := timer_ticks st' rs' in
      (o :: os, st'')
  end.

(** ** Accounts of the speed test *)

(** Every request is still in flight or has ended in one notification, and
    every start and every end has asked for one refresh. *)
Definition accounted (w : World) : Prop :=
  requests w = (length (infos w) + length (errors w) + length (flights w))%nat /\
  refreshes w = (requests w + length (infos w) + length (errors w))%nat.

(** The download that an event of the network belongs to. *)
Definition flight_of (ev : event) : option nat :=
  match ev with
  | Click _ => None
  | Response id _ | Chunk id _ | End id _
  | RequestError id _ | StreamError id _ => Some id
  end.

Definition sum_Z (l : list Z) : Z := fold_right Z.add 0 l.


(** ** The shape of [/proc/net/dev] *)

(** White space on one line, possibly none. *)
Definition pad (s : jsstring) : Prop := blank s /\ ~ In LF s.

(** Columns, each after its gap. *)
Fixpoint spaced (cols : list (jsstring * jsstring)) : jsstring :=
  match cols with
  | [] => []
  | (g, t) :: rest => g ++ t ++ spaced rest
  end.

(** A row of an interface as the kernel prints it: the name, a colon, and
    the counters in decimal, the first of which may follow the colon at
    once. *)
Record NetRow := mkRow {
  row_lead : jsstring;
  row_name : jsstring;
  row_sep : jsstring;
  row_first : Z;
  row_rest : list (jsstring * Z);
  row_trail : jsstring
}.

Definition row_text (r : NetRow) : jsstring :=
  row_lead r ++ row_name r ++ [COLON] ++ row_sep r ++
  digits10 (row_first r) ++
  spaced (map (fun gn => (fst gn, digits10 (snd gn))) (row_rest r)) ++
  row_trail r.

(** The counters of the row, in the order of the columns. *)
Definition row_counters (r : NetRow) : list Z :=
  row_first r :: map snd (row_rest r).

Definition well_formed_row (r : NetRow) : Prop :=
  pad (row_lead r) /\ pad (row_sep r) /\ pad (row_trail r) /\
  Forall (fun c => is_space c = false) (row_name r) /\
  ~ In COLON (row_name r) /\
  0 <= row_first r /\
  Forall (fun gn => gap (fst gn) /\ 0 <= snd gn) (row_rest r).

(** ** Decimal digits read back *)

(** The number that the digits of [u] spell after the number [acc]. *)
Fixpoint uint_value (acc : Z) (u : Decimal.uint) : Z :=
  match u with
  | Decimal.Nil => acc
  | Decimal.D0 u' => uint_value (acc * 10 + 0) u'
  | Decimal.D1 u' => uint_value (acc * 10 + 1) u'
  | Decimal.D2 u' => uint_value (acc * 10 + 2) u'
  | Decimal.D3 u' => uint_value (acc * 10 + 3) u'
  | Decimal.D4 u' => uint_value (acc * 10 + 4) u'
  | Decimal.D5 u' => uint_value (acc * 10 + 5) u'
  | Decimal.D6 u' => uint_value (acc * 10 + 6) u'
  | Decimal.D7 u' => uint_value (acc * 10 + 7) u'
  | Decimal.D8 u' => uint_value (acc * 10 + 8) u'
  | Decimal.D9 u' => uint_value (acc * 10 + 9) u'
  end.

(** ** The name of the system: [getOSName] *)

Definition QUOTE : N := 34%N.

(** [LineTerminator]: after one of these, [^] of a regular expression with
    the flag [m] matches. *)
Definition is_line_terminator (c : N) : bool :=
  ((c =? 10) || (c =? 13) || (c =? 8232) || (c =? 8233))%N.

(** The longest run of code units other than the double quote, which is
    what the greedy group of the pattern takes. *)
Fixpoint unquoted_run (s : jsstring) : jsstring :=
  match s with
  | c :: s' => if (c =? QUOTE)%N then [] else c :: unquoted_run s'
  | [] => []
  end.

(** The pattern tried at the head of [s]: [PRETTY_NAME=], a double quote
    or none, a group of one or more code units other than the double quote,
    a double quote or none.  The result is the group, if the pattern matches
    there.  The first optional quote takes a quote that is there; giving it
    back does not help, since the group cannot start with it.  The last
    optional quote always matches. *)
Definition match_pretty_name_here (s : jsstring) : option jsstring :=
  if starts_with (js "PRETTY_NAME=") s then
    let rest := skipn 12 s in
    let after_quote :=
      match rest with
      | c :: r => if (c =? QUOTE)%N then r else rest
      | [] => rest
      end in
    let group := unquoted_run after_quote in
    if is_empty group then None else Some group
  else None.

(** [content.match] with the pattern anchored by [^] under the flag [m]:
    the group of the leftmost match, [None] for [null].  The flag tells that
    a line starts at the head of [s]. *)
Fixpoint match_pretty_name (line_start : bool) (s : jsstring)
    : option jsstring :=
  match (if line_start then match_pretty_name_here s else None) with
  | Some group => Some group
  | None =>
      match s with
      | [] => None
      | c :: s' => match_pretty_name (is_line_terminator c) s'
      end
  end.

(** What the [try] block finds: no [/etc/os-release], a read that throws,
    or the content of the file. *)
Inductive os_release :=
  | NoFile
  | ReadThrows
  | Content (content : jsstring).

Section GetOSName.

(** [String.prototype.toLowerCase], of which nothing is assumed. *)
Variable toLowerCase : jsstring -> jsstring.

Definition getOSName (platform : jsstring) (file : os_release) : jsstring :=
  if JsString.eqb platform (js "linux") then
    match file with
    | Content content =>
        if includes (js "chrome os") (toLowerCase content)
           || includes (js "chromium os") (toLowerCase content)
        then js "ChromeOS"
        else
          match match_pretty_name true content with
          | Some name => name
          | None => js "Linux"
          end
    | NoFile | ReadThrows => js "Linux"
    end
  else if JsString.eqb platform (js "win32") then js "Windows"
  else if JsString.eqb platform (js "darwin") then js "macOS"
  else platform.

End GetOSName.

(** Lower case for the letters [A] to [Z], which is what [toLowerCase] does
    to a string of ASCII. *)
Definition lower_ascii (s : jsstring) : jsstring :=
  map (fun c => if ((65 <=? c) && (c <=? 90))%N then (c + 32)%N else c) s.

(** ** Samples of the calls *)

(** No sample has more cores than the one before it, the first no more
    than the stored one. *)
Fixpoint cores_never_grow (prev : list CpuInfo) (rs : list Refresh) : Prop :=
  match rs with
  | [] => True
  | r :: rs' =>
      (length (cpus (r_input r)) <= length prev)%nat /\
      cores_never_grow (cpus (r_input r)) rs'
  end.

(** The stored sample and the samples of the refreshes, in order. *)
Definition samples (st : TrackerState) (rs : list Refresh)
    : list (list CpuInfo) :=
  previousCpus st :: map (fun r => cpus (r_input r)) rs.
(** * Lemmas *)

(** ** The CPU loop as two sums *)

Lemma cpu_loop_aligned :
  forall rest pre post a b,
    (length rest <= length post)%nat ->
    cpu_loop (pre ++ post) (length pre) rest a b =
    Some (a + (sum_idle rest - sum_idle (firstn (length rest) post)),
          b + (sum_total rest - sum_total (firstn (length rest) post))).
Proof.
  induction rest as [|c rest IH]; intros pre post a b Hlen; simpl.
  - f_equal. f_equal; lia.
  - destruct post as [|p post]; simpl in Hlen; [lia|].
    rewrite nth_error_app2 by lia.
    replace (length pre - length pre)%nat with 0%nat by lia. simpl.
    replace (pre ++ p :: post) with ((pre ++ [p]) ++ post)
      by (rewrite <- app_assoc; reflexivity).
    replace (S (length pre)) with (length (pre ++ [p]))
      by (rewrite length_app; simpl; lia).
    rewrite IH by lia.
    f_equal. f_equal; lia.
Qed.

Lemma cpu_loop_short :
  forall rest pre post a b,
    (length post < length rest)%nat ->
    cpu_loop (pre ++ post) (length pre) rest a b = None.
Proof.
  induction rest as [|c rest IH]; intros pre post a b Hlen; simpl in *.
  - lia.
  - destruct post as [|p post]; simpl in Hlen.
    + rewrite app_nil_r.
      destruct (nth_error pre (length pre)) eqn:E; [|reflexivity].
      assert (nth_error pre (length pre) <> None) as E' by congruence.
      apply nth_error_Some in E'. lia.
    + rewrite nth_error_app2 by lia.
      replace (length pre - length pre)%nat with 0%nat by lia. simpl.
      replace (pre ++ p :: post) with ((pre ++ [p]) ++ post)
        by (rewrite <- app_assoc; reflexivity).
      replace (S (length pre)) with (length (pre ++ [p]))
        by (rewrite length_app; simpl; lia).
      apply IH. lia.
Qed.

Lemma calculateCpuUsage_aligned :
  forall prev cur,
    (length cur <= length prev)%nat ->
    calculateCpuUsage prev cur =
    (Returned (if total_delta prev cur =? 0 then js "0.0"
               else toFixed 1 (cpu_percent (idle_delta prev cur)
                                           (total_delta prev cur))),
     cur).
Proof.
  intros prev cur Hlen. unfold calculateCpuUsage.
  pose proof (cpu_loop_aligned cur [] prev 0 0 Hlen) as E.
  simpl in E. rewrite E.
  fold (idle_delta prev cur). fold (total_delta prev cur).
  destruct (total_delta prev cur =? 0); reflexivity.
Qed.

Lemma calculateCpuUsage_grown :
  forall prev cur,
    (length prev < length cur)%nat ->
    calculateCpuUsage prev cur = (Thrown undefined_times, prev).
Proof.
  intros prev cur Hlen. unfold calculateCpuUsage.
  pose proof (cpu_loop_short cur [] prev 0 0 Hlen) as E.
  simpl in E. rewrite E. reflexivity.
Qed.

Lemma deltas_of_non_decreasing :
  forall prev cur,
    non_decreasing prev cur ->
    0 <= sum_idle cur - sum_idle prev <= sum_total cur - sum_total prev.
Proof.
  intros prev cur H. induction H as [|p c prev cur Hpc _ IH]; simpl.
  - lia.
  - destruct Hpc as (Hu & Hn & Hs & Hi & Hq). unfold times_total. lia.
Qed.

Lemma sum_total_nonneg :
  forall l, Forall (fun c => times_nonneg (times c)) l -> 0 <= sum_total l.
Proof.
  intros l H. induction H as [|c l Hc _ IH]; simpl.
  - lia.
  - destruct Hc as (Hu & Hn & Hs & Hi & Hq). unfold times_total. lia.
Qed.

(** ** Cutting strings *)

Lemma jsstring_eqb_eq : forall a b, JsString.eqb a b = true -> a = b.
Proof.
  induction a as [|x a IH]; intros [|y b] H; simpl in H; try discriminate.
  - reflexivity.
  - apply andb_true_iff in H. destruct H as [Hx Hab].
    apply N.eqb_eq in Hx. subst y. f_equal. now apply IH.
Qed.

Lemma split_char_whole :
  forall sep b, ~ In sep b -> split_char sep b = [b].
Proof.
  induction b as [|c b IH]; intros H; simpl.
  - reflexivity.
  - rewrite IH by (intros Hin; apply H; now right).
    destruct (N.eqb_spec c sep) as [-> | _]; [|reflexivity].
    exfalso. apply H. now left.
Qed.

Lemma split_char_tail :
  forall sep a b,
    ~ In sep b ->
    exists pieces,
      pieces <> [] /\ split_char sep (a ++ sep :: b) = pieces ++ [b].
Proof.
  intros sep a b Hb. induction a as [|c a IH]; simpl.
  - rewrite (split_char_whole sep b Hb). rewrite N.eqb_refl.
    exists [[]]. split; [discriminate | reflexivity].
  - destruct IH as [pieces [Hne E]]. rewrite E.
    destruct pieces as [|p ps]; [congruence|]. simpl.
    destruct (c =? sep)%N.
    + exists ([] :: p :: ps). split; [discriminate | reflexivity].
    + exists ((c :: p) :: ps). split; [discriminate | reflexivity].
Qed.

Lemma split_char_last :
  forall sep a b,
    ~ In sep b -> last (split_char sep (a ++ sep :: b)) [] = b.
Proof.
  intros sep a b Hb. destruct (split_char_tail sep a b Hb) as [pieces [_ E]].
  rewrite E. apply last_last.
Qed.

Lemma split_ws_from_tokens :
  forall s in_run t,
    In t (split_ws_from in_run s) ->
    forallb (fun c => negb (is_space c)) t = true.
Proof.
  induction s as [|c s IH]; intros in_run t H; simpl in H.
  - destruct H as [<- | []]. reflexivity.
  - destruct (is_space c) eqn:Ec.
    + destruct in_run.
      * now apply (IH true).
      * destruct H as [<- | H]; [reflexivity | now apply (IH true)].
    + destruct (split_ws_from false s) as [|cur rest] eqn:E.
      * destruct H as [<- | []]. simpl. now rewrite Ec.
      * destruct H as [<- | H].
        -- simpl. rewrite Ec. simpl. apply (IH false). rewrite E. now left.
        -- apply (IH false). rewrite E. now right.
Qed.

Lemma trimStart_blank_app :
  forall p s, blank p -> trimStart (p ++ s) = trimStart s.
Proof.
  intros p s H. induction H as [|c p Hc _ IH]; simpl.
  - reflexivity.
  - rewrite Hc. exact IH.
Qed.

Lemma trimStart_app_not_blank :
  forall a b,
    (exists c, In c a /\ is_space c = false) ->
    trimStart (a ++ b) = trimStart a ++ b.
Proof.
  induction a as [|x a IH]; intros b [c [Hin Hc]].
  - contradiction.
  - simpl. destruct (is_space x) eqn:Ex.
    + apply IH. exists c. split; [|exact Hc].
      destruct Hin as [-> | Hin]; [congruence | exact Hin].
    + reflexivity.
Qed.

Lemma trimStart_solid :
  forall t s, solid t -> trimStart (t ++ s) = t ++ s.
Proof.
  intros [|c t] s [Hne H]; [congruence|].
  inversion H as [|? ? Hc _]; subst. simpl. now rewrite Hc.
Qed.

Lemma trimStart_incl :
  forall s c, In c (trimStart s) -> In c s.
Proof.
  induction s as [|x s IH]; intros c H; simpl in *.
  - exact H.
  - destruct (is_space x); [right; now apply IH | exact H].
Qed.

Lemma blank_rev : forall s, blank s -> blank (rev s).
Proof. intros s H. now apply Forall_rev. Qed.

Lemma solid_rev : forall s, solid s -> solid (rev s).
Proof.
  intros s [Hne H]. split.
  - intros E. apply Hne. rewrite <- (rev_involutive s), E. reflexivity.
  - now apply Forall_rev.
Qed.

(** Trailing white space goes, up to a column. *)
Lemma trimEnd_tail :
  forall a t trail,
    solid t -> blank trail -> trimEnd (a ++ t ++ trail) = a ++ t.
Proof.
  intros a t trail Ht Htrail. unfold trimEnd.
  rewrite !rev_app_distr, <- app_assoc.
  rewrite trimStart_blank_app by now apply blank_rev.
  rewrite trimStart_solid by now apply solid_rev.
  rewrite <- rev_app_distr. apply rev_involutive.
Qed.

Lemma split_char_two :
  forall sep x y,
    ~ In sep x -> ~ In sep y -> split_char sep (x ++ sep :: y) = [x; y].
Proof.
  intros sep x y Hx Hy. induction x as [|c x IH]; simpl.
  - rewrite (split_char_whole sep y Hy), N.eqb_refl. reflexivity.
  - rewrite IH by (intros H; apply Hx; now right).
    destruct (N.eqb_spec c sep) as [-> | _]; [|reflexivity].
    exfalso. apply Hx. now left.
Qed.

Lemma split_ws_from_solid :
  forall t s in_run,
    solid t ->
    split_ws_from in_run (t ++ s) = onto_first t (split_ws_from false s).
Proof.
  intros t s in_run [Hne H]. revert in_run.
  induction H as [|c t Hc Ht IH]; intros in_run; [congruence|].
  simpl. rewrite Hc.
  destruct t as [|d t].
  - simpl. destruct (split_ws_from false s); reflexivity.
  - rewrite (IH ltac:(discriminate) false).
    destruct (split_ws_from false s); reflexivity.
Qed.

Lemma split_ws_from_run :
  forall g s, blank g -> split_ws_from true (g ++ s) = split_ws_from true s.
Proof.
  intros g s H. induction H as [|c g Hc _ IH]; simpl.
  - reflexivity.
  - rewrite Hc. exact IH.
Qed.

Lemma split_ws_from_gap :
  forall g s,
    g <> [] -> blank g ->
    split_ws_from false (g ++ s) = [] :: split_ws_from true s.
Proof.
  intros [|c g] s Hne H; [congruence|].
  inversion H as [|? ? Hc Hg]; subst. simpl. rewrite Hc.
  now rewrite split_ws_from_run.
Qed.

(** Three columns between gaps are the three pieces. *)
Lemma split_ws_three :
  forall t0 g1 t1 g2 t2,
    solid t0 -> gap g1 -> solid t1 -> gap g2 -> solid t2 ->
    split_ws (t0 ++ g1 ++ t1 ++ g2 ++ t2) = [t0; t1; t2].
Proof.
  intros t0 g1 t1 g2 t2 H0 (N1 & B1 & _) H1 (N2 & B2 & _) H2.
  unfold split_ws.
  rewrite (split_ws_from_solid t0 _ false H0).
  rewrite (split_ws_from_gap g1 _ N1 B1).
  rewrite (split_ws_from_solid t1 _ true H1).
  rewrite (split_ws_from_gap g2 _ N2 B2).
  rewrite <- (app_nil_r t2) at 1.
  rewrite (split_ws_from_solid t2 [] true H2).
  simpl. rewrite !app_nil_r. reflexivity.
Qed.

Lemma solid_no_LF : forall t, solid t -> ~ In LF t.
Proof.
  intros t [_ H] Hin. rewrite Forall_forall in H.
  specialize (H LF Hin). discriminate.
Qed.

(** The output of [df] in its documented shape: a header line, then a line
    of three columns, with white space around. *)
Lemma getDiskUsage_posix_df_shape :
  forall h lead size g1 used g2 percent trail,
    header h ->
    blank lead -> ~ In LF lead ->
    solid size -> gap g1 -> solid used -> gap g2 -> solid percent ->
    blank trail ->
    getDiskUsage_posix
      (ExecOutput (h ++ [LF] ++ lead ++ size ++ g1 ++ used ++ g2 ++ percent ++ trail))
    = used ++ js "/" ++ size ++ js " " ++ percent.
Proof.
  intros h lead size g1 used g2 percent trail [HhLF Hh] Hlead HleadLF
         Hsize Hg1 Hused Hg2 Hpercent Htrail.
  set (body := size ++ g1 ++ used ++ g2 ++ percent).
  assert (trim (h ++ [LF] ++ lead ++ size ++ g1 ++ used ++ g2 ++ percent ++ trail)
          = trimStart h ++ LF :: lead ++ body) as Etrim.
  { unfold trim. rewrite trimStart_app_not_blank by exact Hh.
    replace (trimStart h ++ [LF] ++ lead ++ size ++ g1 ++ used ++ g2 ++ percent ++ trail)
      with ((trimStart h ++ LF :: lead ++ size ++ g1 ++ used ++ g2)
            ++ percent ++ trail)
      by (rewrite <- !app_assoc; simpl; rewrite <- !app_assoc; reflexivity).
    rewrite trimEnd_tail by assumption.
    subst body. rewrite <- !app_assoc. simpl. rewrite <- !app_assoc.
    reflexivity. }
  assert (~ In LF body) as HbodyLF.
  { subst body. intros H.
    destruct Hg1 as (_ & _ & Hg1). destruct Hg2 as (_ & _ & Hg2).
    repeat (apply in_app_iff in H; destruct H as [H | H]);
      try (now apply (solid_no_LF _ Hsize));
      try (now apply (solid_no_LF _ Hused));
      try (now apply (solid_no_LF _ Hpercent)); tauto. }
  assert (split_char LF (trimStart h ++ LF :: lead ++ body)
          = [trimStart h; lead ++ body]) as Elines.
  { apply split_char_two.
    - intros H. apply HhLF. now apply trimStart_incl.
    - intros H. apply in_app_iff in H. tauto. }
  assert (trim (lead ++ body) = body) as Ebody.
  { unfold trim. rewrite trimStart_blank_app by exact Hlead.
    subst body. rewrite trimStart_solid by exact Hsize.
    pose proof (trimEnd_tail (size ++ g1 ++ used ++ g2) percent []
                  Hpercent (Forall_nil _)) as E.
    rewrite app_nil_r, <- !app_assoc in E. exact E. }
  unfold getDiskUsage_posix. rewrite Etrim, Elines.
  cbn [length Nat.leb nth]. rewrite Ebody.
  subst body. rewrite split_ws_three by assumption.
  reflexivity.
Qed.

(** ** Formatted numbers *)

(** Closes a goal whose hypothesis [H] places a code unit in a literal that
    does not hold it. *)
Ltac not_in_literal H :=
  vm_compute in H;
  repeat (destruct H as [H | H]; [discriminate|]);
  contradiction.

Lemma uint_units_digits :
  forall u c, In c (uint_units u) -> (48 <= c <= 57)%N.
Proof.
  induction u; simpl; intros c H; try contradiction;
    (destruct H as [H | H]; [subst c; lia | now apply IHu]).
Qed.

Lemma digits10_digits :
  forall n c, In c (digits10 n) -> (48 <= c <= 57)%N.
Proof. intros n c. apply uint_units_digits. Qed.

Lemma in_firstn_skipn :
  forall A (l : list A) k x,
    In x (firstn k l) \/ In x (skipn k l) -> In x l.
Proof.
  intros A l k x H. rewrite <- (firstn_skipn k l). apply in_app_iff. exact H.
Qed.

Lemma fixed_digits_units :
  forall f n c, In c (fixed_digits f n) -> (48 <= c <= 57)%N \/ c = 46%N.
Proof.
  intros f n c. unfold fixed_digits. destruct f as [|f].
  - intros H. left. now apply digits10_digits in H.
  - cbv zeta. set (m' := repeat 48%N _ ++ digits10 n).
    assert (forall d, In d m' -> (48 <= d <= 57)%N) as Hm'.
    { intros d Hd. subst m'. apply in_app_iff in Hd. destruct Hd as [Hd | Hd].
      - apply repeat_spec in Hd. subst d. lia.
      - now apply digits10_digits in Hd. }
    intros H. apply in_app_iff in H. destruct H as [H | H].
    + left. apply Hm'. eapply in_firstn_skipn. left. exact H.
    + apply in_app_iff in H. destruct H as [H | H].
      * right. simpl in H. destruct H as [H | []]. now subst c.
      * left. apply Hm'. eapply in_firstn_skipn. right. exact H.
Qed.

Lemma strip_zeros_incl :
  forall s c, In c (strip_zeros s) -> In c s.
Proof.
  intros s c. unfold strip_zeros. rewrite <- in_rev.
  rewrite (in_rev s). generalize (rev s) as r.
  induction r as [|d r IH]; intros H; [exact H|].
  destruct d as [|p]; [exact H|].
  destruct (Pos.eq_dec p 48) as [-> | Hne].
  - right. apply IH. exact H.
  - replace ((fix strip (r0 : jsstring) : jsstring :=
               match r0 with
               | 48%N :: r' => strip r'
               | _ => r0
               end) (N.pos p :: r)) with (N.pos p :: r) in H; [exact H|].
    do 6 (destruct p as [p | p |]; try reflexivity; try congruence).
Qed.

Lemma exponent_digits_units :
  forall v c,
    In c (exponent_digits v) ->
    (48 <= c <= 57)%N \/ c = 46%N \/ c = 101%N \/ c = 43%N.
Proof.
  intros v c. unfold exponent_digits. cbv zeta.
  set (w := shortest_from 17 1 _ v).
  set (ex := digits10 (Z.of_nat (length (digits10 w)) - 1)).
  assert (forall d, In d (strip_zeros (digits10 w)) -> (48 <= d <= 57)%N) as Hs.
  { intros d Hd. apply strip_zeros_incl in Hd. now apply digits10_digits in Hd. }
  assert (forall d, In d (js "e+" ++ ex) ->
            (48 <= d <= 57)%N \/ d = 46%N \/ d = 101%N \/ d = 43%N) as He.
  { intros d Hd. apply in_app_iff in Hd. destruct Hd as [Hd | Hd].
    - simpl in Hd. destruct Hd as [Hd | [Hd | []]]; subst d; auto.
    - left. subst ex. now apply digits10_digits in Hd. }
  destruct (strip_zeros (digits10 w)) as [|d [|d' ds]]; intros H.
  - contradiction.
  - apply in_app_iff in H. destruct H as [H | H].
    + left. apply Hs. simpl in *. tauto.
    + now apply He.
  - apply in_app_iff in H. destruct H as [H | H].
    + left. apply Hs. simpl in *. tauto.
    + apply in_app_iff in H. destruct H as [H | H].
      * simpl in H. destruct H as [H | []]. subst c. auto.
      * apply in_app_iff in H. destruct H as [H | H].
        -- left. apply Hs. simpl in *. tauto.
        -- now apply He.
Qed.

Lemma toFixed_spaceless : forall f x, spaceless (toFixed f x).
Proof.
  intros f x Hin. unfold toFixed in Hin.
  destruct x as [s | [|] | | s m e].
  - apply fixed_digits_units in Hin. unfold SPACE in Hin. lia.
  - not_in_literal Hin.
  - not_in_literal Hin.
  - not_in_literal Hin.
  - apply in_app_iff in Hin. destruct Hin as [Hin | Hin].
    + destruct s; simpl in Hin; [destruct Hin as [Hin | []]; discriminate | contradiction].
    + destruct (at_least_1e21 m e).
      * apply exponent_digits_units in Hin. unfold SPACE in Hin. lia.
      * apply fixed_digits_units in Hin. unfold SPACE in Hin. lia.
Qed.

Lemma fixed_digits_1_decimal :
  forall n,
    0 <= n <= 1000 ->
    fixed_digits 1 n = digits10 (n / 10) ++ js "." ++ digits10 (n mod 10).
Proof.
  intros n Hn.
  assert (forallb
            (fun k =>
               JsString.eqb
                 (fixed_digits 1 (Z.of_nat k))
                 (digits10 (Z.of_nat k / 10) ++ js "." ++
                  digits10 (Z.of_nat k mod 10)))
            (seq 0 1001) = true) as Hall by (vm_compute; reflexivity).
  rewrite forallb_forall in Hall.
  specialize (Hall (Z.to_nat n)). rewrite Z2Nat.id in Hall by lia.
  apply jsstring_eqb_eq, Hall, in_seq. lia.
Qed.

Lemma ram_token_percent :
  forall a pct,
    spaceless pct ->
    ram_token (a ++ js "GB " ++ pct ++ js "%") = pct ++ js "%" /\
    last (split_char SPACE (a ++ js "GB " ++ pct ++ js "%")) [] = pct ++ js "%".
Proof.
  intros a pct Hpct.
  assert (~ In SPACE (pct ++ js "%")) as Hb.
  { intros H. apply in_app_iff in H. destruct H as [H | H].
    - now apply Hpct.
    - simpl in H. destruct H as [H | []]. discriminate. }
  assert (a ++ js "GB " ++ pct ++ js "%"
          = (a ++ js "GB") ++ SPACE :: (pct ++ js "%")) as E.
  { rewrite <- app_assoc. reflexivity. }
  unfold ram_token. rewrite E, split_char_last by exact Hb.
  split; [|reflexivity].
  destruct pct; reflexivity.
Qed.

(** ** Rounding in binary64

    Values are compared as dyadic numbers [m * 2^e]; a common lower exponent
    [b] turns the comparison into one of integers. *)

Lemma pow2_gt0 : forall k, 0 <= k -> 0 < 2 ^ k.
Proof. intros k H. apply Z.pow_pos_nonneg; lia. Qed.

Lemma pow2_split : forall a b, 0 <= a -> 0 <= b -> 2 ^ (a + b) = 2 ^ a * 2 ^ b.
Proof. intros a b Ha Hb. apply Z.pow_add_r; assumption. Qed.

Lemma pow2_chain :
  forall b e e1, b <= e -> e <= e1 -> 2 ^ (e1 - b) = 2 ^ (e1 - e) * 2 ^ (e - b).
Proof.
  intros b e e1 H1 H2. rewrite <- pow2_split by lia. f_equal. lia.
Qed.

Lemma dy_le_base :
  forall m e m' e' b,
    b <= e -> b <= e' ->
    (dy_le m e m' e' <-> m * 2 ^ (e - b) <= m' * 2 ^ (e' - b)).
Proof.
  intros m e m' e' b He He'. unfold dy_le.
  set (c := Z.min e e').
  assert (b <= c) as Hc by (subst c; lia).
  assert (c <= e /\ c <= e') as [Hce Hce'] by (subst c; lia).
  replace (e - b) with ((e - c) + (c - b)) by lia.
  replace (e' - b) with ((e' - c) + (c - b)) by lia.
  rewrite !pow2_split by lia.
  pose proof (pow2_gt0 (c - b) ltac:(lia)) as Hp.
  rewrite !Z.mul_assoc.
  split; intros H.
  - apply Z.mul_le_mono_nonneg_r; lia.
  - apply Z.mul_le_mono_pos_r in H; lia.
Qed.

(** *** Number of bits *)

Lemma digits2_pos_bounds :
  forall m,
    2 ^ (Zpos (digits2_pos m) - 1) <= Zpos m < 2 ^ Zpos (digits2_pos m).
Proof.
  induction m as [m IH | m IH |]; cbn [digits2_pos].
  - rewrite Pos2Z.inj_succ.
    replace (Z.succ (Zpos (digits2_pos m)) - 1)
      with (Z.succ (Zpos (digits2_pos m) - 1)) by lia.
    rewrite !Z.pow_succ_r by lia. lia.
  - rewrite Pos2Z.inj_succ.
    replace (Z.succ (Zpos (digits2_pos m)) - 1)
      with (Z.succ (Zpos (digits2_pos m) - 1)) by lia.
    rewrite !Z.pow_succ_r by lia. lia.
  - simpl. lia.
Qed.

Lemma Zdigits2_bounds :
  forall m, 0 < m -> 2 ^ (Zdigits2 m - 1) <= m < 2 ^ Zdigits2 m.
Proof.
  intros [|m|m] H; try lia. apply digits2_pos_bounds.
Qed.

Lemma Zdigits2_pos : forall m, 0 < m -> 0 < Zdigits2 m.
Proof. intros [|m|m] H; simpl; lia. Qed.

(** A power of two bounds the number of bits. *)
Lemma Zdigits2_le_of_lt_pow :
  forall m k, 0 < m -> m < 2 ^ k -> Zdigits2 m <= k.
Proof.
  intros m k Hm Hk.
  destruct (Z_lt_le_dec k (Zdigits2 m)) as [H | H]; [|exact H].
  exfalso.
  pose proof (Zdigits2_bounds m Hm) as [Hlo _].
  assert (0 <= k).
  { destruct (Z_lt_le_dec k 0) as [Hn | Hn]; [|exact Hn].
    rewrite Z.pow_neg_r in Hk by exact Hn. lia. }
  assert (2 ^ k <= 2 ^ (Zdigits2 m - 1)) by (apply Z.pow_le_mono_r; lia).
  lia.
Qed.

Lemma Zdigits2_gt_of_ge_pow :
  forall m k, 0 <= k -> 2 ^ k <= m -> k < Zdigits2 m.
Proof.
  intros m k Hk Hm.
  pose proof (pow2_gt0 k Hk).
  pose proof (Zdigits2_bounds m ltac:(lia)) as [_ Hhi].
  pose proof (Zdigits2_pos m ltac:(lia)).
  assert (2 ^ k < 2 ^ Zdigits2 m) as Hlt by lia.
  apply Z.pow_lt_mono_r_iff in Hlt; lia.
Qed.

Lemma Zdigits2_mono :
  forall a b, 0 < a -> a <= b -> Zdigits2 a <= Zdigits2 b.
Proof.
  intros a b Ha Hab.
  pose proof (Zdigits2_bounds a Ha) as [Hlo _].
  pose proof (Zdigits2_bounds b ltac:(lia)) as [_ Hhi].
  pose proof (Zdigits2_pos a Ha). pose proof (Zdigits2_pos b ltac:(lia)).
  assert (2 ^ (Zdigits2 a - 1) < 2 ^ Zdigits2 b) as Hlt by lia.
  apply Z.pow_lt_mono_r_iff in Hlt; lia.
Qed.

Lemma Zdigits2_shift :
  forall m k, 0 < m -> 0 <= k -> Zdigits2 (m * 2 ^ k) = Zdigits2 m + k.
Proof.
  intros m k Hm Hk.
  pose proof (pow2_gt0 k Hk) as Hp.
  assert (0 < m * 2 ^ k) as Hmk by nia.
  pose proof (Zdigits2_bounds m Hm) as [Hlo Hhi].
  pose proof (Zdigits2_bounds (m * 2 ^ k) Hmk) as [Hlo' Hhi'].
  pose proof (Zdigits2_pos m Hm). pose proof (Zdigits2_pos _ Hmk).
  assert (Zdigits2 (m * 2 ^ k) <= Zdigits2 m + k).
  { apply Zdigits2_le_of_lt_pow; [exact Hmk|].
    rewrite pow2_split by lia. nia. }
  assert (Zdigits2 m + k <= Zdigits2 (m * 2 ^ k)).
  { assert (2 ^ (Zdigits2 m - 1 + k) < 2 ^ Zdigits2 (m * 2 ^ k)) as Hlt.
    { rewrite pow2_split by lia. nia. }
    apply Z.pow_lt_mono_r_iff in Hlt; lia. }
  lia.
Qed.

Lemma fexp_mono :
  forall a b, a <= b -> fexp prec emax a <= fexp prec emax b.
Proof. intros a b H. unfold fexp, emin. lia. Qed.

(** *** Shifting right *)

Lemma shr_1_shifted :
  forall a, 0 <= shr_m a -> shifted 1 a (shr_1 a).
Proof.
  intros [m r s] Hm. simpl in Hm. unfold shifted.
  destruct m as [|[p | p |]|p]; simpl; try lia;
    repeat split; try lia; intros H; try discriminate; lia.
Qed.

Lemma shifted_trans :
  forall j k a b c,
    0 <= j -> 0 <= k ->
    shifted j a b -> shifted k b c -> shifted (j + k) a c.
Proof.
  intros j k a b c Hj Hk (Hb0 & [Hb1 Hb1'] & Hb2) (Hc0 & [Hc1 Hc1'] & Hc2).
  unfold shifted. rewrite pow2_split by assumption.
  pose proof (pow2_gt0 j Hj). pose proof (pow2_gt0 k Hk).
  split; [assumption|]. split; [split|].
  - nia.
  - assert (shr_m b + 1 <= (shr_m c + 1) * 2 ^ k) by lia. nia.
  - intros Hr. specialize (Hc2 Hr). nia.
Qed.

Lemma iter_shr_1_shifted :
  forall n a, 0 <= shr_m a -> shifted (Zpos n) a (iter_pos shr_1 n a).
Proof.
  induction n as [n IH | n IH |]; intros a Ha; cbn [iter_pos].
  - pose proof (shr_1_shifted a Ha) as H1.
    assert (0 <= shr_m (shr_1 a)) as Ha1 by apply H1.
    pose proof (IH _ Ha1) as H2.
    assert (0 <= shr_m (iter_pos shr_1 n (shr_1 a))) as Ha2 by apply H2.
    pose proof (IH _ Ha2) as H3.
    replace (Zpos n~1) with (1 + (Zpos n + Zpos n)) by lia.
    eapply shifted_trans; [lia | lia | exact H1 |].
    eapply shifted_trans; [lia | lia | exact H2 | exact H3].
  - pose proof (IH _ Ha) as H2.
    assert (0 <= shr_m (iter_pos shr_1 n a)) as Ha2 by apply H2.
    pose proof (IH _ Ha2) as H3.
    replace (Zpos n~0) with (Zpos n + Zpos n) by lia.
    eapply shifted_trans; [lia | lia | exact H2 | exact H3].
  - now apply shr_1_shifted.
Qed.

Lemma round_nearest_even_bounds :
  forall mrs,
    let m := round_nearest_even (shr_m mrs) (loc_of_shr_record mrs) in
    shr_m mrs <= m <= shr_m mrs + 1 /\
    (shr_r mrs = false -> m = shr_m mrs).
Proof.
  intros [m [|] [|]]; simpl; try (split; [lia | intros; congruence || reflexivity]).
  destruct (Z.even m); split; try lia; intros; congruence.
Qed.

Lemma shr_record_of_loc_m :
  forall m l, shr_m (shr_record_of_loc m l) = m.
Proof. intros m [|[| |]]; reflexivity. Qed.

(** [shr_fexp] either leaves the mantissa alone or shifts it down to the
    exponent of the format. *)
Lemma shr_fexp_cases :
  forall m e l mrs e1,
    0 <= m ->
    shr_fexp prec emax m e l = (mrs, e1) ->
    (e1 = e /\ mrs = shr_record_of_loc m l) \/
    (e < e1 /\ e1 = fexp prec emax (Zdigits2 m + e) /\
     shifted (e1 - e) (shr_record_of_loc m l) mrs).
Proof.
  intros m e l mrs e1 Hm H. unfold shr_fexp, shr in H.
  destruct (fexp prec emax (Zdigits2 m + e) - e) as [|n|n] eqn:En;
    inversion H; subst; clear H.
  - left. split; reflexivity.
  - right. split; [lia|]. split; [lia|].
    replace (e + Zpos n - e) with (Zpos n) by lia.
    apply iter_shr_1_shifted. rewrite shr_record_of_loc_m. exact Hm.
  - left. split; reflexivity.
Qed.

(** *** Rounding stays below a number of the format *)

(** Rounding does not step over a number of the format: if the bracket of
    [(m, e, l)] lies at or below [mB * 2^eB], so does the rounded result. *)
Lemma round_aux_at_most :
  forall m e l mB eB b,
    0 <= m -> 0 < mB ->
    fexp prec emax (Zdigits2 mB + eB) <= eB ->
    Zdigits2 mB + eB <= emax - prec + 1 ->
    b <= e -> b <= eB ->
    bracket_top m l * 2 ^ (e - b) <= mB * 2 ^ (eB - b) ->
    at_most (binary_round_aux prec emax false m e l) mB eB.
Proof.
  intros m e l mB eB b Hm HmB Hcan Hmax Hbe HbB Htop.
  unfold binary_round_aux.
  destruct (shr_fexp prec emax m e l) as [mrs1 e1] eqn:E1.
  set (m2 := round_nearest_even (shr_m mrs1) (loc_of_shr_record mrs1)).
  destruct (shr_fexp prec emax m2 e1 loc_Exact) as [mrs3 e3] eqn:E3.
  pose proof (round_nearest_even_bounds mrs1) as [Hm2 Hm2'].
  fold m2 in Hm2, Hm2'.
  pose proof (pow2_gt0 (e - b) ltac:(lia)) as Hpe.
  assert (m <= bracket_top m l) as HmU by (destruct l; simpl; lia).
  (* the first shift and the rounding stay below the bound *)
  assert (e <= e1 /\ 0 <= m2 /\ m2 * 2 ^ (e1 - b) <= mB * 2 ^ (eB - b))
    as (He1 & Hm2pos & HA).
  { destruct (shr_fexp_cases m e l mrs1 e1 Hm E1)
      as [[-> ->] | (Hlt & Hfe & (Hs0 & [Hs1 Hs1'] & Hs2))].
    - rewrite shr_record_of_loc_m in *.
      split; [lia|]. split; [lia|].
      assert (m2 <= bracket_top m l) as HmU2.
      { destruct l as [|c]; [|simpl; lia].
        simpl. rewrite Hm2' by reflexivity. lia. }
      nia.
    - rewrite shr_record_of_loc_m in *.
      split; [lia|]. split; [lia|].
      pose proof (pow2_gt0 (e1 - e) ltac:(lia)) as Hp1.
      rewrite (pow2_chain b e e1) by lia.
      destruct (shr_r mrs1) eqn:Hr.
      + specialize (Hs2 eq_refl).
        assert (0 < m) as Hmpos by nia.
        (* the bound is a multiple of the unit of the shifted mantissa *)
        assert (Zdigits2 m + e <= Zdigits2 mB + eB) as Hdig.
        { pose proof (Zdigits2_bounds m Hmpos) as [Hlo _].
          pose proof (Zdigits2_bounds mB HmB) as [_ Hhi].
          pose proof (Zdigits2_pos m Hmpos). pose proof (Zdigits2_pos mB HmB).
          assert (2 ^ (Zdigits2 m - 1) * 2 ^ (e - b)
                  < 2 ^ Zdigits2 mB * 2 ^ (eB - b)) as Hpow.
          { pose proof (pow2_gt0 (eB - b) ltac:(lia)). nia. }
          rewrite <- !pow2_split in Hpow by lia.
          apply Z.pow_lt_mono_r_iff in Hpow; lia. }
        assert (e1 <= eB) as He1B.
        { rewrite Hfe. etransitivity; [apply fexp_mono; exact Hdig | exact Hcan]. }
        rewrite (pow2_chain b e1 eB) by lia.
        rewrite (pow2_chain b e e1) by lia.
        pose proof (pow2_gt0 (eB - e1) ltac:(lia)) as HpB.
        assert (shr_m mrs1 * (2 ^ (e1 - e) * 2 ^ (e - b))
                < mB * 2 ^ (eB - e1) * (2 ^ (e1 - e) * 2 ^ (e - b))) as Hlt'.
        { rewrite (pow2_chain b e1 eB) in Htop by lia.
          rewrite (pow2_chain b e e1) in Htop by lia. nia. }
        assert (shr_m mrs1 < mB * 2 ^ (eB - e1)) as Hk by nia.
        nia.
      + rewrite Hm2' by reflexivity. nia. }
  (* the second shift only lowers the value *)
  assert (e1 <= e3 /\ 0 <= shr_m mrs3 /\
          shr_m mrs3 * 2 ^ (e3 - b) <= mB * 2 ^ (eB - b))
    as (He3 & Hm3 & HB).
  { destruct (shr_fexp_cases m2 e1 loc_Exact mrs3 e3 Hm2pos E3)
      as [[-> ->] | (Hlt & Hfe & (Hs0 & [Hs1 Hs1'] & Hs2))].
    - simpl. split; [lia|]. split; [lia|]. exact HA.
    - simpl in Hs1. split; [lia|]. split; [lia|].
      rewrite (pow2_chain b e1 e3) by lia.
      pose proof (pow2_gt0 (e1 - b) ltac:(lia)). nia. }
  destruct (shr_m mrs3) as [|p|p] eqn:Ep; [exact I | | lia].
  assert (e3 <= emax - prec) as Hfin.
  { pose proof (Zdigits2_bounds mB HmB) as [_ Hhi].
    pose proof (Zdigits2_pos mB HmB).
    pose proof (pow2_gt0 (e3 - b) ltac:(lia)).
    pose proof (pow2_gt0 (eB - b) ltac:(lia)).
    assert (2 ^ (e3 - b) < 2 ^ Zdigits2 mB * 2 ^ (eB - b)) as Hpow by nia.
    rewrite <- pow2_split in Hpow by lia.
    apply Z.pow_lt_mono_r_iff in Hpow; lia. }
  apply Z.leb_le in Hfin. rewrite Hfin.
  simpl. apply (dy_le_base (Zpos p) e3 mB eB b); [lia | lia | exact HB].
Qed.

Lemma round_aux_at_most_one :
  forall m e l b,
    0 <= m -> b <= e -> b <= -52 ->
    bracket_top m l * 2 ^ (e - b) <= 2 ^ (- b) ->
    at_most (binary_round_aux prec emax false m e l) one_m (-52).
Proof.
  intros m e l b Hm Hbe Hb Htop.
  apply round_aux_at_most with (b := b).
  - exact Hm.
  - reflexivity.
  - vm_compute. discriminate.
  - vm_compute. discriminate.
  - exact Hbe.
  - exact Hb.
  - unfold one_m. change 4503599627370496 with (2 ^ 52).
    rewrite <- pow2_split by lia.
    replace (52 + (-52 - b)) with (- b) by lia. exact Htop.
Qed.

Lemma round_aux_at_most_hundred :
  forall m e l b,
    0 <= m -> b <= e -> b <= -46 ->
    bracket_top m l * 2 ^ (e - b) <= 100 * 2 ^ (- b) ->
    at_most (binary_round_aux prec emax false m e l) hundred_m (-46).
Proof.
  intros m e l b Hm Hbe Hb Htop.
  apply round_aux_at_most with (b := b).
  - exact Hm.
  - reflexivity.
  - vm_compute. discriminate.
  - vm_compute. discriminate.
  - exact Hbe.
  - exact Hb.
  - unfold hundred_m. change 7036874417766400 with (100 * 2 ^ 46).
    rewrite <- Z.mul_assoc, <- pow2_split by lia.
    replace (46 + (-46 - b)) with (- b) by lia. exact Htop.
Qed.

(** *** Aligning to the left, and integers *)

Lemma iter_xO_pow :
  forall d m, Zpos (Pos.iter xO m d) = Zpos m * 2 ^ Zpos d.
Proof.
  intros d m. induction d as [|d IH] using Pos.peano_ind.
  - simpl. lia.
  - rewrite Pos.iter_succ, Pos2Z.inj_xO, IH, Pos2Z.inj_succ.
    rewrite Z.pow_succ_r by lia. lia.
Qed.

Lemma shl_align_spec :
  forall mx ex ex' mz ez,
    shl_align mx ex ex' = (mz, ez) ->
    ez <= ex /\ Zpos mz = Zpos mx * 2 ^ (ex - ez) /\
    (ex' <= ex -> ez = ex').
Proof.
  intros mx ex ex' mz ez H. unfold shl_align in H.
  destruct (ex' - ex) as [|d|d] eqn:E; inversion H; subst; clear H.
  - rewrite Z.sub_diag. simpl. split; [lia|]. split; lia.
  - rewrite Z.sub_diag. simpl. split; [lia|]. split; lia.
  - split; [lia|]. split; [|lia].
    rewrite iter_xO_pow. f_equal. f_equal. lia.
Qed.

(** A mantissa that already sits at the exponent of the format is kept. *)
Lemma round_aux_canonical :
  forall s m e,
    fexp prec emax (Zdigits2 (Zpos m) + e) = e ->
    e <= emax - prec ->
    binary_round_aux prec emax s (Zpos m) e loc_Exact = S754_finite s m e.
Proof.
  intros s m e Hcan Hmax. unfold binary_round_aux.
  assert (shr_fexp prec emax (Zpos m) e loc_Exact
          = (Build_shr_record (Zpos m) false false, e)) as E.
  { unfold shr_fexp. rewrite Hcan, Z.sub_diag. reflexivity. }
  rewrite E. cbn [shr_m loc_of_shr_record round_nearest_even].
  rewrite E. cbn [shr_m].
  apply Z.leb_le in Hmax. rewrite Hmax. reflexivity.
Qed.

(** An integer below [2^53] converts exactly. *)
Lemma ofZ_exact :
  forall z,
    0 < z < 2 ^ 53 ->
    exists m e,
      ofZ z = S754_finite false m e /\ e <= 0 /\ Zpos m = z * 2 ^ (- e).
Proof.
  intros [|p|p] [Hlo Hhi]; try lia.
  unfold ofZ, binary_normalize, binary_round.
  destruct (shl_align p 0 (fexp prec emax (Zpos (digits2_pos p) + 0)))
    as [mz ez] eqn:E.
  pose proof (Zdigits2_le_of_lt_pow (Zpos p) 53 Hlo Hhi) as Hd.
  pose proof (Zdigits2_pos (Zpos p) Hlo) as Hd0.
  change (Zdigits2 (Zpos p)) with (Zpos (digits2_pos p)) in Hd, Hd0.
  assert (fexp prec emax (Zpos (digits2_pos p) + 0) = Zpos (digits2_pos p) - 53)
    as Hf by (unfold fexp, emin, prec, emax; lia).
  rewrite Hf in E.
  destruct (shl_align_spec _ _ _ _ _ E) as (Hez & Hmz & Hez').
  specialize (Hez' ltac:(lia)).
  exists mz, ez. split; [|split; [lia|]].
  - apply round_aux_canonical; [|unfold emax, prec; lia].
    rewrite Hmz. rewrite Zdigits2_shift by lia.
    change (Zdigits2 (Zpos p)) with (Zpos (digits2_pos p)).
    unfold fexp, emin, prec, emax. lia.
  - rewrite Hmz. f_equal.
Qed.

Lemma ofZ_magnitude :
  forall z m e,
    0 < z -> e <= 0 -> Zpos m = z * 2 ^ (- e) ->
    Zdigits2 (Zpos m) + e = Zdigits2 z.
Proof.
  intros z m e Hz He Hm. rewrite Hm, Zdigits2_shift by lia. lia.
Qed.

Lemma ofZ_one : ofZ 1 = S754_finite false 4503599627370496 (-52).
Proof. reflexivity. Qed.

Lemma ofZ_hundred : ofZ 100 = S754_finite false 7036874417766400 (-46).
Proof. reflexivity. Qed.

(** *** The three operations of the CPU formula *)

Lemma bracket_top_new_location :
  forall n r q,
    bracket_top q (new_location n r) = if r =? 0 then q else q + 1.
Proof.
  intros n r q. unfold new_location, new_location_even, new_location_odd.
  destruct (Z.even n); destruct (r =? 0); reflexivity.
Qed.

(** A quotient of positive numbers whose numerator is the smaller is at most
    one. *)
Lemma fdiv_at_most_one :
  forall mI eI mT eT,
    dy_le (Zpos mI) eI (Zpos mT) eT ->
    at_most (fdiv (S754_finite false mI eI) (S754_finite false mT eT))
            one_m (-52).
Proof.
  intros mI eI mT eT Hle.
  unfold fdiv, SFdiv, SFdiv_core_binary.
  set (d1 := Zdigits2 (Zpos mI)). set (d2 := Zdigits2 (Zpos mT)).
  set (e' := Z.min (fexp prec emax (d1 + eI - (d2 + eT))) (eI - eT)).
  set (s := eI - eT - e').
  assert (0 <= s) as Hs by (subst s e'; lia).
  set (m' := match s with
             | 0 => Zpos mI
             | Zpos _ => Z.shiftl (Zpos mI) s
             | Zneg _ => 0
             end).
  assert (m' = Zpos mI * 2 ^ s) as Hm'.
  { subst m'. destruct s as [|k|k] eqn:Es; try lia.
    rewrite Z.shiftl_mul_pow2 by lia. reflexivity. }
  pose proof (Z_div_mod m' (Zpos mT) ltac:(lia)) as Hdiv.
  destruct (Z.div_eucl m' (Zpos mT)) as [q r].
  destruct Hdiv as [Hqr Hr].
  cbn [xorb].
  (* the magnitudes give a negative exponent *)
  set (c := Z.min eI eT).
  assert (c <= eI /\ c <= eT) as [Hc1 Hc2] by (unfold c; lia).
  apply (proj1 (dy_le_base _ _ _ _ c Hc1 Hc2)) in Hle.
  assert (d1 + eI <= d2 + eT) as Hmag.
  { pose proof (Zdigits2_bounds (Zpos mI) ltac:(lia)) as [Hlo _].
    pose proof (Zdigits2_bounds (Zpos mT) ltac:(lia)) as [_ Hhi].
    fold d1 in Hlo. fold d2 in Hhi.
    assert (0 < d1) by (subst d1; simpl; lia).
    assert (0 < d2) by (subst d2; simpl; lia).
    pose proof (pow2_gt0 (eI - c) ltac:(subst c; lia)).
    pose proof (pow2_gt0 (eT - c) ltac:(subst c; lia)).
    assert (2 ^ (d1 - 1) * 2 ^ (eI - c) < 2 ^ d2 * 2 ^ (eT - c)) as Hpow by nia.
    rewrite <- !pow2_split in Hpow by (subst c; lia).
    apply Z.pow_lt_mono_r_iff in Hpow; subst c; lia. }
  assert (e' <= -53) as He'.
  { subst e'. unfold fexp, emin, prec, emax. lia. }
  (* the quotient is at most [2^(-e')] *)
  assert (m' <= Zpos mT * 2 ^ (- e')) as Hq.
  { rewrite Hm'.
    pose proof (pow2_gt0 (eT - c) ltac:(subst c; lia)) as Hp.
    apply Z.mul_le_mono_pos_r with (p := 2 ^ (eT - c)); [exact Hp|].
    rewrite <- !Z.mul_assoc, <- !pow2_split by (subst c; lia).
    replace (s + (eT - c)) with ((eI - c) + (- e')) by (subst s; lia).
    replace (- e' + (eT - c)) with ((eT - c) + (- e')) by lia.
    rewrite !pow2_split by (subst c; lia).
    pose proof (pow2_gt0 (- e') ltac:(lia)). nia. }
  pose proof (pow2_gt0 (- e') ltac:(lia)) as Hpe.
  assert (0 <= q) as Hq0 by nia.
  apply round_aux_at_most_one with (b := e').
  - exact Hq0.
  - lia.
  - lia.
  - rewrite bracket_top_new_location, Z.sub_diag, Z.mul_1_r.
    destruct (Z.eqb_spec r 0) as [Hr0 | Hr0]; nia.
Qed.

(** One minus a number between zero and one lies between zero and one. *)
Lemma fsub_one_at_most :
  forall q,
    at_most q one_m (-52) ->
    at_most (fsub (ofZ 1) q) one_m (-52).
Proof.
  intros q Hq. rewrite ofZ_one.
  destruct q as [s | s | | [|] mq eq]; simpl in Hq; try contradiction.
  - unfold fsub, SFsub, at_most, one_m.
    apply (dy_le_base _ _ _ _ (-52)); lia.
  - unfold fsub, SFsub. cbn [cond_Zopp].
    set (ez := Z.min (-52) eq).
    destruct (shl_align 4503599627370496 (-52) ez) as [a1 x1] eqn:E1.
    destruct (shl_align mq eq ez) as [a2 x2] eqn:E2.
    destruct (shl_align_spec _ _ _ _ _ E1) as (_ & Ha1 & Hx1).
    destruct (shl_align_spec _ _ _ _ _ E2) as (_ & Ha2 & Hx2).
    specialize (Hx1 ltac:(subst ez; lia)).
    specialize (Hx2 ltac:(subst ez; lia)). subst x1 x2.
    cbn [fst].
    assert (ez <= eq /\ ez <= -52) as [Hz1 Hz2] by (unfold ez; lia).
    apply (proj1 (dy_le_base _ _ _ _ ez Hz1 Hz2)) in Hq.
    unfold one_m in Hq. rewrite <- Ha1, <- Ha2 in Hq.
    unfold binary_normalize.
    destruct (Zpos a1 - Zpos a2) as [|d|d] eqn:Ed; [exact I | | lia].
    unfold binary_round.
    destruct (shl_align d ez (fexp prec emax (Zpos (digits2_pos d) + ez)))
      as [mz ez2] eqn:E3.
    destruct (shl_align_spec _ _ _ _ _ E3) as (Hez2 & Hmz & _).
    apply round_aux_at_most_one with (b := ez2).
    + lia.
    + lia.
    + lia.
    + cbn [bracket_top]. rewrite Z.sub_diag, Z.mul_1_r, Hmz.
      assert (Zpos d <= Zpos a1) as Hd by lia.
      rewrite Ha1 in Hd. change 4503599627370496 with (2 ^ 52) in Hd.
      rewrite <- pow2_split in Hd by lia.
      replace (52 + (-52 - ez)) with (- ez) in Hd by lia.
      replace (- ez2) with ((- ez) + (ez - ez2)) by lia.
      rewrite pow2_split by lia.
      pose proof (pow2_gt0 (ez - ez2) ltac:(lia)). nia.
Qed.

(** A hundred times a number between zero and one is at most a hundred. *)
Lemma fmul_hundred_at_most :
  forall y,
    at_most y one_m (-52) ->
    at_most (fmul y (ofZ 100)) hundred_m (-46).
Proof.
  intros y Hy. rewrite ofZ_hundred.
  destruct y as [s | s | | [|] my ey]; simpl in Hy; try contradiction.
  - exact I.
  - unfold fmul, SFmul. cbn [xorb].
    set (c := Z.min ey (-52)).
    assert (c <= ey /\ c <= -52) as [Hc1 Hc2] by (unfold c; lia).
    apply (proj1 (dy_le_base _ _ _ _ c Hc1 Hc2)) in Hy.
    unfold one_m in Hy. change 4503599627370496 with (2 ^ 52) in Hy.
    rewrite <- pow2_split in Hy by lia.
    replace (52 + (-52 - c)) with (- c) in Hy by lia.
    apply round_aux_at_most with (b := c + -46).
    + lia.
    + reflexivity.
    + vm_compute. discriminate.
    + vm_compute. discriminate.
    + lia.
    + lia.
    + cbn [bracket_top].
      replace (ey + -46 - (c + -46)) with (ey - c) by lia.
      replace (-46 - (c + -46)) with (- c) by lia.
      rewrite Pos2Z.inj_mul. unfold hundred_m. nia.
Qed.

(** A number between zero and a hundred prints as a count of tenths between
    0 and 1000. *)
Lemma toFixed_1_at_most_hundred :
  forall x,
    at_most x hundred_m (-46) ->
    exists n, 0 <= n <= 1000 /\ toFixed 1 x = fixed_digits 1 n.
Proof.
  intros x Hx.
  destruct x as [s | s | | [|] m e]; simpl in Hx; try contradiction.
  - exists 0. split; [lia | reflexivity].
  - unfold toFixed. cbn [app].
    assert (exists k, 0 <= k /\ - k <= e /\ Zpos m * 2 ^ (e + k) <= 100 * 2 ^ k)
      as (k & Hk & Hke & Hle).
    { exists (Z.max 0 (- e)). split; [lia|]. split; [lia|].
      assert (-46 - Z.max 0 (- e) <= e /\ -46 - Z.max 0 (- e) <= -46)
        as [Hb1 Hb2] by lia.
      apply (proj1 (dy_le_base _ _ _ _ _ Hb1 Hb2)) in Hx.
      unfold hundred_m in Hx. change 7036874417766400 with (100 * 2 ^ 46) in Hx.
      replace (e - (-46 - Z.max 0 (- e))) with ((e + Z.max 0 (- e)) + 46) in Hx by lia.
      replace (-46 - (-46 - Z.max 0 (- e))) with (Z.max 0 (- e)) in Hx by lia.
      rewrite pow2_split in Hx by lia.
      pose proof (pow2_gt0 46 ltac:(lia)). nia. }
    pose proof (pow2_gt0 k Hk) as Hpk.
    pose proof (pow2_gt0 (e + k) ltac:(lia)) as Hpek.
    assert (at_least_1e21 m e = false) as Hbig.
    { unfold at_least_1e21. destruct e as [|pe|pe].
      - apply Z.leb_gt. rewrite Z.add_0_l in Hle. simpl. nia.
      - apply Z.leb_gt. rewrite pow2_split in Hle by lia.
        pose proof (pow2_gt0 (Zpos pe) ltac:(lia)).
        assert (Zpos m * 2 ^ Zpos pe <= 100) by nia.
        change (10 ^ 21) with 1000000000000000000000. lia.
      - apply Z.leb_gt.
        pose proof (pow2_gt0 (Zpos pe) ltac:(lia)) as Hpp.
        assert (Zpos m <= 100 * 2 ^ Zpos pe) as Hm.
        { assert (2 ^ k = 2 ^ (Zneg pe + k) * 2 ^ Zpos pe) as Ek
            by (rewrite <- pow2_split by lia; f_equal; lia).
          rewrite Ek in Hle.
          apply Z.mul_le_mono_pos_l with (p := 2 ^ (Zneg pe + k)); lia. }
        change (10 ^ 21) with 1000000000000000000000. nia. }
    rewrite Hbig.
    exists (nearest_scaled 1 m e). split; [|reflexivity].
    unfold nearest_scaled. change (10 ^ Z.of_nat 1) with 10.
    destruct e as [|pe|pe].
    + rewrite Z.add_0_l in Hle. simpl. nia.
    + rewrite pow2_split in Hle by lia.
      pose proof (pow2_gt0 (Zpos pe) ltac:(lia)). nia.
    + pose proof (pow2_gt0 (Zpos pe) ltac:(lia)) as Hpp.
      assert (Zpos m <= 100 * 2 ^ Zpos pe) as Hm.
      { assert (2 ^ k = 2 ^ (Zneg pe + k) * 2 ^ Zpos pe) as Ek
          by (rewrite <- pow2_split by lia; f_equal; lia).
        rewrite Ek in Hle.
        apply Z.mul_le_mono_pos_l with (p := 2 ^ (Zneg pe + k)); lia. }
      rewrite Z.pow_add_r by lia. rewrite Z.pow_1_r.
      split.
      * apply Z.div_pos; lia.
      * assert ((2 * (Zpos m * 10) + 2 ^ Zpos pe) / (2 ^ Zpos pe * 2) < 1001);
          [|lia].
        apply Z.div_lt_upper_bound; lia.
Qed.

Lemma cpu_percent_at_most_hundred :
  forall i t,
    0 <= i <= t -> 0 < t < 2 ^ 53 ->
    at_most (cpu_percent i t) hundred_m (-46).
Proof.
  intros i t Hi Ht. unfold cpu_percent.
  apply fmul_hundred_at_most, fsub_one_at_most.
  destruct (ofZ_exact t Ht) as (mT & eT & ET & HeT & HmT).
  rewrite ET.
  destruct (Z.eq_dec i 0) as [-> | Hne].
  - exact I.
  - destruct (ofZ_exact i ltac:(lia)) as (mI & eI & EI & HeI & HmI).
    rewrite EI. apply fdiv_at_most_one.
    apply (dy_le_base _ _ _ _ (eI + eT)); [lia | lia |].
    rewrite HmI, HmT.
    replace (eI - (eI + eT)) with (- eT) by lia.
    replace (eT - (eI + eT)) with (- eI) by lia.
    pose proof (pow2_gt0 (- eI) ltac:(lia)).
    pose proof (pow2_gt0 (- eT) ltac:(lia)). nia.
Qed.

(** *** Signs *)

Lemma round_aux_signed :
  forall s m e l,
    0 <= m -> signed s (binary_round_aux prec emax s m e l).
Proof.
  intros s m e l Hm. unfold binary_round_aux.
  destruct (shr_fexp prec emax m e l) as [mrs1 e1] eqn:E1.
  set (m2 := round_nearest_even (shr_m mrs1) (loc_of_shr_record mrs1)).
  destruct (shr_fexp prec emax m2 e1 loc_Exact) as [mrs3 e3] eqn:E3.
  pose proof (round_nearest_even_bounds mrs1) as [Hm2 _]. fold m2 in Hm2.
  assert (0 <= shr_m mrs1) as H1.
  { destruct (shr_fexp_cases m e l mrs1 e1 Hm E1) as [[_ ->] | (_ & _ & (H & _))].
    - rewrite shr_record_of_loc_m. exact Hm.
    - exact H. }
  assert (0 <= shr_m mrs3) as H3.
  { destruct (shr_fexp_cases m2 e1 loc_Exact mrs3 e3 ltac:(lia) E3)
      as [[_ ->] | (_ & _ & (H & _))].
    - simpl. lia.
    - exact H. }
  destruct (shr_m mrs3) as [|p|p]; [reflexivity | | lia].
  destruct (e3 <=? emax - prec); reflexivity.
Qed.

Lemma ofZ_signed_pos : forall z, 0 < z -> signed false (ofZ z).
Proof.
  intros [|p|p] H; try lia.
  unfold ofZ, binary_normalize, binary_round.
  destruct (shl_align p 0 _) as [mz ez].
  apply round_aux_signed. lia.
Qed.

Lemma ofZ_signed_neg : forall z, z < 0 -> signed true (ofZ z).
Proof.
  intros [|p|p] H; try lia.
  unfold ofZ, binary_normalize, binary_round.
  destruct (shl_align p 0 _) as [mz ez].
  apply round_aux_signed. lia.
Qed.

Lemma ofZ_nonneg : forall z, 0 <= z -> nonneg (ofZ z).
Proof.
  intros z H. destruct (Z.eq_dec z 0) as [-> | Hne]; [reflexivity|].
  pose proof (ofZ_signed_pos z ltac:(lia)) as Hs.
  destruct (ofZ z); simpl in *; auto.
Qed.

Lemma fdiv_finite_signed :
  forall sx mx ex sy my ey,
    signed (xorb sx sy)
           (fdiv (S754_finite sx mx ex) (S754_finite sy my ey)).
Proof.
  intros sx mx ex sy my ey. unfold fdiv, SFdiv, SFdiv_core_binary.
  set (m' := match ex - ey - _ with
             | 0 => Zpos mx
             | Zpos _ => Z.shiftl (Zpos mx) _
             | Zneg _ => 0
             end).
  assert (0 <= m') as Hm'.
  { subst m'. destruct (ex - ey - _) as [|k|k]; try lia.
    apply Z.shiftl_nonneg. lia. }
  pose proof (Z_div_mod m' (Zpos my) ltac:(lia)) as Hdiv.
  destruct (Z.div_eucl m' (Zpos my)) as [q r].
  destruct Hdiv as [Hqr Hr].
  apply round_aux_signed. nia.
Qed.

Lemma fdiv_nonneg :
  forall x y, nonneg x -> nonneg y -> nonneg (fdiv x y).
Proof.
  intros x y Hx Hy.
  destruct x as [sx | sx | | sx mx ex]; destruct y as [sy | sy | | sy my ey];
    simpl in Hx, Hy; subst; try exact I; try reflexivity.
  pose proof (fdiv_finite_signed false mx ex false my ey) as H.
  destruct (fdiv _ _); simpl in *; auto.
Qed.

Lemma fmul_nonneg :
  forall x y, nonneg x -> nonneg y -> nonneg (fmul x y).
Proof.
  intros x y Hx Hy.
  destruct x as [sx | sx | | sx mx ex]; destruct y as [sy | sy | | sy my ey];
    simpl in Hx, Hy; subst; try exact I; try reflexivity.
  unfold fmul, SFmul. cbn [xorb].
  pose proof (round_aux_signed false (Zpos (mx * my)) (ex + ey) loc_Exact
                ltac:(lia)) as H.
  destruct (binary_round_aux _ _ _ _ _ _); simpl in *; auto.
Qed.

Lemma flt_nonneg_zero : forall x, nonneg x -> flt x (ofZ 0) = false.
Proof.
  intros [s | s | | s m e] H; simpl in H; subst; reflexivity.
Qed.

Lemma flt_zero_nonneg : forall y, flt (ofZ 0) y = true -> nonneg y.
Proof.
  intros [s | [|] | | [|] m e] H; simpl; try reflexivity; discriminate.
Qed.

Lemma fle_zero_of_flt : forall y, fle y (ofZ 0) = true -> flt (ofZ 0) y = false.
Proof.
  intros [s | [|] | | [|] m e] H; try reflexivity; discriminate.
Qed.

(** A quotient of an integer that is not positive by 1000 is not positive. *)
Lemma fle_nonpos_quotient :
  forall d, d <= 0 -> fle (fdiv (ofZ d) (ofZ 1000)) (ofZ 0) = true.
Proof.
  intros d Hd.
  destruct (Z.eq_dec d 0) as [-> | Hne]; [reflexivity|].
  pose proof (ofZ_signed_neg d ltac:(lia)) as Hs.
  change (ofZ 1000) with (S754_finite false 8796093022208000 (-43)).
  destruct (ofZ d) as [s | s | | s m e]; simpl in Hs; subst; try contradiction;
    try reflexivity.
  pose proof (fdiv_finite_signed true m e false 8796093022208000 (-43)) as H.
  destruct (fdiv _ _) as [s' | s' | | s' m' e']; simpl in H; subst;
    try contradiction; reflexivity.
Qed.

Lemma toFixed_no_minus :
  forall f x, nonneg x -> ~ In MINUS (toFixed f x).
Proof.
  intros f x Hx Hin. unfold toFixed in Hin.
  destruct x as [s | s | | s m e]; simpl in Hx; subst.
  - apply fixed_digits_units in Hin. unfold MINUS in Hin. lia.
  - not_in_literal Hin.
  - not_in_literal Hin.
  - cbn [app] in Hin. destruct (at_least_1e21 m e).
    + apply exponent_digits_units in Hin. unfold MINUS in Hin. lia.
    + apply fixed_digits_units in Hin. unfold MINUS in Hin. lia.
Qed.

(** *** Quotients that do not vanish *)

(** A mantissa above the smallest magnitude of the format keeps a bit when
    [shr_fexp] shifts it. *)
Lemma shr_fexp_positive :
  forall m e l mrs e1,
    0 < m ->
    emin prec emax < Zdigits2 m + e ->
    shr_fexp prec emax m e l = (mrs, e1) ->
    0 < shr_m mrs /\
    (forall m2, shr_m mrs <= m2 -> emin prec emax < Zdigits2 m2 + e1).
Proof.
  intros m e l mrs e1 Hm Hmag E.
  pose proof (Zdigits2_bounds m Hm) as [Hlo _].
  pose proof (Zdigits2_pos m Hm) as Hd.
  destruct (shr_fexp_cases m e l mrs e1 ltac:(lia) E)
    as [[-> ->] | (Hlt & Hfe & (Hs0 & [Hs1 Hs1'] & _))].
  - rewrite shr_record_of_loc_m. split; [exact Hm|].
    intros m2 Hm2. pose proof (Zdigits2_mono m m2 Hm Hm2). lia.
  - rewrite shr_record_of_loc_m in *.
    assert (e1 - e <= Zdigits2 m - 1) as Hn.
    { rewrite Hfe. unfold fexp, emin, prec, emax in *. lia. }
    assert (2 ^ (e1 - e) <= 2 ^ (Zdigits2 m - 1)) as Hpow
      by (apply Z.pow_le_mono_r; lia).
    pose proof (pow2_gt0 (e1 - e) ltac:(lia)) as Hp.
    assert (0 < shr_m mrs) as Hpos by nia.
    split; [exact Hpos|].
    intros m2 Hm2. pose proof (Zdigits2_pos m2 ltac:(lia)).
    assert (emin prec emax <= e1) by (rewrite Hfe; unfold fexp; lia).
    lia.
Qed.

Lemma round_aux_positive :
  forall s m e l,
    0 < m ->
    emin prec emax < Zdigits2 m + e ->
    (exists m3 e3, binary_round_aux prec emax s m e l = S754_finite s m3 e3) \/
    binary_round_aux prec emax s m e l = S754_infinity s.
Proof.
  intros s m e l Hm Hmag. unfold binary_round_aux.
  destruct (shr_fexp prec emax m e l) as [mrs1 e1] eqn:E1.
  set (m2 := round_nearest_even (shr_m mrs1) (loc_of_shr_record mrs1)).
  destruct (shr_fexp prec emax m2 e1 loc_Exact) as [mrs3 e3] eqn:E3.
  pose proof (round_nearest_even_bounds mrs1) as [Hm2 _]. fold m2 in Hm2.
  destruct (shr_fexp_positive m e l mrs1 e1 Hm Hmag E1) as [H1 Hmag1].
  destruct (shr_fexp_positive m2 e1 loc_Exact mrs3 e3 ltac:(lia)
              (Hmag1 m2 ltac:(lia)) E3) as [H3 _].
  destruct (shr_m mrs3) as [|p|p]; try lia.
  destruct (e3 <=? emax - prec); [left; eauto | right; reflexivity].
Qed.

Lemma fdiv_positive :
  forall mI eI mT eT,
    emin prec emax + prec
    <= Zdigits2 (Zpos mI) + eI - (Zdigits2 (Zpos mT) + eT) ->
    (exists m e,
       fdiv (S754_finite false mI eI) (S754_finite false mT eT)
       = S754_finite false m e) \/
    fdiv (S754_finite false mI eI) (S754_finite false mT eT)
    = S754_infinity false.
Proof.
  intros mI eI mT eT HD.
  unfold fdiv, SFdiv, SFdiv_core_binary.
  set (d1 := Zdigits2 (Zpos mI)) in *. set (d2 := Zdigits2 (Zpos mT)) in *.
  set (e' := Z.min (fexp prec emax (d1 + eI - (d2 + eT))) (eI - eT)).
  set (s := eI - eT - e').
  assert (0 <= s) as Hs by (subst s e'; lia).
  assert (d2 - d1 + 53 <= s) as Hs'.
  { subst s e'. unfold fexp, emin, prec, emax in *. lia. }
  set (m' := match s with
             | 0 => Zpos mI
             | Zpos _ => Z.shiftl (Zpos mI) s
             | Zneg _ => 0
             end).
  assert (m' = Zpos mI * 2 ^ s) as Hm'.
  { subst m'. destruct s as [|k|k] eqn:Es; try lia.
    rewrite Z.shiftl_mul_pow2 by lia. reflexivity. }
  pose proof (Z_div_mod m' (Zpos mT) ltac:(lia)) as Hdiv.
  destruct (Z.div_eucl m' (Zpos mT)) as [q r].
  destruct Hdiv as [Hqr Hr].
  cbn [xorb].
  pose proof (Zdigits2_bounds (Zpos mI) ltac:(lia)) as [Hlo _].
  pose proof (Zdigits2_bounds (Zpos mT) ltac:(lia)) as [_ Hhi].
  fold d1 in Hlo. fold d2 in Hhi.
  assert (0 < d1) by (subst d1; simpl; lia).
  assert (0 < d2) by (subst d2; simpl; lia).
  set (x := d1 - 1 + s - d2).
  assert (52 <= x) as Hx by (subst x; lia).
  assert (2 ^ x <= q) as Hq.
  { assert (2 ^ x * 2 ^ d2 <= m') as Hbig.
    { rewrite <- pow2_split by lia.
      replace (x + d2) with ((d1 - 1) + s) by (subst x; lia).
      rewrite pow2_split by lia. rewrite Hm'.
      pose proof (pow2_gt0 s Hs). nia. }
    pose proof (pow2_gt0 x ltac:(lia)).
    destruct (Z_lt_le_dec q (2 ^ x)) as [Hlt | Hge]; [|exact Hge].
    exfalso. nia. }
  pose proof (pow2_gt0 x ltac:(lia)) as Hpx.
  pose proof (Zdigits2_gt_of_ge_pow q x ltac:(lia) Hq) as Hdq.
  apply round_aux_positive.
  - lia.
  - subst x s. unfold emin, prec, emax in *. lia.
Qed.

(** A positive whole number of milliseconds is a positive number of
    seconds. *)
Lemma flt_pos_quotient :
  forall d,
    0 < d < 2 ^ 53 -> flt (ofZ 0) (fdiv (ofZ d) (ofZ 1000)) = true.
Proof.
  intros d Hd.
  destruct (ofZ_exact d Hd) as (m & e & E & He & Hm).
  rewrite E.
  change (ofZ 1000) with (S754_finite false 8796093022208000 (-43)).
  pose proof (ofZ_magnitude d m e ltac:(lia) He Hm) as Hmag.
  pose proof (Zdigits2_pos d ltac:(lia)) as Hdd.
  destruct (fdiv_positive m e 8796093022208000 (-43)) as [(m3 & e3 & R) | R].
  - rewrite Hmag. change (Zdigits2 (Zpos 8796093022208000)) with 53.
    unfold emin, prec, emax. lia.
  - rewrite R. reflexivity.
  - rewrite R. reflexivity.
Qed.

(** ** The disk probe *)

Lemma wmic_rows_none_accepted :
  forall rows,
    forallb (fun line => negb (wmic_row_accepted line)) rows = true ->
    wmic_rows rows = js "?".
Proof.
  induction rows as [|line rows IH]; intros H.
  - reflexivity.
  - cbn [forallb] in H. apply andb_true_iff in H. destruct H as [H1 H2].
    unfold wmic_row_accepted in H1. apply negb_true_iff in H1.
    cbn [wmic_rows]. cbv zeta. rewrite H1. now apply IH.
Qed.

Lemma getDiskUsage_unparseable :
  forall platform stdout,
    disk_unparseable platform stdout ->
    getDiskUsage platform (ExecOutput stdout) = js "?".
Proof.
  intros platform stdout H. unfold getDiskUsage, disk_unparseable in *.
  destruct (JsString.eqb platform (js "win32")).
  - simpl. now apply wmic_rows_none_accepted.
  - unfold getDiskUsage_posix. fold (posix_lines stdout).
    destruct (2 <=? length (posix_lines stdout))%nat eqn:E2; [|reflexivity].
    fold (posix_columns stdout).
    destruct (3 <=? length (posix_columns stdout))%nat eqn:E3; [|reflexivity].
    apply Nat.leb_le in E2, E3. destruct H; lia.
Qed.

Lemma getDiskUsage_error :
  forall platform, getDiskUsage platform ExecError = js "?".
Proof.
  intros platform. unfold getDiskUsage.
  destruct (JsString.eqb platform (js "win32")); reflexivity.
Qed.

(** ** The speed test is single-flight *)

Lemma single_flight_initial : single_flight world_initial.
Proof. right. split; reflexivity. Qed.

Lemma update_nth_length :
  forall A (f : A -> A) l i, length (update_nth i f l) = length l.
Proof.
  induction l as [|x l IH]; intros [|i]; simpl; auto.
Qed.

Lemma settle_single_flight :
  forall id s w, single_flight w -> single_flight (runSpeedTest_settle id s w).
Proof.
  intros id s w [[Hr Hl] | [Hr Hl]]; unfold runSpeedTest_settle.
  - destruct (flights w) as [|f [|g fs]] eqn:E; simpl in Hl; try discriminate.
    destruct id as [|id]; simpl.
    + destruct s; right; split; reflexivity.
    + destruct id; simpl; left; rewrite E; auto.
  - rewrite Hl. destruct id; simpl; right; auto.
Qed.

Lemma step_single_flight :
  forall w ev, single_flight w -> single_flight (step w ev).
Proof.
  intros w ev H. destruct ev as [now | id code | id len | id now | id m | id m]; simpl.
  - unfold runSpeedTest_start.
    destruct H as [[Hr Hl] | [Hr Hl]]; unfold running in Hr; rewrite Hr.
    + left. auto.
    + left. unfold running. simpl. rewrite Hl. auto.
  - destruct (code =? 200)%N; [assumption | now apply settle_single_flight].
  - destruct H as [[Hr Hl] | [Hr Hl]].
    + left. unfold running in *. simpl. rewrite update_nth_length. auto.
    + right. unfold running in *. simpl. rewrite Hl. destruct id; auto.
  - now apply settle_single_flight.
  - now apply settle_single_flight.
  - now apply settle_single_flight.
Qed.

Lemma run_single_flight :
  forall evs w, single_flight w -> single_flight (run w evs).
Proof.
  induction evs as [|ev evs IH]; intros w H; simpl.
  - assumption.
  - apply IH. now apply step_single_flight.
Qed.

Lemma failure_settles :
  forall w ev f,
    flights w = [f] -> is_failure ev = true ->
    exists message,
      step w ev = runSpeedTest_settle 0 (Rejected message) w.
Proof.
  intros w ev f Hf Hev.
  destruct ev as [now | [|id] code | id len | id now | [|id] m | [|id] m];
    simpl in Hev; try discriminate.
  - simpl. destruct (code =? 200)%N; [discriminate|]. eexists. reflexivity.
  - eexists. reflexivity.
  - eexists. reflexivity.
Qed.

(** * Claims *)

(** ** The CPU load tracker *)

(** C4.  For two samples with the same number of cores, no counter of which
    went down, and whose counters JavaScript counts exactly (none negative,
    their sum below [2^53]): the summed idle delta lies between 0 and the
    summed total delta; if the latter is positive the result is
    [(1 - idle / total) * 100] in binary64, printed with one decimal, and it
    reads [whole.tenth] with a value from 0.0 to 100.0; if it is zero the
    result is ["0.0"]; in both cases [previousCpus] becomes the current
    sample. *)
Theorem cpu_usage_of_monotone_samples :
  forall prev cur,
    length cur = length prev ->
    non_decreasing prev cur ->
    safe_sample prev -> safe_sample cur ->
    let i := idle_delta prev cur in
    let t := total_delta prev cur in
    0 <= i <= t /\
    snd (calculateCpuUsage prev cur) = cur /\
    (0 < t ->
     fst (calculateCpuUsage prev cur)
     = Returned (toFixed 1 (fmul (fsub (ofZ 1) (fdiv (ofZ i) (ofZ t))) (ofZ 100))) /\
     exists whole tenth,
       0 <= whole <= 100 /\ 0 <= tenth <= 9 /\ 10 * whole + tenth <= 1000 /\
       fst (calculateCpuUsage prev cur)
       = Returned (digits10 whole ++ js "." ++ digits10 tenth)) /\
    (t = 0 -> fst (calculateCpuUsage prev cur) = Returned (js "0.0")).
Proof.
  intros prev cur Hlen Hmono [Hprev _] [_ Hcur] i t.
  assert (0 <= i <= t) as Hit.
  { subst i t. unfold idle_delta, total_delta.
    rewrite Hlen, firstn_all. now apply deltas_of_non_decreasing. }
  assert (t < 2 ^ 53) as Hsafe.
  { subst t. unfold total_delta. rewrite Hlen, firstn_all.
    pose proof (sum_total_nonneg prev Hprev). lia. }
  rewrite (calculateCpuUsage_aligned prev cur) by lia.
  fold i t. cbn [fst snd].
  split; [exact Hit|]. split; [reflexivity|]. split.
  - intros Ht. destruct (Z.eqb_spec t 0) as [E | _]; [lia|].
    split; [reflexivity|].
    destruct (toFixed_1_at_most_hundred (cpu_percent i t)) as (n & Hn & En).
    + apply cpu_percent_at_most_hundred; [exact Hit | lia].
    + exists (n / 10), (n mod 10).
      pose proof (Z.div_mod n 10 ltac:(lia)).
      pose proof (Z.mod_pos_bound n 10 ltac:(lia)).
      repeat split; try lia.
      rewrite En. f_equal. now apply fixed_digits_1_decimal.
  - intros Ht. rewrite Ht. reflexivity.
Qed.

Lemma cpu_usage_of_monotone_samples_witness :
  fst (calculateCpuUsage [core 100 0 50 1000 3; core 7 0 0 9 0]
                         [core 150 0 60 1040 3; core 7 0 0 9 0])
  = Returned (js "60.0").
Proof.
  destruct (cpu_usage_of_monotone_samples
              [core 100 0 50 1000 3; core 7 0 0 9 0]
              [core 150 0 60 1040 3; core 7 0 0 9 0]) as (_ & _ & H & _).
  - reflexivity.
  - repeat constructor; simpl; lia.
  - split; [repeat constructor; simpl; lia | vm_compute; reflexivity].
  - split; [repeat constructor; simpl; lia | vm_compute; reflexivity].
  - destruct H as [H _]; [vm_compute; reflexivity|].
    rewrite H. vm_compute. reflexivity.
Defined.







(** C7 at a failing input: one core before, two cores now.  The loop reads
    [previousCpus[1]], which is [undefined], and throws; [previousCpus] keeps
    its old value. *)
Theorem grown_core_count_throws :
  calculateCpuUsage [core 1 0 0 1 0] [core 2 0 0 2 0; core 1 0 0 1 0]
  = (Thrown undefined_times, [core 1 0 0 1 0]).
Proof. reflexivity. Qed.

(** ** The network throughput tracker *)

Lemma traffic_mbps_nonneg :
  forall prev now0 totalBytes, nonneg (traffic_mbps prev now0 totalBytes).
Proof.
  intros prev now0 totalBytes. unfold traffic_mbps.
  destruct (time prev >? 0); [|reflexivity].
  destruct (flt (ofZ 0) (fdiv (ofZ (now0 - time prev)) (ofZ 1000))) eqn:Et;
    [|reflexivity].
  destruct (Z.geb_spec (totalBytes - bytes prev) 0) as [Hb | Hb]; [|reflexivity].
  cbn [andb].
  apply fdiv_nonneg; [|reflexivity].
  apply fmul_nonneg; [|reflexivity].
  apply fdiv_nonneg.
  - apply ofZ_nonneg. lia.
  - now apply flt_zero_nonneg.
Qed.

(** One sample of the tracker, once [totalBytes] is known. *)
Lemma traffic_sample_rate_and_display :
  forall prev now0 totalBytes,
    let timeDiffSec := fdiv (ofZ (now0 - time prev)) (ofZ 1000) in
    let bytesDiff := totalBytes - bytes prev in
    let mbps := traffic_mbps prev now0 totalBytes in
    let display := fst (traffic_sample prev now0 totalBytes) in
    (time prev = 0 \/ fle timeDiffSec (ofZ 0) = true \/ now0 <= time prev \/
     bytesDiff < 0 ->
     mbps = ofZ 0 /\ display = js "0Kbps") /\
    (0 < time prev ->
     flt (ofZ 0) timeDiffSec = true \/ 0 < now0 - time prev < 2 ^ 53 ->
     0 <= bytesDiff ->
     mbps = fdiv (fmul (fdiv (ofZ bytesDiff) timeDiffSec) (ofZ 8))
                 (ofZ 1000000)) /\
    display = (if flt mbps (ofZ 1)
               then toFixed 0 (fmul mbps (ofZ 1000)) ++ js "Kbps"
               else toFixed 1 mbps ++ js "Mbps") /\
    flt mbps (ofZ 0) = false /\
    ~ In MINUS display /\
    snd (traffic_sample prev now0 totalBytes) = mkNet totalBytes now0 /\
    (0 < time prev ->
     fst (traffic_sample prev (time prev + 1000) (bytes prev + 2000000))
     = js "16.0Mbps" /\
     fst (traffic_sample prev (time prev + 1000) (bytes prev + 500))
     = js "4Kbps").
Proof.
  intros prev now0 totalBytes timeDiffSec bytesDiff mbps display.
  split; [|split; [|split; [|split; [|split; [|split]]]]].
  - intros H.
    assert (mbps = ofZ 0) as E.
    { subst mbps. unfold traffic_mbps. fold timeDiffSec bytesDiff.
      destruct (Z.gtb_spec (time prev) 0) as [Ht | Ht]; [|reflexivity].
      destruct H as [H | [H | [H | H]]].
      - lia.
      - rewrite (fle_zero_of_flt _ H). reflexivity.
      - rewrite (fle_zero_of_flt timeDiffSec); [reflexivity|].
        subst timeDiffSec. apply fle_nonpos_quotient. lia.
      - destruct (Z.geb_spec bytesDiff 0) as [Hb | Hb]; [lia|].
        rewrite andb_false_r. reflexivity. }
    split; [exact E|].
    subst display. unfold traffic_sample. cbn [fst]. fold mbps. rewrite E.
    reflexivity.
  - intros Ht Hd Hb.
    assert (flt (ofZ 0) timeDiffSec = true) as Hd'.
    { destruct Hd as [Hd | Hd]; [exact Hd|].
      subst timeDiffSec. now apply flt_pos_quotient. }
    subst mbps. unfold traffic_mbps.
    fold timeDiffSec bytesDiff.
    destruct (Z.gtb_spec (time prev) 0) as [_ | Hn]; [|lia].
    rewrite Hd'.
    destruct (Z.geb_spec bytesDiff 0) as [_ | Hn]; [|lia].
    reflexivity.
  - reflexivity.
  - apply flt_nonneg_zero, traffic_mbps_nonneg.
  - subst display. unfold traffic_sample, format_rate. cbn [fst]. fold mbps.
    pose proof (traffic_mbps_nonneg prev now0 totalBytes) as Hnn. fold mbps in Hnn.
    intros Hin.
    destruct (flt mbps (ofZ 1)); apply in_app_iff in Hin;
      destruct Hin as [Hin | Hin].
    + revert Hin. apply toFixed_no_minus. apply fmul_nonneg; [exact Hnn | reflexivity].
    + not_in_literal Hin.
    + revert Hin. now apply toFixed_no_minus.
    + not_in_literal Hin.
  - reflexivity.
  - intros Ht. unfold traffic_sample, traffic_mbps. cbn [fst].
    destruct (Z.gtb_spec (time prev) 0) as [_ | Hn]; [|lia].
    replace (time prev + 1000 - time prev) with 1000 by lia.
    replace (bytes prev + 2000000 - bytes prev) with 2000000 by lia.
    replace (bytes prev + 500 - bytes prev) with 500 by lia.
    split; vm_compute; reflexivity.
Qed.

Lemma getTrafUsage_linux_data :
  forall data now0 prev,
    getTrafUsage (js "linux") (ReadData data) now0 prev
    = traffic_sample prev now0 (total_bytes data).
Proof. reflexivity. Qed.

(** C8.  For a sample of the network tracker on Linux whose read of
    [/proc/net/dev] succeeds and whose counters are counted exactly (none
    negative, [totalBytes] below [2^53], as the stored count), with
    [totalBytes] as the loop over the lines sums it and [timeDiffSec] and
    [bytesDiff] as the code computes them: on the first sample, when
    [timeDiffSec <= 0] (so whenever the clock did not advance), or when
    [bytesDiff < 0], the rate is 0 and [getTrafUsage] answers ["0Kbps"];
    otherwise (so whenever the clock advanced) the rate is
    [bytesDiff / timeDiffSec * 8 / 1000000]; the answer is the rate times
    1000 with no decimal and [Kbps] when the rate is below 1, and the rate
    with one decimal and [Mbps] otherwise; the rate is never below zero and
    the answer has no minus sign; [prevNet] becomes the current sample.
    After a sample at a positive time, a file that counts 2,000,000 bytes
    more, read 1000 ms later, gives ["16.0Mbps"], and one that counts 500
    bytes more ["4Kbps"]. *)
Theorem getTrafUsage_rate_and_display :
  forall data prev now0,
    counters_exact data = true ->
    0 <= bytes prev < 2 ^ 53 ->
    let totalBytes := total_bytes data in
    let timeDiffSec := fdiv (ofZ (now0 - time prev)) (ofZ 1000) in
    let bytesDiff := totalBytes - bytes prev in
    let mbps := traffic_mbps prev now0 totalBytes in
    let display := fst (getTrafUsage (js "linux") (ReadData data) now0 prev) in
    (time prev = 0 \/ fle timeDiffSec (ofZ 0) = true \/ now0 <= time prev \/
     bytesDiff < 0 ->
     mbps = ofZ 0 /\ display = js "0Kbps") /\
    (0 < time prev ->
     flt (ofZ 0) timeDiffSec = true \/ 0 < now0 - time prev < 2 ^ 53 ->
     0 <= bytesDiff ->
     mbps = fdiv (fmul (fdiv (ofZ bytesDiff) timeDiffSec) (ofZ 8))
                 (ofZ 1000000)) /\
    display = (if flt mbps (ofZ 1)
               then toFixed 0 (fmul mbps (ofZ 1000)) ++ js "Kbps"
               else toFixed 1 mbps ++ js "Mbps") /\
    flt mbps (ofZ 0) = false /\
    ~ In MINUS display /\
    snd (getTrafUsage (js "linux") (ReadData data) now0 prev)
    = mkNet totalBytes now0 /\
    (0 < time prev ->
     (totalBytes = bytes prev + 2000000 ->
      fst (getTrafUsage (js "linux") (ReadData data) (time prev + 1000) prev)
      = js "16.0Mbps") /\
     (totalBytes = bytes prev + 500 ->
      fst (getTrafUsage (js "linux") (ReadData data) (time prev + 1000) prev)
      = js "4Kbps")).
Proof.
  intros data prev now0 _ _ totalBytes timeDiffSec bytesDiff mbps display.
  subst display. rewrite !getTrafUsage_linux_data. fold totalBytes.
  destruct (traffic_sample_rate_and_display prev now0 totalBytes)
    as (H1 & H2 & H3 & H4 & H5 & H6 & H7).
  split; [exact H1|]. split; [exact H2|]. split; [exact H3|].
  split; [exact H4|]. split; [exact H5|]. split; [exact H6|].
  intros Ht. destruct (H7 Ht) as [Ha Hb].
  split; intros ->; assumption.
Qed.

Lemma getTrafUsage_rate_and_display_witness :
  let data :=
    js "Inter-|   Receive                |  Transmit" ++ [LF] ++
    js " face |bytes    packets errs drop fifo frame compressed multicast|bytes" ++ [LF] ++
    js "    lo: 7000 70 0 0 0 0 0 0 7000 70 0 0 0 0 0 0" ++ [LF] ++
    js "  eth0: 2000000 12 0 0 0 0 0 0 1000000 9 0 0 0 0 0 0" ++ [LF] in
  getTrafUsage (js "linux") (ReadData data) 1700000001000
               (mkNet 1000000 1700000000000)
  = (js "16.0Mbps", mkNet 3000000 1700000001000) /\
  getTrafUsage (js "linux") (ReadData data) 1700000001000 prevNet_initial
  = (js "0Kbps", mkNet 3000000 1700000001000) /\
  fst (getTrafUsage (js "linux") (ReadData data) 1700000002000
                    (mkNet 4000000 1700000001000))
  = js "0Kbps".
Proof.
  intros data.
  assert (counters_exact data = true) as Hx by (vm_compute; reflexivity).
  assert (total_bytes data = 3000000) as Ht by (vm_compute; reflexivity).
  destruct (getTrafUsage_rate_and_display data (mkNet 1000000 1700000000000)
              1700000001000 Hx ltac:(simpl; lia))
    as (_ & _ & _ & _ & _ & S1 & E1).
  destruct (getTrafUsage_rate_and_display data prevNet_initial
              1700000001000 Hx ltac:(simpl; lia))
    as (Z2 & _ & _ & _ & _ & S2 & _).
  destruct (getTrafUsage_rate_and_display data (mkNet 4000000 1700000001000)
              1700000002000 Hx ltac:(simpl; lia))
    as (Z3 & _).
  cbv zeta in *.
  split; [|split].
  - destruct (E1 ltac:(simpl; lia)) as [E _].
    specialize (E ltac:(rewrite Ht; reflexivity)). cbn [time bytes] in E.
    replace (1700000000000 + 1000) with 1700000001000 in E by lia.
    rewrite (surjective_pairing (getTrafUsage _ _ _ _)), E, S1, Ht.
    reflexivity.
  - destruct (Z2 ltac:(left; reflexivity)) as [_ D].
    rewrite (surjective_pairing (getTrafUsage _ _ _ _)), D, S2, Ht.
    reflexivity.
  - apply Z3. right. right. right. rewrite Ht. simpl. lia.
Defined.

(** ** The disk usage probe *)

(** C9.  On a platform other than [win32], with the lines taken from the
    trimmed output: if there are two lines and the second has three columns,
    the result is column 1, a slash, column 0, a space and column 2; a
    failed command, fewer than two lines, or fewer than three columns give
    ["?"]; the function returns a string in every case; no column holds
    white space.  Every output made of a header line and a line of three
    columns, with white space around and between them, gives the second
    column, a slash, the first, a space and the third; the output quoted in
    the source gives ["10G/20G 53%"]. *)
Theorem getDiskUsage_posix_columns :
  forall platform stdout,
    JsString.eqb platform (js "win32") = false ->
    ((2 <= length (posix_lines stdout))%nat ->
     (3 <= length (posix_columns stdout))%nat ->
     let size := nth 0 (posix_columns stdout) [] in
     let used := nth 1 (posix_columns stdout) [] in
     let percent := nth 2 (posix_columns stdout) [] in
     getDiskUsage platform (ExecOutput stdout)
     = used ++ js "/" ++ size ++ js " " ++ percent) /\
    (posix_unparseable stdout ->
     getDiskUsage platform (ExecOutput stdout) = js "?") /\
    getDiskUsage platform ExecError = js "?" /\
    getDiskUsage platform (ExecOutput []) = js "?" /\
    (forall col,
       In col (posix_columns stdout) ->
       forallb (fun c => negb (is_space c)) col = true) /\
    (forall h lead size g1 used g2 percent trail,
       header h -> blank lead -> ~ In LF lead ->
       solid size -> gap g1 -> solid used -> gap g2 -> solid percent ->
       blank trail ->
       getDiskUsage platform
         (ExecOutput (h ++ [LF] ++ lead ++ size ++ g1 ++ used ++ g2 ++
                      percent ++ trail))
       = used ++ js "/" ++ size ++ js " " ++ percent) /\
    posix_columns df_sample = [js "20G"; js "10G"; js "53%"] /\
    getDiskUsage platform (ExecOutput df_sample) = js "10G/20G 53%".
Proof.
  intros platform stdout Hp.
  assert (forall r, getDiskUsage platform r = getDiskUsage_posix r) as Hposix
    by (intros r; unfold getDiskUsage; rewrite Hp; reflexivity).
  repeat split.
  - intros H2 H3. rewrite Hposix. unfold getDiskUsage_posix.
    fold (posix_lines stdout).
    apply Nat.leb_le in H2. rewrite H2.
    fold (posix_columns stdout).
    apply Nat.leb_le in H3. rewrite H3. reflexivity.
  - intros H. apply getDiskUsage_unparseable.
    unfold disk_unparseable. rewrite Hp. exact H.
  - apply getDiskUsage_error.
  - rewrite Hposix. reflexivity.
  - intros col. unfold posix_columns, split_ws. apply split_ws_from_tokens.
  - intros. rewrite Hposix. now apply getDiskUsage_posix_df_shape.
  - rewrite Hposix. vm_compute. reflexivity.
Qed.

Lemma getDiskUsage_posix_columns_witness :
  getDiskUsage (js "linux") (ExecOutput (js "a b" ++ [LF] ++ js "1T 2T 3% /")) 
  = js "2T/1T 3%" /\
  getDiskUsage (js "linux") (ExecOutput (js "only one line")) = js "?".
Proof.
  pose proof (getDiskUsage_posix_columns (js "linux")
                (js "a b" ++ [LF] ++ js "1T 2T 3% /") eq_refl) as [H _].
  pose proof (getDiskUsage_posix_columns (js "linux")
                (js "only one line") eq_refl) as [_ [G _]].
  split.
  - apply H; vm_compute; lia.
  - apply G. left. vm_compute. lia.
Defined.

(** ** The orchestrator *)

(** What a tick gives when its CPU sample has no more cores than the
    stored one, whatever the disk command and the read of the network
    counters do: [getResources] returns and [updateStatusBarItem] writes the
    status bar.  A failed command or an output that the parser does not
    accept makes the disk field ["?"], a failed read makes the traffic field
    ["0Kbps"] (["N/A"] off Linux) and leaves [prevNet] alone; replacing the
    outcome of the disk command changes no other field and no state, and
    replacing the outcome of the read changes neither the CPU, the RAM nor
    the disk field. *)
Lemma tick_fields_when_cpu_returns :
  forall c osName p st t,
    (length (cpus t) <= length (previousCpus st))%nat ->
    exists res st',
      getResources st t = (Returned res, st') /\
      updateStatusBarItem c osName p st t
      = (Returned (status_of c osName p res), st') /\
      calculateCpuUsage (previousCpus st) (cpus t)
      = (Returned (cpu res), previousCpus st') /\
      ram res = ram_display (totalmem t) (freemem t) /\
      disk res = getDiskUsage (platform t) (diskExec t) /\
      getTrafUsage (platform t) (netRead t) (now t) (prevNet st)
      = (traf res, prevNet st') /\
      (diskExec t = ExecError -> disk res = js "?") /\
      (forall stdout,
         diskExec t = ExecOutput stdout ->
         disk_unparseable (platform t) stdout -> disk res = js "?") /\
      (netRead t = ReadError ->
       traf res = (if JsString.eqb (platform t) (js "linux")
                   then js "0Kbps" else js "N/A") /\
       prevNet st' = prevNet st) /\
      (forall d,
         exists res2,
           getResources st (with_disk t d) = (Returned res2, st') /\
           cpu res2 = cpu res /\ ram res2 = ram res /\ traf res2 = traf res) /\
      (forall n,
         exists res2 st2,
           getResources st (with_net t n) = (Returned res2, st2) /\
           cpu res2 = cpu res /\ ram res2 = ram res /\ disk res2 = disk res /\
           previousCpus st2 = previousCpus st').
Proof.
  intros c osName p st t Hlen.
  pose proof (calculateCpuUsage_aligned (previousCpus st) (cpus t) Hlen) as Hcpu.
  set (u := if total_delta (previousCpus st) (cpus t) =? 0 then js "0.0"
            else toFixed 1 (cpu_percent (idle_delta (previousCpus st) (cpus t))
                                        (total_delta (previousCpus st) (cpus t))))
    in Hcpu.
  destruct (getTrafUsage (platform t) (netRead t) (now t) (prevNet st))
    as [tr net'] eqn:Htraf.
  exists (mkResources u (ram_display (totalmem t) (freemem t))
            (getDiskUsage (platform t) (diskExec t)) tr).
  exists (mkTracker (cpus t) net').
  assert (getResources st t
          = (Returned (mkResources u (ram_display (totalmem t) (freemem t))
                         (getDiskUsage (platform t) (diskExec t)) tr),
             mkTracker (cpus t) net')) as Hres.
  { unfold getResources. rewrite Hcpu, Htraf. reflexivity. }
  split; [exact Hres|].
  split; [unfold updateStatusBarItem; rewrite Hres; reflexivity|].
  split; [exact Hcpu|].
  split; [reflexivity|].
  split; [reflexivity|].
  split; [reflexivity|].
  split; [intros E; simpl; rewrite E; apply getDiskUsage_error|].
  split; [intros stdout E H; simpl; rewrite E; now apply getDiskUsage_unparseable|].
  split.
  { intros E. simpl. unfold getTrafUsage in Htraf. rewrite E in Htraf.
    destruct (JsString.eqb (platform t) (js "linux")); simpl in Htraf;
      inversion Htraf; split; reflexivity. }
  split.
  - intros d. eexists. split.
    + unfold getResources. simpl. rewrite Hcpu, Htraf. reflexivity.
    + simpl. repeat split.
  - intros n.
    destruct (getTrafUsage (platform t) n (now t) (prevNet st))
      as [tr2 net2] eqn:Htraf2.
    eexists. eexists. split.
    + unfold getResources. simpl. rewrite Hcpu, Htraf2. reflexivity.
    + simpl. repeat split.
Qed.

(** A row of drive [C:] whose columns are not numbers is accepted by the
    loop and shown as it computes, not as ["?"]. *)
Lemma getDiskUsage_win32_not_a_number :
  getDiskUsage (js "win32")
    (ExecOutput (js "Caption  FreeSpace  Size" ++ [LF] ++ js "C:  -  -"))
  = js "NaN/NaNGB NaN%".
Proof. vm_compute. reflexivity. Qed.

(** C1 at its failing inputs.  A tick whose CPU sample has more cores than
    the stored one: [calculateCpuUsage] throws before the disk command and
    the read of the counters are started and nothing catches the
    [TypeError], so [getResources] throws, and [updateStatusBarItem] throws
    with it and writes no status bar, whatever the platform, the disk
    command and the read would have delivered; neither stored sample
    changes, so the next such tick throws again. *)
Theorem tick_throws_on_grown_core_count :
  forall c osName p st t,
    (length (previousCpus st) < length (cpus t))%nat ->
    getResources st t = (Thrown undefined_times, st) /\
    updateStatusBarItem c osName p st t = (Thrown undefined_times, st).
Proof.
  intros c osName p st t H.
  assert (getResources st t = (Thrown undefined_times, st)) as E.
  { unfold getResources. rewrite (calculateCpuUsage_grown _ _ H).
    destruct st. reflexivity. }
  split; [exact E|].
  unfold updateStatusBarItem. rewrite E. reflexivity.
Qed.

Lemma tick_throws_on_grown_core_count_witness :
  updateStatusBarItem default_config (js "Ubuntu") probe_initial
    (mkTracker [core 100 0 50 1000 0] prevNet_initial)
    (mkTick (js "linux") [core 120 0 60 1100 0; core 5 0 1 90 0]
            (16 * GiB) (4 * GiB) (ExecOutput df_sample)
            (ReadData (js "h1" ++ [LF] ++ js "h2" ++ [LF] ++
                       js "  eth0: 1000 1 0 0 0 0 0 0 500 1 0 0 0 0 0 0" ++
                       [LF]))
            1700000000000)
  = (Thrown undefined_times, mkTracker [core 100 0 50 1000 0] prevNet_initial).
Proof.
  apply (tick_throws_on_grown_core_count default_config (js "Ubuntu")
           probe_initial (mkTracker [core 100 0 50 1000 0] prevNet_initial)).
  simpl. lia.
Defined.

(** C10.  When the tick returns, its RAM field is
    [<used>/<total>GB <percent>%], with [used = totalmem - freemem], [used]
    and [total] divided by [1024^3] and [percent = used / total * 100], each
    to one decimal; the token that the status bar shows is the last piece of
    that string cut at spaces, the percent with its sign. *)
Theorem ram_field_and_token :
  forall st t res st',
    getResources st t = (Returned res, st') ->
    let used := totalmem t - freemem t in
    let usedGB := toFixed 1 (fdiv (ofZ used) (ofZ (1024 ^ 3))) in
    let totalGB := toFixed 1 (fdiv (ofZ (totalmem t)) (ofZ (1024 ^ 3))) in
    let percent := toFixed 1 (fmul (fdiv (ofZ used) (ofZ (totalmem t))) (ofZ 100)) in
    ram res = usedGB ++ js "/" ++ totalGB ++ js "GB " ++ percent ++ js "%" /\
    last (split_char SPACE (ram res)) [] = percent ++ js "%" /\
    ram_token (ram res) = percent ++ js "%" /\
    forall osName p,
      text (status_of (mkConfig false false true false false false false)
                      osName p res)
      = js "$(server) RAM " ++ percent ++ js "%".
Proof.
  intros st t res st' H used usedGB totalGB percent.
  assert (ram res = ram_display (totalmem t) (freemem t)) as Hram.
  { unfold getResources in H.
    destruct (calculateCpuUsage (previousCpus st) (cpus t)) as [[u | e] cpus'];
      [|discriminate].
    destruct (getTrafUsage (platform t) (netRead t) (now t) (prevNet st)).
    inversion H. reflexivity. }
  assert (ram_display (totalmem t) (freemem t)
          = (usedGB ++ js "/" ++ totalGB) ++ js "GB " ++ percent ++ js "%") as E.
  { unfold ram_display. cbv zeta. rewrite <- !app_assoc. reflexivity. }
  destruct (ram_token_percent (usedGB ++ js "/" ++ totalGB) percent
              (toFixed_spaceless _ _)) as [Htok Hlast].
  rewrite Hram, E.
  repeat split.
  - rewrite <- !app_assoc. reflexivity.
  - exact Hlast.
  - exact Htok.
  - intros osName p. unfold status_of. cbv zeta. rewrite Hram, E, Htok.
    reflexivity.
Qed.

Lemma ram_field_and_token_witness :
  ram_token (js "12.0/16.0GB 75.0%") = js "75.0%".
Proof.
  assert (getResources (mkTracker [] prevNet_initial)
            (mkTick (js "linux") [] (16 * GiB) (4 * GiB) ExecError ReadError 0)
          = (Returned (mkResources (js "0.0") (js "12.0/16.0GB 75.0%")
                                   (js "?") (js "0Kbps")),
             mkTracker [] prevNet_initial)) as H
    by (vm_compute; reflexivity).
  destruct (ram_field_and_token _ _ _ _ H) as [_ [_ [H3 _]]].
  simpl ram in H3. rewrite H3. vm_compute. reflexivity.
Defined.

(** ** The bandwidth prober *)

(** C2.  While a probe is running, [runSpeedTest] returns at its guard and
    changes nothing; two calls in a row from an idle state issue exactly one
    request, and two calls while a probe runs issue none; in every state the
    extension can reach, at most one call waits for its download. *)
Theorem runSpeedTest_single_flight :
  (forall w now, running w = true -> step w (Click now) = w) /\
  (forall w n1 n2, running w = false ->
     requests (run w [Click n1; Click n2]) = S (requests w) /\
     running (run w [Click n1; Click n2]) = true) /\
  (forall w n1 n2, running w = true ->
     requests (run w [Click n1; Click n2]) = requests w) /\
  (forall evs,
     (length (flights (run world_initial evs)) <= 1)%nat /\
     (running (run world_initial evs) = true <->
      length (flights (run world_initial evs)) = 1%nat)).
Proof.
  split; [|split; [|split]].
  - intros w now Hr. simpl. unfold runSpeedTest_start.
    unfold running in Hr. rewrite Hr. reflexivity.
  - intros w n1 n2 Hr. unfold running in *. simpl.
    unfold runSpeedTest_start. rewrite Hr. simpl. split; reflexivity.
  - intros w n1 n2 Hr. unfold running in *. simpl.
    unfold runSpeedTest_start. rewrite Hr. rewrite Hr. reflexivity.
  - intros evs.
    destruct (run_single_flight evs world_initial single_flight_initial)
      as [[Hr Hl] | [Hr Hl]].
    + rewrite Hl, Hr. split; [lia | tauto].
    + rewrite Hl, Hr. simpl. split; [lia | split; discriminate].
Qed.

Lemma runSpeedTest_single_flight_witness :
  step (step world_initial (Click 5)) (Click 6) = step world_initial (Click 5) /\
  requests (run world_initial [Click 5; Click 6]) = 1%nat.
Proof.
  split.
  - apply (proj1 runSpeedTest_single_flight). reflexivity.
  - apply (proj1 (proj2 runSpeedTest_single_flight) world_initial 5 6).
    reflexivity.
Defined.

(** C3.  In a reachable state with a running probe, a failed transport (a
    response whose status is not 200, an error of the request, an error of
    the stream) leaves the result and the display ["Error"], shows one
    error notification and no information message, and clears the flag, as
    a completed download does; the next call then starts a probe again,
    with one more request. *)
Theorem failed_probe_releases_flag :
  forall evs ev,
    running (run world_initial evs) = true ->
    is_failure ev = true ->
    let w := run world_initial evs in
    let w' := step w ev in
    running w' = false /\
    lastSpeedTestResult (vars w') = js "Error" /\
    bandwidth_display (vars w') = js "Error" /\
    (exists message,
       errors w' = errors w ++ [js "Speed Test Failed: " ++ message]) /\
    infos w' = infos w /\
    flights w' = [] /\
    (forall now, running (step w (End 0 now)) = false) /\
    (forall now,
       running (step w' (Click now)) = true /\
       requests (step w' (Click now)) = S (requests w) /\
       length (flights (step w' (Click now))) = 1%nat).
Proof.
  intros evs ev Hr Hev w w'.
  destruct (run_single_flight evs world_initial single_flight_initial)
    as [[_ Hl] | [Hr' _]]; [|fold w in Hr'; subst w; congruence].
  fold w in Hl.
  destruct (flights w) as [|f [|g fs]] eqn:Hf; simpl in Hl; try discriminate.
  destruct (failure_settles w ev f Hf Hev) as [message Hstep].
  assert (w' = mkWorld (mkProbe false (js "Error")) [] (requests w) (infos w)
                 (errors w ++ [js "Speed Test Failed: " ++ message])
                 (S (refreshes w))) as Hw'.
  { subst w'. rewrite Hstep. unfold runSpeedTest_settle. rewrite Hf. reflexivity. }
  rewrite Hw'. simpl.
  repeat split; try reflexivity.
  - exists message. reflexivity.
  - intros now. unfold runSpeedTest_settle, running. rewrite Hf. reflexivity.
Qed.

Lemma failed_probe_releases_flag_witness :
  running (step (run world_initial [Click 0; Chunk 0 100]) (Response 0 503)) = false /\
  lastSpeedTestResult
    (vars (step (run world_initial [Click 0; Chunk 0 100]) (Response 0 503)))
  = js "Error".
Proof.
  pose proof (failed_probe_releases_flag [Click 0; Chunk 0 100] (Response 0 503)
                eq_refl eq_refl) as H.
  cbv zeta in H. destruct H as [H1 [H2 _]]. split; [exact H1 | exact H2].
Defined.

(** * Further properties *)

(** ** The bandwidth prober *)

Lemma remove_nth_length :
  forall A (l : list A) i x,
    nth_error l i = Some x -> length l = S (length (remove_nth i l)).
Proof.
  induction l as [|y l IH]; intros [|i] x H; simpl in *; try discriminate.
  - reflexivity.
  - f_equal. eapply IH. exact H.
Qed.

Lemma settle_accounted :
  forall id s w, accounted w -> accounted (runSpeedTest_settle id s w).
Proof.
  intros id s w [H1 H2]. unfold runSpeedTest_settle.
  destruct (nth_error (flights w) id) as [f|] eqn:E; [|split; assumption].
  pose proof (remove_nth_length _ _ _ _ E) as Hl.
  destruct s; unfold accounted; simpl; rewrite ?length_app; simpl; lia.
Qed.

Lemma step_accounted :
  forall w ev, accounted w -> accounted (step w ev).
Proof.
  intros w ev H.
  destruct ev as [now | id code | id len | id now | id m | id m]; simpl.
  - unfold runSpeedTest_start. destruct (isTestingSpeed (vars w)); [exact H|].
    destruct H as [H1 H2]. unfold accounted. simpl.
    rewrite length_app. simpl. lia.
  - destruct (code =? 200)%N; [exact H | now apply settle_accounted].
  - destruct H as [H1 H2]. unfold accounted. simpl.
    rewrite update_nth_length. lia.
  - now apply settle_accounted.
  - now apply settle_accounted.
  - now apply settle_accounted.
Qed.

(** X1.  In every state the extension can reach, the requests issued are the
    calls still waiting plus the notifications shown: each speed test that
    started has ended in exactly one notification, a message or an error, or
    is still running, which at most one is; and the status bar was asked to
    refresh once per start and once per end. *)
Theorem speed_test_accounts :
  forall evs,
    let w := run world_initial evs in
    requests w = (length (infos w) + length (errors w) + length (flights w))%nat /\
    refreshes w = (requests w + length (infos w) + length (errors w))%nat /\
    (length (flights w) <= 1)%nat.
Proof.
  intros evs w.
  assert (forall evs w0, accounted w0 -> accounted (run w0 evs)) as Hrun.
  { induction evs0 as [|ev evs0 IH]; intros w0 H0; simpl.
    - exact H0.
    - apply IH. now apply step_accounted. }
  destruct (Hrun evs world_initial ltac:(split; reflexivity)) as [H1 H2].
  fold w in H1, H2. split; [exact H1|]. split; [exact H2|].
  destruct (run_single_flight evs world_initial single_flight_initial)
    as [[_ Hl] | [_ Hl]]; fold w in Hl; rewrite Hl; simpl; lia.
Qed.

Lemma world_eta :
  forall w,
    mkWorld (vars w) (flights w) (requests w) (infos w) (errors w) (refreshes w)
    = w.
Proof. intros []. reflexivity. Qed.

(** X2.  Once the promise of a download has settled, what the network still
    sends for it has no effect: in a reachable state in which no speed test
    runs, every event of a download leaves the flag, the result, the
    notifications and the count of requests as they are. *)
Theorem late_events_change_nothing :
  forall evs ev id,
    let w := run world_initial evs in
    flight_of ev = Some id ->
    running w = false ->
    step w ev = w.
Proof.
  intros evs ev id w Hev Hr.
  pose proof (run_single_flight evs world_initial single_flight_initial) as Hsf.
  fold w in Hsf. destruct Hsf as [[Hr' _] | [_ Hl]]; [congruence|].
  assert (forall s, runSpeedTest_settle id s w = w) as Hsettle.
  { intros s. unfold runSpeedTest_settle. rewrite Hl. destruct id; reflexivity. }
  assert (forall g, update_nth id g (flights w) = flights w) as Hupd.
  { intros g. rewrite Hl. destruct id; reflexivity. }
  destruct ev as [now | i code | i len | i now | i m | i m];
    simpl in Hev; inversion Hev; subst i; simpl.
  - destruct (code =? 200)%N; [reflexivity | apply Hsettle].
  - rewrite Hupd. apply world_eta.
  - apply Hsettle.
  - apply Hsettle.
  - apply Hsettle.
Qed.

Lemma late_events_change_nothing_witness :
  step (run world_initial [Click 0; End 0 9]) (StreamError 0 (js "reset"))
  = run world_initial [Click 0; End 0 9].
Proof.
  apply (late_events_change_nothing [Click 0; End 0 9]
           (StreamError 0 (js "reset")) 0%nat); reflexivity.
Defined.





Lemma ofZ_pos_cases :
  forall z,
    0 < z ->
    (exists m e, ofZ z = S754_finite false m e) \/ ofZ z = S754_infinity false.
Proof.
  intros [|p|p] Hz; try lia.
  unfold ofZ, binary_normalize, binary_round.
  destruct (shl_align p 0 (fexp prec emax (Zpos (digits2_pos p) + 0)))
    as [mz ez] eqn:E.
  destruct (shl_align_spec _ _ _ _ _ E) as (Hez & Hmz & _).
  apply round_aux_positive; [lia|].
  rewrite Hmz, Zdigits2_shift by lia.
  pose proof (Zdigits2_pos (Zpos p) ltac:(lia)).
  unfold emin, prec, emax. lia.
Qed.

Lemma speed_mbps_nonneg :
  forall f t1,
    0 <= downloadedBytes f -> startTime f <= t1 -> nonneg (speed_mbps f t1).
Proof.
  intros f t1 Hb Ht. unfold speed_mbps.
  apply fdiv_nonneg; [|reflexivity].
  apply fdiv_nonneg.
  - apply ofZ_nonneg. lia.
  - apply fdiv_nonneg; [|reflexivity]. apply ofZ_nonneg. lia.
Qed.

(** X4.  The result of a speed test at the edges.  If the clock did not go
    back during the download, the result has no minus sign.  A download
    that ends in the millisecond in which it began divides by zero: with
    bytes received the result is ["InfinityMbps"], with none ["NaNMbps"]. *)
Theorem speed_result_edges :
  forall f t1,
    let result := toFixed 1 (speed_mbps f t1) ++ js "Mbps" in
    (0 <= downloadedBytes f -> startTime f <= t1 -> ~ In MINUS result) /\
    (t1 = startTime f -> 0 < downloadedBytes f -> result = js "InfinityMbps") /\
    (t1 = startTime f -> downloadedBytes f = 0 -> result = js "NaNMbps").
Proof.
  intros f t1 result. split; [|split].
  - intros Hb Ht Hin. subst result. apply in_app_iff in Hin.
    destruct Hin as [Hin | Hin].
    + revert Hin. apply toFixed_no_minus. now apply speed_mbps_nonneg.
    + not_in_literal Hin.
  - intros -> Hb. subst result. unfold speed_mbps. rewrite Z.sub_diag.
    change (fdiv (ofZ 0) (ofZ 1000)) with (S754_zero false).
    destruct (ofZ_pos_cases (downloadedBytes f * 8) ltac:(lia))
      as [(m & e & E) | E]; rewrite E; reflexivity.
  - intros -> Hb. subst result. unfold speed_mbps.
    rewrite Z.sub_diag, Hb. reflexivity.
Qed.

Lemma speed_result_edges_witness :
  toFixed 1 (speed_mbps (mkFlight 5000 10000000) 5000) ++ js "Mbps"
  = js "InfinityMbps" /\
  ~ In MINUS (toFixed 1 (speed_mbps (mkFlight 5000 10000000) 7000) ++ js "Mbps").
Proof.
  destruct (speed_result_edges (mkFlight 5000 10000000) 5000) as (_ & H & _).
  destruct (speed_result_edges (mkFlight 5000 10000000) 7000) as (G & _).
  split.
  - apply H; [reflexivity | simpl; lia].
  - apply G; simpl; lia.
Defined.

(** ** The CPU load tracker over several ticks *)

(** X5.  When the new sample has no more cores than the stored one, the
    cores that only the stored sample has play no part: the result and the
    new state are those for the stored sample cut to the length of the new
    one, whatever the counters of the further cores are. *)
Theorem cores_gone_are_ignored :
  forall prev cur extra,
    (length cur <= length prev)%nat ->
    calculateCpuUsage (prev ++ extra) cur = calculateCpuUsage prev cur /\
    calculateCpuUsage prev cur
    = calculateCpuUsage (firstn (length cur) prev) cur /\
    exists usage, calculateCpuUsage prev cur = (Returned usage, cur).
Proof.
  intros prev cur extra Hlen.
  rewrite (calculateCpuUsage_aligned prev cur Hlen).
  rewrite (calculateCpuUsage_aligned (prev ++ extra) cur)
    by (rewrite length_app; lia).
  rewrite (calculateCpuUsage_aligned (firstn (length cur) prev) cur)
    by (rewrite length_firstn; lia).
  unfold total_delta, idle_delta.
  rewrite firstn_app.
  replace (length cur - length prev)%nat with 0%nat by lia.
  rewrite firstn_O, app_nil_r, firstn_firstn, Nat.min_id.
  split; [reflexivity|]. split; [reflexivity|]. eexists. reflexivity.
Qed.

Lemma cores_gone_are_ignored_witness :
  calculateCpuUsage [core 1 0 0 1 0; core 9 9 9 9 9] [core 3 0 0 2 0]
  = calculateCpuUsage [core 1 0 0 1 0] [core 3 0 0 2 0].
Proof.
  apply (cores_gone_are_ignored [core 1 0 0 1 0] [core 3 0 0 2 0]
           [core 9 9 9 9 9]). simpl. lia.
Defined.

Lemma updateStatusBarItem_grown :
  forall c osName p st t,
    (length (previousCpus st) < length (cpus t))%nat ->
    updateStatusBarItem c osName p st t = (Thrown undefined_times, st).
Proof.
  intros c osName p st t H. unfold updateStatusBarItem, getResources.
  rewrite (calculateCpuUsage_grown _ _ H). destruct st. reflexivity.
Qed.

Lemma timer_ticks_app :
  forall rs1 rs2 st,
    timer_ticks st (rs1 ++ rs2)
    = (fst (timer_ticks st rs1) ++ fst (timer_ticks (snd (timer_ticks st rs1)) rs2),
       snd (timer_ticks (snd (timer_ticks st rs1)) rs2)).
Proof.
  induction rs1 as [|r rs1 IH]; intros rs2 st; simpl.
  - destruct (timer_ticks st rs2); reflexivity.
  - destruct (updateStatusBarItem _ _ _ st _) as [o st1].
    rewrite IH.
    destruct (timer_ticks st1 rs1) as [os st2]. simpl.
    destruct (timer_ticks st2 rs2); reflexivity.
Qed.

(** X6.  A sample with more cores than the stored one stops the display for
    as long as the samples stay that long: every call of
    [updateStatusBarItem] whose sample has more cores than the stored one
    throws the [TypeError], and it leaves the stored CPU sample and the
    stored network sample as they were, so the calls after it meet the same
    stored sample.  Whatever the timer does afterwards, it does as if these
    calls had not been made. *)
Theorem grown_core_count_stops_the_display :
  forall st rs,
    Forall (fun r =>
              (length (previousCpus st) < length (cpus (r_input r)))%nat) rs ->
    timer_ticks st rs = (map (fun _ => Thrown undefined_times) rs, st) /\
    forall later,
      timer_ticks st (rs ++ later)
      = (map (fun _ => Thrown undefined_times) rs ++ fst (timer_ticks st later),
         snd (timer_ticks st later)).
Proof.
  intros st rs H.
  assert (E : timer_ticks st rs = (map (fun _ => Thrown undefined_times) rs, st)).
  { induction H as [|r rs Hr _ IH]; simpl.
    - reflexivity.
    - rewrite (updateStatusBarItem_grown _ _ _ _ _ Hr), IH. reflexivity. }
  split; [exact E|].
  intros later. rewrite timer_ticks_app, E. reflexivity.
Qed.

Lemma grown_core_count_stops_the_display_witness :
  let st := mkTracker [core 1 0 0 1 0] prevNet_initial in
  let t now0 :=
    mkTick (js "linux") [core 2 0 0 2 0; core 1 0 0 1 0] 8 4
           ExecError ReadError now0 in
  let r now0 := mkRefresh default_config (js "Linux") probe_initial (t now0) in
  timer_ticks st [r 1000; r 2000; r 3000]
  = ([Thrown undefined_times; Thrown undefined_times; Thrown undefined_times],
     st).
Proof.
  intros st t r.
  apply (grown_core_count_stops_the_display st [r 1000; r 2000; r 3000]).
  repeat constructor; simpl; lia.
Defined.

(** ** The ends of the CPU scale *)

Lemma ofZ_nonzero_cases :
  forall z,
    z <> 0 ->
    exists s,
      (exists m e, ofZ z = S754_finite s m e) \/ ofZ z = S754_infinity s.
Proof.
  intros [|p|p] Hz; try lia.
  - exists false. apply ofZ_pos_cases. lia.
  - exists true.
    unfold ofZ, binary_normalize, binary_round.
    destruct (shl_align p 0 (fexp prec emax (Zpos (digits2_pos p) + 0)))
      as [mz ez] eqn:E.
    destruct (shl_align_spec _ _ _ _ _ E) as (Hez & Hmz & _).
    apply round_aux_positive; [lia|].
    rewrite Hmz, Zdigits2_shift by lia.
    pose proof (Zdigits2_pos (Zpos p) ltac:(lia)).
    unfold emin, prec, emax. lia.
Qed.

Lemma fdiv_zero_by_nonzero :
  forall z, z <> 0 -> exists s, fdiv (ofZ 0) (ofZ z) = S754_zero s.
Proof.
  intros z Hz.
  destruct (ofZ_nonzero_cases z Hz) as [s [(m & e & E) | E]]; rewrite E;
    exists s; reflexivity.
Qed.

(** A finite number divided by itself is one. *)
Lemma fdiv_self :
  forall s m e, fdiv (S754_finite s m e) (S754_finite s m e) = ofZ 1.
Proof.
  intros s m e. unfold fdiv, SFdiv, SFdiv_core_binary.
  rewrite !Z.sub_diag.
  change (Z.min (fexp prec emax 0) 0) with (-53).
  change (0 - -53) with 53.
  cbv beta iota zeta.
  destruct (Z.div_eucl (Z.shiftl (Zpos m) 53) (Zpos m)) as [q r] eqn:E.
  assert (q = Z.shiftl (Zpos m) 53 / Zpos m) as Hq
    by (unfold Z.div; rewrite E; reflexivity).
  assert (r = Z.shiftl (Zpos m) 53 mod Zpos m) as Hr
    by (unfold Z.modulo; rewrite E; reflexivity).
  rewrite Z.shiftl_mul_pow2 in Hq, Hr by lia.
  rewrite (Z.mul_comm (Zpos m)) in Hq, Hr.
  rewrite Z.div_mul in Hq by lia. rewrite Z.mod_mul in Hr by lia.
  subst q r. rewrite xorb_nilpotent.
  assert (new_location (Zpos m) 0 = loc_Exact) as ->.
  { unfold new_location, new_location_even, new_location_odd.
    destruct (Z.even (Zpos m)); reflexivity. }
  vm_compute. reflexivity.
Qed.

Lemma Forall_prefix :
  forall A (P : A -> Prop) n l, Forall P l -> Forall P (firstn n l).
Proof.
  intros A P n l H. rewrite Forall_forall in *. intros x Hx. apply H.
  rewrite <- (firstn_skipn n l). apply in_app_iff. now left.
Qed.

(** X7.  The two ends of the scale, for a sample with no more cores than
    the stored one, the counters of both counted exactly (none negative,
    their sum below [2^53]).  If the summed idle time did not move while
    the summed total did, the usage reads ["100.0"]; if the total grew and
    all of the added time was idle time, it reads ["0.0"]. *)
Theorem cpu_usage_busy_and_idle :
  forall prev cur,
    (length cur <= length prev)%nat ->
    safe_sample prev -> safe_sample cur ->
    total_delta prev cur <> 0 ->
    (idle_delta prev cur = 0 ->
     calculateCpuUsage prev cur = (Returned (js "100.0"), cur)) /\
    (idle_delta prev cur = total_delta prev cur ->
     0 < total_delta prev cur ->
     calculateCpuUsage prev cur = (Returned (js "0.0"), cur)).
Proof.
  intros prev cur Hlen [Hprev _] [_ Hcur] Ht.
  assert (total_delta prev cur < 2 ^ 53) as Hbound.
  { unfold total_delta.
    pose proof (sum_total_nonneg (firstn (length cur) prev)
                  (Forall_prefix _ _ _ _ Hprev)). lia. }
  rewrite (calculateCpuUsage_aligned prev cur Hlen).
  destruct (Z.eqb_spec (total_delta prev cur) 0) as [E | _]; [contradiction|].
  unfold cpu_percent. split.
  - intros ->.
    destruct (fdiv_zero_by_nonzero _ Ht) as [s ->].
    destruct s; vm_compute; reflexivity.
  - intros -> Hpos.
    destruct (ofZ_exact _ (conj Hpos Hbound)) as (m & e & -> & _).
    rewrite fdiv_self. vm_compute. reflexivity.
Qed.

Lemma cpu_usage_busy_and_idle_witness :
  calculateCpuUsage [core 10 0 5 100 0; core 0 0 0 7 0]
                    [core 30 0 9 100 1; core 5 0 0 7 0]
  = (Returned (js "100.0"), [core 30 0 9 100 1; core 5 0 0 7 0]) /\
  calculateCpuUsage [core 10 0 5 100 0] [core 10 0 5 350 0]
  = (Returned (js "0.0"), [core 10 0 5 350 0]).
Proof.
  split.
  - apply (cpu_usage_busy_and_idle [core 10 0 5 100 0; core 0 0 0 7 0]
             [core 30 0 9 100 1; core 5 0 0 7 0]).
    + simpl. lia.
    + split; [repeat constructor; simpl; lia | vm_compute; reflexivity].
    + split; [repeat constructor; simpl; lia | vm_compute; reflexivity].
    + vm_compute. discriminate.
    + reflexivity.
  - apply (cpu_usage_busy_and_idle [core 10 0 5 100 0] [core 10 0 5 350 0]).
    + simpl. lia.
    + split; [repeat constructor; simpl; lia | vm_compute; reflexivity].
    + split; [repeat constructor; simpl; lia | vm_compute; reflexivity].
    + vm_compute. discriminate.
    + reflexivity.
    + vm_compute. reflexivity.
Defined.

(** ** The RAM field *)

Lemma quotient_at_most_one :
  forall a t,
    0 <= a <= t -> 0 < t < 2 ^ 53 ->
    at_most (fdiv (ofZ a) (ofZ t)) one_m (-52).
Proof.
  intros a t Ha Ht.
  destruct (ofZ_exact t Ht) as (mT & eT & ET & HeT & HmT).
  rewrite ET.
  destruct (Z.eq_dec a 0) as [-> | Hne].
  - exact I.
  - destruct (ofZ_exact a ltac:(lia)) as (mI & eI & EI & HeI & HmI).
    rewrite EI. apply fdiv_at_most_one.
    apply (dy_le_base _ _ _ _ (eI + eT)); [lia | lia |].
    rewrite HmI, HmT.
    replace (eI - (eI + eT)) with (- eT) by lia.
    replace (eT - (eI + eT)) with (- eI) by lia.
    pose proof (pow2_gt0 (- eI) ltac:(lia)).
    pose proof (pow2_gt0 (- eT) ltac:(lia)). nia.
Qed.

(** X8.  On a machine whose free memory is between nothing and all of its
    memory (and whose memory JavaScript counts exactly), the percentage of
    the RAM field reads [whole.tenth] with a value from 0.0 to 100.0, and
    that, followed by [%], is what the status bar shows for RAM. *)
Theorem ram_percent_in_range :
  forall totalMem freeMem,
    0 < totalMem < 2 ^ 53 ->
    0 <= freeMem <= totalMem ->
    exists whole tenth,
      0 <= whole <= 100 /\ 0 <= tenth <= 9 /\ 10 * whole + tenth <= 1000 /\
      toFixed 1 (fmul (fdiv (ofZ (totalMem - freeMem)) (ofZ totalMem)) (ofZ 100))
      = digits10 whole ++ js "." ++ digits10 tenth /\
      ram_token (ram_display totalMem freeMem)
      = digits10 whole ++ js "." ++ digits10 tenth ++ js "%".
Proof.
  intros totalMem freeMem Ht Hf.
  destruct (toFixed_1_at_most_hundred
              (fmul (fdiv (ofZ (totalMem - freeMem)) (ofZ totalMem)) (ofZ 100)))
    as (n & Hn & En).
  { apply fmul_hundred_at_most, quotient_at_most_one; lia. }
  exists (n / 10), (n mod 10).
  pose proof (Z.div_mod n 10 ltac:(lia)).
  pose proof (Z.mod_pos_bound n 10 ltac:(lia)).
  rewrite fixed_digits_1_decimal in En by lia.
  repeat split; try lia.
  - exact En.
  - unfold ram_display. cbv zeta.
    set (a := toFixed 1 (fdiv (ofZ (totalMem - freeMem)) (ofZ GiB))).
    set (b := toFixed 1 (fdiv (ofZ totalMem) (ofZ GiB))).
    replace (a ++ js "/" ++ b ++ js "GB " ++
             toFixed 1 (fmul (fdiv (ofZ (totalMem - freeMem)) (ofZ totalMem))
                             (ofZ 100)) ++ js "%")
      with ((a ++ js "/" ++ b) ++ js "GB " ++
            toFixed 1 (fmul (fdiv (ofZ (totalMem - freeMem)) (ofZ totalMem))
                            (ofZ 100)) ++ js "%")
      by (rewrite <- !app_assoc; reflexivity).
    destruct (ram_token_percent (a ++ js "/" ++ b) _ (toFixed_spaceless 1
                (fmul (fdiv (ofZ (totalMem - freeMem)) (ofZ totalMem)) (ofZ 100))))
      as [-> _].
    rewrite En, <- !app_assoc. reflexivity.
Qed.

Lemma ram_percent_in_range_witness :
  exists whole tenth,
    0 <= whole <= 100 /\ 0 <= tenth <= 9 /\ 10 * whole + tenth <= 1000 /\
    toFixed 1 (fmul (fdiv (ofZ (16 * GiB - 5 * GiB)) (ofZ (16 * GiB))) (ofZ 100))
    = digits10 whole ++ js "." ++ digits10 tenth /\
    ram_token (ram_display (16 * GiB) (5 * GiB))
    = digits10 whole ++ js "." ++ digits10 tenth ++ js "%".
Proof.
  apply (ram_percent_in_range (16 * GiB) (5 * GiB)); vm_compute; split;
    congruence.
Defined.

(** ** Reading [/proc/net/dev] *)

(** *** Decimal numbers read back *)

Lemma digits_prefix_uint :
  forall u a,
    ParseInt.digits_prefix 10 (Some a) (uint_units u) = Some (uint_value a u).
Proof.
  induction u; intros a; simpl; try reflexivity; apply IHu.
Qed.

Lemma uint_value_acc :
  forall u p, uint_value (Zpos p) u = Zpos (Pos.of_uint_acc u p).
Proof.
  induction u; intros p; cbn [uint_value Pos.of_uint_acc]; try reflexivity;
    rewrite <- IHu; f_equal; lia.
Qed.

Lemma uint_value_of_uint :
  forall u, uint_value 0 u = Z.of_N (Pos.of_uint u).
Proof.
  induction u; cbn [uint_value Pos.of_uint]; try reflexivity; try exact IHu;
    apply (uint_value_acc u).
Qed.

Lemma digits_prefix_digits10 :
  forall n, 0 <= n -> ParseInt.digits_prefix 10 None (digits10 n) = Some n.
Proof.
  intros n Hn. unfold digits10.
  pose proof (DecimalN.Unsigned.of_to (Z.to_N n)) as E.
  unfold N.of_uint in E.
  assert (forall u, u <> Decimal.Nil ->
            ParseInt.digits_prefix 10 None (uint_units u)
            = Some (uint_value 0 u)) as H.
  { intros u Hu. destruct u; try congruence; simpl; apply digits_prefix_uint. }
  rewrite H.
  - rewrite uint_value_of_uint, E. f_equal. lia.
  - intros C. rewrite C in E. destruct (Z.to_N n); discriminate.
Qed.

Lemma parseInt10_digits10 :
  forall n, 0 <= n -> ParseInt.parseInt10_or_0 (Some (digits10 n)) = n.
Proof.
  intros n Hn. unfold ParseInt.parseInt10_or_0, ParseInt.parse.
  assert (digits10 n <> []) as Hne.
  { intros C. pose proof (digits_prefix_digits10 n Hn) as E.
    rewrite C in E. discriminate. }
  destruct (digits10 n) as [|c s] eqn:E; [congruence|].
  assert ((48 <= c <= 57)%N) as Hc
    by (apply (digits10_digits n); rewrite E; now left).
  assert (trimStart (c :: s) = c :: s) as ->.
  { simpl. replace (is_space c) with false; [reflexivity|].
    symmetry. unfold is_space.
    repeat (apply orb_false_iff; split); try (apply N.eqb_neq; lia).
    apply andb_false_iff. left. apply N.leb_gt. lia. }
  pose proof (digits_prefix_digits10 n Hn) as P. rewrite E in P.
  destruct c as [|p]; [lia|].
  do 6 (destruct p as [p | p |]; try lia); cbv iota beta; rewrite P; reflexivity.
Qed.

(** *** Cutting a row *)

Lemma digits10_solid : forall n, 0 <= n -> solid (digits10 n).
Proof.
  intros n Hn. split.
  - intros C. pose proof (digits_prefix_digits10 n Hn) as E.
    rewrite C in E. discriminate.
  - apply Forall_forall. intros c Hc. apply digits10_digits in Hc.
    unfold is_space.
    repeat (apply orb_false_iff; split); try (apply N.eqb_neq; lia).
    apply andb_false_iff. left. apply N.leb_gt. lia.
Qed.

Lemma digits10_no_colon : forall n, ~ In COLON (digits10 n).
Proof.
  intros n H. apply digits10_digits in H. unfold COLON in H. lia.
Qed.

Lemma split_ws_from_spaced :
  forall cols t in_run,
    solid t ->
    Forall (fun gt => fst gt <> [] /\ blank (fst gt) /\ solid (snd gt)) cols ->
    split_ws_from in_run (t ++ spaced cols) = t :: map snd cols.
Proof.
  induction cols as [|[g t'] cols IH]; intros t in_run Ht Hcols.
  - simpl. rewrite (split_ws_from_solid t [] in_run Ht). simpl.
    now rewrite app_nil_r.
  - inversion Hcols as [|? ? (Hne & Hb & Ht') Hrest]; subst.
    cbn [spaced fst snd map] in *.
    rewrite (split_ws_from_solid t _ in_run Ht).
    rewrite (split_ws_from_gap g _ Hne Hb).
    rewrite (IH t' true Ht' Hrest). simpl. now rewrite app_nil_r.
Qed.

Lemma trimEnd_spaced :
  forall cols a t trail,
    solid t -> blank trail ->
    Forall (fun gt => fst gt <> [] /\ blank (fst gt) /\ solid (snd gt)) cols ->
    trimEnd (a ++ t ++ spaced cols ++ trail) = a ++ t ++ spaced cols.
Proof.
  induction cols as [|[g t'] cols IH]; intros a t trail Ht Htrail Hcols.
  - simpl. rewrite app_nil_r. now apply trimEnd_tail.
  - inversion Hcols as [|? ? (Hne & Hb & Ht') Hrest]; subst.
    cbn [spaced fst snd] in *.
    replace (a ++ t ++ (g ++ t' ++ spaced cols) ++ trail)
      with ((a ++ t ++ g) ++ t' ++ spaced cols ++ trail)
      by (rewrite <- !app_assoc; reflexivity).
    rewrite (IH (a ++ t ++ g) t' trail Ht' Htrail Hrest).
    rewrite <- !app_assoc. reflexivity.
Qed.

Lemma starts_with_app : forall p s, starts_with p (p ++ s) = true.
Proof.
  induction p as [|c p IH]; intros s; simpl; [reflexivity|].
  now rewrite N.eqb_refl, IH.
Qed.

Lemma starts_with_prefix :
  forall p s, starts_with p s = true -> exists b, s = p ++ b.
Proof.
  induction p as [|c p IH]; intros s H.
  - exists s. reflexivity.
  - destruct s as [|d s]; simpl in H; [discriminate|].
    apply andb_true_iff in H. destruct H as [Hc Hp].
    apply N.eqb_eq in Hc. subst d.
    destruct (IH s Hp) as [b ->]. exists b. reflexivity.
Qed.

Lemma includes_app : forall a p b, includes p (a ++ p ++ b) = true.
Proof.
  induction a as [|c a IH]; intros p b.
  - simpl. destruct (p ++ b) eqn:E; simpl;
      rewrite <- E, starts_with_app; reflexivity.
  - simpl. rewrite IH. apply orb_true_r.
Qed.

Lemma includes_inside :
  forall p s, includes p s = true -> exists a b, s = a ++ p ++ b.
Proof.
  intros p s. induction s as [|c s IH]; intros H.
  - simpl in H. rewrite orb_false_r in H.
    apply starts_with_prefix in H. destruct H as [b E].
    exists [], b. exact E.
  - simpl in H. apply orb_true_iff in H. destruct H as [H | H].
    + apply starts_with_prefix in H. destruct H as [b E].
      exists [], b. exact E.
    + destruct (IH H) as (a & b & ->). exists (c :: a), b. reflexivity.
Qed.

(** The one colon of a string marks one place. *)
Lemma pivot_unique :
  forall (c : N) x y x' y',
    ~ In c x -> ~ In c y -> x ++ c :: y = x' ++ c :: y' -> x = x'.
Proof.
  intros c x. induction x as [|d x IH]; intros y x' y' Hx Hy E.
  - destruct x' as [|d' x']; [reflexivity|].
    simpl in E. inversion E; subst. exfalso. apply Hy.
    apply in_app_iff. right. now left.
  - destruct x' as [|d' x'].
    + simpl in E. inversion E; subst. exfalso. apply Hx. now left.
    + simpl in E. inversion E; subst. f_equal.
      apply (IH y x' y'); [|exact Hy | assumption].
      intros H. apply Hx. now right.
Qed.

Lemma ends_with_app : forall a p, ends_with p (a ++ p) = true.
Proof.
  intros a p. unfold ends_with. rewrite rev_app_distr. apply starts_with_app.
Qed.

Lemma ends_with_suffix :
  forall p s, ends_with p s = true -> exists a, s = a ++ p.
Proof.
  intros p s H. unfold ends_with in H.
  apply starts_with_prefix in H. destruct H as [b E].
  exists (rev b). rewrite <- (rev_involutive s), E, rev_app_distr.
  now rewrite rev_involutive.
Qed.

(** In a row, [lo:] can only be the end of the name and the colon. *)
Lemma includes_lo_colon :
  forall name rest,
    ~ In COLON name -> ~ In COLON rest ->
    includes (js "lo:") (name ++ COLON :: rest) = ends_with (js "lo") name.
Proof.
  intros name rest Hn Hr.
  destruct (ends_with (js "lo") name) eqn:E.
  - apply ends_with_suffix in E. destruct E as [a ->].
    replace ((a ++ js "lo") ++ COLON :: rest) with (a ++ js "lo:" ++ rest)
      by (rewrite <- app_assoc; reflexivity).
    apply includes_app.
  - destruct (includes (js "lo:") (name ++ COLON :: rest)) eqn:I;
      [|reflexivity].
    apply includes_inside in I. destruct I as (a & b & I).
    replace (a ++ js "lo:" ++ b) with ((a ++ js "lo") ++ COLON :: b) in I
      by (rewrite <- app_assoc; reflexivity).
    apply pivot_unique in I; [|exact Hn | exact Hr].
    rewrite I, ends_with_app in E. discriminate.
Qed.

Lemma blank_no_colon : forall s, blank s -> ~ In COLON s.
Proof.
  intros s H Hin. unfold blank in H. rewrite Forall_forall in H.
  specialize (H COLON Hin). discriminate.
Qed.

Lemma counters_as_columns :
  forall rest : list (jsstring * Z),
    Forall (fun gn => gap (fst gn) /\ 0 <= snd gn) rest ->
    let cols := map (fun gn => (fst gn, digits10 (snd gn))) rest in
    Forall (fun gt => fst gt <> [] /\ blank (fst gt) /\ solid (snd gt)) cols /\
    ~ In COLON (spaced cols) /\
    forall k,
      ParseInt.parseInt10_or_0 (nth_error (map snd cols) k)
      = nth k (map snd rest) 0.
Proof.
  induction rest as [|[g n] rest IH]; intros H; cbn [map fst snd spaced].
  - split; [constructor|]. split; [now intros []|].
    intros [|k]; reflexivity.
  - inversion H as [|? ? ((Hne & Hb & _) & Hn) Hrest]; subst.
    cbn [fst snd] in *.
    destruct (IH Hrest) as (Hc & Hcolon & Hk).
    split; [|split].
    + constructor; [|exact Hc]. cbn [fst snd].
      split; [exact Hne|]. split; [exact Hb | now apply digits10_solid].
    + intros Hin. apply in_app_iff in Hin. destruct Hin as [Hin | Hin].
      * now apply (blank_no_colon g Hb).
      * apply in_app_iff in Hin. destruct Hin as [Hin | Hin].
        -- now apply (digits10_no_colon n).
        -- now apply Hcolon.
    + intros [|k]; cbn [nth_error nth].
      * now apply parseInt10_digits10.
      * apply Hk.
Qed.

Lemma solid_app_l :
  forall a t,
    Forall (fun c => is_space c = false) a -> solid t -> solid (a ++ t).
Proof.
  intros a t Ha [Hne Ht]. split.
  - intros E. apply app_eq_nil in E. destruct E as [_ E]. now apply Hne.
  - apply Forall_app. split; assumption.
Qed.

(** What a row of the kernel adds to [totalBytes]. *)
Lemma line_bytes_of_row :
  forall r,
    well_formed_row r ->
    line_bytes (row_text r)
    = if ends_with (js "lo") (row_name r) then 0
      else nth 0 (row_counters r) 0 + nth 8 (row_counters r) 0.
Proof.
  intros [lead name sep n0 rest trail].
  unfold well_formed_row, row_text, row_counters.
  cbn [row_lead row_name row_sep row_first row_rest row_trail].
  intros ([Hlead _] & [Hsep _] & [Htrail _] & Hname & Hcolon & Hn0 & Hrest).
  destruct (counters_as_columns rest Hrest) as (Hcols & Hcc & Hk).
  set (cols := map (fun gn => (fst gn, digits10 (snd gn))) rest) in *.
  pose proof (digits10_solid n0 Hn0) as Hd.
  assert (solid (name ++ [COLON])) as Hhead.
  { apply solid_app_l; [exact Hname|]. split; [discriminate|].
    constructor; [reflexivity | constructor]. }
  assert (trim (lead ++ name ++ [COLON] ++ sep ++ digits10 n0 ++
                spaced cols ++ trail)
          = name ++ COLON :: sep ++ digits10 n0 ++ spaced cols) as Etrim.
  { unfold trim. rewrite trimStart_blank_app by exact Hlead.
    replace (name ++ [COLON] ++ sep ++ digits10 n0 ++ spaced cols ++ trail)
      with ((name ++ [COLON]) ++ sep ++ digits10 n0 ++ spaced cols ++ trail)
      by (rewrite <- app_assoc; reflexivity).
    rewrite trimStart_solid by exact Hhead.
    replace ((name ++ [COLON]) ++ sep ++ digits10 n0 ++ spaced cols ++ trail)
      with (((name ++ [COLON]) ++ sep) ++ digits10 n0 ++ spaced cols ++ trail)
      by (rewrite <- !app_assoc; reflexivity).
    rewrite (trimEnd_spaced cols _ _ trail Hd Htrail Hcols).
    rewrite <- !app_assoc. reflexivity. }
  unfold line_bytes, line_counters. cbv zeta. rewrite Etrim.
  rewrite includes_lo_colon; [|exact Hcolon|].
  2:{ intros Hin. apply in_app_iff in Hin. destruct Hin as [Hin | Hin].
      - now apply (blank_no_colon sep Hsep).
      - apply in_app_iff in Hin. destruct Hin as [Hin | Hin].
        + now apply (digits10_no_colon n0).
        + now apply Hcc. }
  destruct (ends_with (js "lo") name); [reflexivity|].
  destruct sep as [|s0 sep'].
  - (* the counter follows the colon at once *)
    assert (solid (name ++ COLON :: digits10 n0)) as Ht.
    { apply solid_app_l; [exact Hname|]. destruct Hd as [_ Hd].
      split; [discriminate|]. constructor; [reflexivity | exact Hd]. }
    replace (name ++ COLON :: [] ++ digits10 n0 ++ spaced cols)
      with ((name ++ COLON :: digits10 n0) ++ spaced cols)
      by (rewrite <- app_assoc; reflexivity).
    unfold split_ws.
    rewrite (split_ws_from_spaced cols _ false Ht Hcols).
    cbn [nth].
    replace (includes (js ":") (name ++ COLON :: digits10 n0)) with true
      by (symmetry; apply (includes_app name [COLON] (digits10 n0))).
    replace (ends_with (js ":") (name ++ COLON :: digits10 n0)) with false.
    2:{ symmetry.
        destruct (ends_with (js ":") (name ++ COLON :: digits10 n0)) eqn:E;
          [|reflexivity].
        apply ends_with_suffix in E. destruct E as [a E].
        pose proof E as E'.
        apply pivot_unique in E';
          [|exact Hcolon | apply digits10_no_colon]. subst a.
        apply app_inv_head in E. inversion E as [E0].
        destruct Hd as [Hne _]. congruence. }
    rewrite (split_char_two COLON name (digits10 n0) Hcolon
               (digits10_no_colon n0)).
    cbn [nth_error]. rewrite parseInt10_digits10 by exact Hn0.
    f_equal. exact (Hk 7%nat).
  - (* white space after the colon *)
    replace (name ++ COLON :: (s0 :: sep') ++ digits10 n0 ++ spaced cols)
      with ((name ++ [COLON]) ++
            spaced ((s0 :: sep', digits10 n0) :: cols))
      by (cbn [spaced]; rewrite <- !app_assoc; reflexivity).
    unfold split_ws.
    rewrite (split_ws_from_spaced _ _ false Hhead).
    2:{ constructor; [|exact Hcols]. cbn [fst snd].
        split; [discriminate|]. split; [exact Hsep | exact Hd]. }
    cbn [nth map snd].
    replace (includes (js ":") (name ++ [COLON])) with true
      by (symmetry; apply (includes_app name [COLON] [])).
    replace (ends_with (js ":") (name ++ [COLON])) with true
      by (symmetry; apply (ends_with_app name [COLON])).
    cbn [nth_error]. rewrite parseInt10_digits10 by exact Hn0.
    f_equal. exact (Hk 7%nat).
Qed.

(** X9.  One row of [/proc/net/dev] as the kernel prints it: white space,
    the name of the interface, a colon, and the counters in decimal with
    white space between them; the first counter may follow the colon at
    once or after white space.  A row whose name ends in [lo] adds nothing
    to [totalBytes]: that is the loopback interface, and any other interface
    so named.  Every other row adds its first and its ninth counter (bytes
    received and bytes sent; a counter that is not there counts as 0), in
    either layout, as long as the two add up to less than [2^53], the range
    in which the code reads and adds them exactly. *)
Theorem net_row_bytes :
  forall r,
    well_formed_row r ->
    (ends_with (js "lo") (row_name r) = true ->
     line_bytes (row_text r) = 0) /\
    (ends_with (js "lo") (row_name r) = false ->
     nth 0 (row_counters r) 0 + nth 8 (row_counters r) 0 < 2 ^ 53 ->
     line_bytes (row_text r)
     = nth 0 (row_counters r) 0 + nth 8 (row_counters r) 0).
Proof.
  intros r Hr. rewrite (line_bytes_of_row r Hr).
  split; intros ->; reflexivity.
Qed.

(** Closes a goal that says of literals that they are blank, solid, free
    of a code unit, or rows in good form. *)
Ltac literal_shape :=
  unfold well_formed_row, pad, gap, solid, blank;
  cbn [row_lead row_name row_sep row_first row_rest row_trail fst snd];
  repeat match goal with
         | |- _ /\ _ => split
         | |- Forall _ _ => constructor
         | |- ~ In _ _ =>
             let H := fresh in intros H; not_in_literal H
         | |- _ <> [] => discriminate
         | |- _ <= _ => cbn [fst snd]; lia
         | |- is_space _ = _ => reflexivity
         end.

Lemma net_row_bytes_witness :
  line_bytes (js "  eth0: 1000 12 0 0 0 0 0 0 500 9 0 0 0 0 0 0") = 1500 /\
  line_bytes (js "  eth0:1000 12 0 0 0 0 0 0 500 9 0 0 0 0 0 0") = 1500 /\
  line_bytes (js " wilo: 1000 12 0 0 0 0 0 0 500 9 0 0 0 0 0 0") = 0.
Proof.
  pose (tail := [(js " ", 12); (js " ", 0); (js " ", 0); (js " ", 0);
                 (js " ", 0); (js " ", 0); (js " ", 0); (js " ", 500);
                 (js " ", 9); (js " ", 0); (js " ", 0); (js " ", 0);
                 (js " ", 0); (js " ", 0); (js " ", 0)]).
  split; [|split].
  - apply (net_row_bytes (mkRow (js "  ") (js "eth0") (js " ") 1000 tail [])).
    + subst tail. literal_shape.
    + reflexivity.
    + vm_compute. reflexivity.
  - apply (net_row_bytes (mkRow (js "  ") (js "eth0") [] 1000 tail [])).
    + subst tail. literal_shape.
    + reflexivity.
    + vm_compute. reflexivity.
  - apply (net_row_bytes (mkRow (js " ") (js "wilo") (js " ") 1000 tail [])).
    + subst tail. literal_shape.
    + reflexivity.
Defined.

(** *** The lines of the file *)

Lemma split_char_cut :
  forall sep x y,
    ~ In sep x -> split_char sep (x ++ sep :: y) = x :: split_char sep y.
Proof.
  intros sep x y Hx. induction x as [|c x IH]; simpl.
  - rewrite N.eqb_refl. destruct (split_char sep y) eqn:E; [|reflexivity].
    destruct y; simpl in E; [discriminate|].
    destruct (split_char sep y); [discriminate|].
    destruct (_ =? _)%N; discriminate.
  - rewrite IH by (intros H; apply Hx; now right).
    destruct (N.eqb_spec c sep) as [-> | _]; [|reflexivity].
    exfalso. apply Hx. now left.
Qed.

Lemma split_char_join :
  forall lines l0,
    Forall (fun l => ~ In LF l) (l0 :: lines) ->
    split_char LF (join [LF] (l0 :: lines)) = l0 :: lines.
Proof.
  induction lines as [|l1 lines IH]; intros l0 H;
    inversion H as [|? ? H0 Hrest]; subst.
  - simpl. now apply split_char_whole.
  - change (join [LF] (l0 :: l1 :: lines))
      with (l0 ++ LF :: join [LF] (l1 :: lines)).
    rewrite split_char_cut by exact H0. f_equal. now apply IH.
Qed.

Lemma fold_left_line_bytes :
  forall lines acc,
    fold_left (fun a line => a + line_bytes line) lines acc
    = acc + sum_Z (map line_bytes lines).
Proof.
  induction lines as [|l lines IH]; intros acc; simpl.
  - lia.
  - rewrite IH. lia.
Qed.

Lemma unspaced_no_LF :
  forall s, Forall (fun c => is_space c = false) s -> ~ In LF s.
Proof.
  intros s H Hin. rewrite Forall_forall in H. specialize (H LF Hin).
  discriminate.
Qed.

Lemma digits10_no_LF : forall n, ~ In LF (digits10 n).
Proof.
  intros n H. apply digits10_digits in H. unfold LF in H. lia.
Qed.

Lemma row_text_one_line :
  forall r, well_formed_row r -> ~ In LF (row_text r).
Proof.
  intros [lead name sep n0 rest trail].
  unfold well_formed_row, row_text.
  cbn [row_lead row_name row_sep row_first row_rest row_trail].
  intros ([_ Hlead] & [_ Hsep] & [_ Htrail] & Hname & _ & _ & Hrest).
  assert (~ In LF (spaced (map (fun gn => (fst gn, digits10 (snd gn))) rest)))
    as Hsp.
  { induction Hrest as [|[g n] rest ((_ & _ & Hg) & _) _ IH];
      cbn [map spaced fst snd].
    - now intros [].
    - intros H. apply in_app_iff in H. destruct H as [H | H]; [tauto|].
      apply in_app_iff in H. destruct H as [H | H]; [|tauto].
      now apply (digits10_no_LF n). }
  intros H.
  repeat (apply in_app_iff in H; destruct H as [H | H]); try tauto.
  - now apply (unspaced_no_LF name Hname).
  - destruct H as [H | []]. discriminate.
  - now apply (digits10_no_LF n0).
Qed.

(** X10.  The whole of [/proc/net/dev]: two lines of headings, then one row
    for each interface, each line ended by a line feed.  The headings count
    for nothing whatever they hold, the empty piece after the last line
    feed counts for nothing, and [totalBytes], which becomes
    [prevNet.bytes], is the sum over the rows of received plus sent bytes,
    the rows whose name ends in [lo] left out, as long as that sum is below
    [2^53], the range in which the code reads and adds the counters
    exactly. *)
Theorem net_file_total :
  forall h1 h2 rows now0 prev,
    ~ In LF h1 -> ~ In LF h2 ->
    Forall well_formed_row rows ->
    let data := join [LF] (h1 :: h2 :: map row_text rows ++ [[]]) in
    let total :=
      sum_Z (map (fun r =>
                    if ends_with (js "lo") (row_name r) then 0
                    else nth 0 (row_counters r) 0 + nth 8 (row_counters r) 0)
                 rows) in
    total < 2 ^ 53 ->
    total_bytes data = total /\
    snd (getTrafUsage (js "linux") (ReadData data) now0 prev)
    = mkNet total now0.
Proof.
  intros h1 h2 rows now0 prev H1 H2 Hrows data total _.
  assert (total_bytes data = total) as E.
  { unfold total_bytes. subst data.
    rewrite split_char_join.
    2:{ constructor; [exact H1|]. constructor; [exact H2|].
        apply Forall_app. split.
        - apply Forall_map. eapply Forall_impl; [|exact Hrows].
          intros r Hr. now apply row_text_one_line.
        - constructor; [now intros [] | constructor]. }
    cbn [skipn]. rewrite fold_left_line_bytes, map_app, Z.add_0_l.
    subst total. clear H1 H2.
    induction Hrows as [|r rows Hr _ IH]; cbn [map app sum_Z fold_right].
    - reflexivity.
    - rewrite (line_bytes_of_row r Hr). f_equal. exact IH. }
  split; [exact E|].
  unfold getTrafUsage, traffic_sample.
  replace (JsString.eqb (js "linux") (js "linux")) with true by reflexivity.
  cbn [negb snd]. rewrite E. reflexivity.
Qed.

Lemma net_file_total_witness :
  total_bytes
    (js "Inter-|   Receive                |  Transmit" ++ [LF] ++
     js " face |bytes    packets errs drop fifo frame compressed multicast|bytes" ++ [LF] ++
     js "    lo: 7000 70 0 0 0 0 0 0 7000 70 0 0 0 0 0 0" ++ [LF] ++
     js "  eth0: 1000 12 0 0 0 0 0 0 500 9 0 0 0 0 0 0" ++ [LF] ++
     js " wlan0:123456789 120 0 0 0 0 0 0 1100 9 0 0 0 0 0 0" ++ [LF])
  = 123459389.
Proof.
  pose (zeros := [(js " ", 0); (js " ", 0); (js " ", 0); (js " ", 0);
                  (js " ", 0); (js " ", 0)]).
  destruct (net_file_total
              (js "Inter-|   Receive                |  Transmit")
              (js " face |bytes    packets errs drop fifo frame compressed multicast|bytes")
              [mkRow (js "    ") (js "lo") (js " ") 7000
                     ((js " ", 70) :: zeros ++
                      (js " ", 7000) :: (js " ", 70) :: zeros) [];
               mkRow (js "  ") (js "eth0") (js " ") 1000
                     ((js " ", 12) :: zeros ++
                      (js " ", 500) :: (js " ", 9) :: zeros) [];
               mkRow (js " ") (js "wlan0") [] 123456789
                     ((js " ", 120) :: zeros ++
                      (js " ", 1100) :: (js " ", 9) :: zeros) []]
              0 prevNet_initial) as [E _].
  - intros H. not_in_literal H.
  - intros H. not_in_literal H.
  - subst zeros. cbn [app]. repeat constructor; literal_shape.
  - vm_compute. reflexivity.
  - exact E.
Defined.

(** ** The disk item of the status bar *)

Lemma split_ws_spaceless :
  forall s col, In col (split_ws s) -> ~ In SPACE col.
Proof.
  intros s col H Hin. unfold split_ws in H.
  apply split_ws_from_tokens in H. rewrite forallb_forall in H.
  specialize (H SPACE Hin). discriminate.
Qed.

Lemma disk_token_last :
  forall a b, ~ In SPACE b -> disk_token (a ++ SPACE :: b) = b.
Proof.
  intros a b Hb. unfold disk_token.
  destruct (split_char_tail SPACE a b Hb) as (pieces & Hne & E).
  rewrite E, last_last, length_app.
  destruct pieces as [|p ps]; [congruence|].
  simpl. replace (length ps + 1)%nat with (S (length ps)) by lia.
  reflexivity.
Qed.

(** X11.  Off Windows, what the status bar shows for the disk is the third
    column of the second line of the output of [df], the percentage, when
    the output has two lines and the second has three columns; it is [?]
    when the command failed or the output has another shape. *)
Theorem disk_item_posix :
  forall platform r,
    JsString.eqb platform (js "win32") = false ->
    disk_token (getDiskUsage platform r)
    = match r with
      | ExecError => js "?"
      | ExecOutput stdout =>
          if (2 <=? length (posix_lines stdout))%nat &&
             (3 <=? length (posix_columns stdout))%nat
          then nth 2 (posix_columns stdout) []
          else js "?"
      end.
Proof.
  intros platform r Hp. unfold getDiskUsage. rewrite Hp.
  destruct r as [|stdout]; [reflexivity|].
  unfold getDiskUsage_posix. fold (posix_lines stdout).
  destruct (2 <=? length (posix_lines stdout))%nat; [|reflexivity].
  fold (posix_columns stdout).
  destruct (3 <=? length (posix_columns stdout))%nat eqn:E3; [|reflexivity].
  cbn [andb].
  apply Nat.leb_le in E3.
  set (cols := posix_columns stdout) in *.
  replace (nth 1 cols [] ++ js "/" ++ nth 0 cols [] ++ js " " ++ nth 2 cols [])
    with ((nth 1 cols [] ++ js "/" ++ nth 0 cols []) ++ SPACE :: nth 2 cols [])
    by (rewrite <- !app_assoc; reflexivity).
  apply disk_token_last.
  apply (split_ws_spaceless (trim (nth 1 (posix_lines stdout) []))).
  apply nth_In. fold (posix_columns stdout). fold cols. lia.
Qed.

Lemma disk_item_posix_witness :
  disk_token (getDiskUsage (js "darwin") (ExecOutput df_sample)) = js "53%".
Proof.
  rewrite (disk_item_posix (js "darwin") (ExecOutput df_sample)).
  - vm_compute. reflexivity.
  - reflexivity.
Defined.

(** ** The disk probe on Windows *)

Lemma parseInt_digits10 :
  forall n, 0 <= n -> ParseInt.parseInt (Some (digits10 n)) = ofZ n.
Proof.
  intros n Hn. unfold ParseInt.parseInt, ParseInt.parse.
  pose proof (digits_prefix_digits10 n Hn) as P.
  pose proof (digits10_solid n Hn) as [Hne Hs].
  pose proof (digits10_digits n) as Hdig.
  destruct (digits10 n) as [|c s]; [congruence|].
  assert ((48 <= c <= 57)%N) as Hc by (apply Hdig; now left).
  assert (trimStart (c :: s) = c :: s) as ->.
  { simpl. inversion Hs as [|? ? Hsc _]; subst. now rewrite Hsc. }
  assert (match s with
          | d :: _ => (48 <= d <= 57)%N
          | [] => True
          end) as Hd.
  { destruct s as [|d s']; [exact I|]. apply Hdig. right. now left. }
  assert (forall k, 0 <= k ->
            match k with
            | 0 => S754_zero false
            | _ => ofZ (if false then - k else k)
            end = ofZ k) as Hz
    by (intros [|k|k] Hk; [reflexivity | reflexivity | lia]).
  destruct c as [|p]; [lia|].
  do 6 (destruct p as [p | p |]; try lia);
    try (cbv iota beta; rewrite P; now apply Hz).
  destruct s as [|d s']; [cbv iota beta; rewrite P; now apply Hz|].
  destruct d as [|q]; [lia|].
  do 6 (destruct q as [q | q |]; try lia);
    cbv iota beta; rewrite P; now apply Hz.
Qed.

Lemma wmic_rows_skip :
  forall before rest,
    Forall (fun line => wmic_row_accepted line = false) before ->
    wmic_rows (before ++ rest) = wmic_rows rest.
Proof.
  intros before rest H. induction H as [|line before Hl _ IH].
  - reflexivity.
  - unfold wmic_row_accepted in Hl.
    cbn [app wmic_rows]. cbv zeta. rewrite Hl. exact IH.
Qed.

Lemma trim_three_columns :
  forall lead t0 g1 t1 g2 t2 trail,
    blank lead -> solid t0 -> solid t2 -> blank trail ->
    trim (lead ++ t0 ++ g1 ++ t1 ++ g2 ++ t2 ++ trail)
    = t0 ++ g1 ++ t1 ++ g2 ++ t2.
Proof.
  intros lead t0 g1 t1 g2 t2 trail Hlead H0 H2 Htrail. unfold trim.
  rewrite trimStart_blank_app by exact Hlead.
  rewrite trimStart_solid by exact H0.
  pose proof (trimEnd_tail (t0 ++ g1 ++ t1 ++ g2) t2 trail H2 Htrail) as E.
  rewrite <- !app_assoc in E. exact E.
Qed.

(** The row of drive [C:]: what the loop answers for it. *)
Lemma wmic_rows_C :
  forall lead caption g1 free g2 size trail after,
    blank lead -> blank trail -> gap g1 -> gap g2 ->
    solid caption -> includes (js "C:") caption = true ->
    0 <= free -> 0 <= size ->
    let usedBytes := fsub (ofZ size) (ofZ free) in
    wmic_rows ((lead ++ caption ++ g1 ++ digits10 free ++ g2 ++
                digits10 size ++ trail) :: after)
    = toFixed 0 (fdiv usedBytes (ofZ GiB)) ++ js "/" ++
      toFixed 0 (fdiv (ofZ size) (ofZ GiB)) ++ js "GB " ++
      toFixed 0 (fmul (fdiv usedBytes (ofZ size)) (ofZ 100)) ++ js "%".
Proof.
  intros lead caption g1 free g2 size trail after
         Hlead Htrail Hg1 Hg2 Hcap Hc Hfree Hsize usedBytes.
  cbn [wmic_rows]. cbv zeta.
  rewrite trim_three_columns;
    [|exact Hlead | exact Hcap | now apply digits10_solid | exact Htrail].
  rewrite split_ws_three;
    [|exact Hcap | exact Hg1 | now apply digits10_solid | exact Hg2
     | now apply digits10_solid].
  unfold last_but. cbn [length Nat.leb Nat.sub nth_error andb].
  rewrite Hc. cbn [andb].
  rewrite !parseInt_digits10 by assumption. reflexivity.
Qed.

(** X12.  On Windows, the first row after the header whose third column
    from the end holds [C:] decides, whatever stands in the rows after it;
    rows before it that the loop does not accept are passed over.  With the
    free and the total bytes of that row in decimal, the field is used and
    total space in GiB and the used share in percent, each rounded to a whole
    number, computed in binary64 from [used = size - free]; the status bar
    shows the percentage. *)
Theorem wmic_first_C_row :
  forall stdout before after lead caption g1 free g2 size trail,
    wmic_rows_of stdout
    = before ++ (lead ++ caption ++ g1 ++ digits10 free ++ g2 ++
                 digits10 size ++ trail) :: after ->
    Forall (fun line => wmic_row_accepted line = false) before ->
    blank lead -> blank trail -> gap g1 -> gap g2 ->
    solid caption -> includes (js "C:") caption = true ->
    0 <= free -> 0 <= size ->
    let usedBytes := fsub (ofZ size) (ofZ free) in
    let percent := toFixed 0 (fmul (fdiv usedBytes (ofZ size)) (ofZ 100)) in
    getDiskUsage (js "win32") (ExecOutput stdout)
    = toFixed 0 (fdiv usedBytes (ofZ GiB)) ++ js "/" ++
      toFixed 0 (fdiv (ofZ size) (ofZ GiB)) ++ js "GB " ++
      percent ++ js "%" /\
    disk_token (getDiskUsage (js "win32") (ExecOutput stdout))
    = percent ++ js "%".
Proof.
  intros stdout before after lead caption g1 free g2 size trail
         Hrows Hbefore Hlead Htrail Hg1 Hg2 Hcap Hc Hfree Hsize
         usedBytes percent.
  assert (getDiskUsage (js "win32") (ExecOutput stdout)
          = toFixed 0 (fdiv usedBytes (ofZ GiB)) ++ js "/" ++
            toFixed 0 (fdiv (ofZ size) (ofZ GiB)) ++ js "GB " ++
            percent ++ js "%") as E.
  { unfold getDiskUsage.
    replace (JsString.eqb (js "win32") (js "win32")) with true by reflexivity.
    unfold getDiskUsage_win32. fold (wmic_rows_of stdout).
    rewrite Hrows, (wmic_rows_skip before _ Hbefore).
    now apply wmic_rows_C. }
  split; [exact E|].
  rewrite E.
  replace (toFixed 0 (fdiv usedBytes (ofZ GiB)) ++ js "/" ++
           toFixed 0 (fdiv (ofZ size) (ofZ GiB)) ++ js "GB " ++
           percent ++ js "%")
    with ((toFixed 0 (fdiv usedBytes (ofZ GiB)) ++ js "/" ++
           toFixed 0 (fdiv (ofZ size) (ofZ GiB)) ++ js "GB") ++
          SPACE :: (percent ++ js "%"))
    by (rewrite <- !app_assoc; reflexivity).
  apply disk_token_last.
  intros Hin. apply in_app_iff in Hin. destruct Hin as [Hin | Hin].
  - now apply (toFixed_spaceless 0 _ Hin).
  - destruct Hin as [Hin | []]. discriminate.
Qed.

(** *** The used share is a percentage *)

(** A difference of whole numbers is at most the minuend. *)
Lemma fsub_ofZ_at_most :
  forall size free,
    0 <= free <= size -> 0 < size < 2 ^ 53 ->
    at_most (fsub (ofZ size) (ofZ free)) size 0.
Proof.
  intros size free Hf Hs.
  destruct (ofZ_exact size Hs) as (m1 & e1 & E1 & He1 & Hm1).
  rewrite E1.
  destruct (Z.eq_dec free 0) as [-> | Hne].
  - change (ofZ 0) with (S754_zero false). unfold fsub, SFsub, at_most.
    apply (dy_le_base _ _ _ _ e1); [lia | lia |].
    rewrite Z.sub_diag, Z.mul_1_r, Hm1. replace (0 - e1) with (- e1) by lia. lia.
  - destruct (ofZ_exact free ltac:(lia)) as (m2 & e2 & E2 & He2 & Hm2).
    rewrite E2. unfold fsub, SFsub. cbn [cond_Zopp].
    set (ez := Z.min e1 e2).
    destruct (shl_align m1 e1 ez) as [a1 x1] eqn:A1.
    destruct (shl_align m2 e2 ez) as [a2 x2] eqn:A2.
    destruct (shl_align_spec _ _ _ _ _ A1) as (_ & Ha1 & Hx1).
    destruct (shl_align_spec _ _ _ _ _ A2) as (_ & Ha2 & Hx2).
    cbn [fst].
    assert (ez <= e1 /\ ez <= e2) as [Hz1 Hz2] by (unfold ez; lia).
    specialize (Hx1 Hz1). specialize (Hx2 Hz2). subst x1 x2.
    assert (Zpos a1 = size * 2 ^ (- ez)) as Hv1.
    { rewrite Ha1, Hm1, <- Z.mul_assoc. rewrite <- pow2_split by lia.
      f_equal. f_equal. lia. }
    assert (Zpos a2 = free * 2 ^ (- ez)) as Hv2.
    { rewrite Ha2, Hm2, <- Z.mul_assoc, <- pow2_split by lia.
      f_equal. f_equal. lia. }
    pose proof (pow2_gt0 (- ez) ltac:(lia)) as Hpz.
    unfold binary_normalize.
    destruct (Zpos a1 - Zpos a2) as [|d|d] eqn:Ed; [exact I | | nia].
    unfold binary_round.
    destruct (shl_align d ez (fexp prec emax (Zpos (digits2_pos d) + ez)))
      as [mz ez2] eqn:E3.
    destruct (shl_align_spec _ _ _ _ _ E3) as (Hez2 & Hmz & _).
    pose proof (Zdigits2_le_of_lt_pow size 53 ltac:(lia) ltac:(lia)) as Hd.
    pose proof (Zdigits2_pos size ltac:(lia)) as Hd0.
    apply round_aux_at_most with (b := ez2).
    + lia.
    + lia.
    + unfold fexp, emin, prec, emax. lia.
    + unfold emax, prec. lia.
    + lia.
    + lia.
    + cbn [bracket_top]. rewrite Z.sub_diag, Z.mul_1_r, Hmz.
      assert (Zpos d <= size * 2 ^ (- ez)) as Hdle by nia.
      replace (0 - ez2) with ((- ez) + (ez - ez2)) by lia.
      rewrite pow2_split by lia.
      pose proof (pow2_gt0 (ez - ez2) ltac:(lia)). nia.
Qed.

Lemma used_share_at_most_one :
  forall size free,
    0 <= free <= size -> 0 < size < 2 ^ 53 ->
    at_most (fdiv (fsub (ofZ size) (ofZ free)) (ofZ size)) one_m (-52).
Proof.
  intros size free Hf Hs.
  pose proof (fsub_ofZ_at_most size free Hf Hs) as Hu.
  destruct (ofZ_exact size Hs) as (mT & eT & ET & HeT & HmT).
  rewrite ET in *.
  destruct (fsub (S754_finite false mT eT) (ofZ free))
    as [s | s | | [|] mI eI]; simpl in Hu; try contradiction.
  - exact I.
  - apply fdiv_at_most_one.
    assert (Z.min eI 0 + eT <= eI /\ Z.min eI 0 + eT <= 0) as [Hb1 Hb2] by lia.
    apply (proj1 (dy_le_base _ _ _ _ _ Hb1 Hb2)) in Hu.
    apply (dy_le_base _ _ _ _ (Z.min eI 0 + eT)); [lia | lia |].
    rewrite HmT.
    replace (0 - (Z.min eI 0 + eT)) with ((- eT) + (- Z.min eI 0)) in Hu by lia.
    rewrite pow2_split in Hu by lia.
    replace (eT - (Z.min eI 0 + eT)) with (- Z.min eI 0) by lia.
    lia.
Qed.

Lemma toFixed_0_at_most_hundred :
  forall x,
    at_most x hundred_m (-46) ->
    exists n, 0 <= n <= 100 /\ toFixed 0 x = digits10 n.
Proof.
  intros x Hx.
  destruct x as [s | s | | [|] m e]; simpl in Hx; try contradiction.
  - exists 0. split; [lia | reflexivity].
  - unfold toFixed. cbn [app].
    assert (exists k, 0 <= k /\ - k <= e /\ Zpos m * 2 ^ (e + k) <= 100 * 2 ^ k)
      as (k & Hk & Hke & Hle).
    { exists (Z.max 0 (- e)). split; [lia|]. split; [lia|].
      assert (-46 - Z.max 0 (- e) <= e /\ -46 - Z.max 0 (- e) <= -46)
        as [Hb1 Hb2] by lia.
      apply (proj1 (dy_le_base _ _ _ _ _ Hb1 Hb2)) in Hx.
      unfold hundred_m in Hx. change 7036874417766400 with (100 * 2 ^ 46) in Hx.
      replace (e - (-46 - Z.max 0 (- e))) with ((e + Z.max 0 (- e)) + 46) in Hx by lia.
      replace (-46 - (-46 - Z.max 0 (- e))) with (Z.max 0 (- e)) in Hx by lia.
      rewrite pow2_split in Hx by lia.
      pose proof (pow2_gt0 46 ltac:(lia)). nia. }
    pose proof (pow2_gt0 k Hk) as Hpk.
    pose proof (pow2_gt0 (e + k) ltac:(lia)) as Hpek.
    assert (match e with
            | Zneg pe => Zpos m <= 100 * 2 ^ Zpos pe
            | _ => Zpos m * 2 ^ e <= 100
            end) as Hm.
    { destruct e as [|pe|pe].
      - rewrite Z.add_0_l in Hle. simpl. nia.
      - rewrite pow2_split in Hle by lia.
        pose proof (pow2_gt0 (Zpos pe) ltac:(lia)). nia.
      - assert (2 ^ k = 2 ^ (Zneg pe + k) * 2 ^ Zpos pe) as Ek
          by (rewrite <- pow2_split by lia; f_equal; lia).
        rewrite Ek in Hle.
        pose proof (pow2_gt0 (Zpos pe) ltac:(lia)).
        apply Z.mul_le_mono_pos_l with (p := 2 ^ (Zneg pe + k)); lia. }
    assert (at_least_1e21 m e = false) as Hbig.
    { unfold at_least_1e21.
      change (10 ^ 21) with 1000000000000000000000.
      destruct e as [|pe|pe]; apply Z.leb_gt.
      - lia.
      - lia.
      - pose proof (pow2_gt0 (Zpos pe) ltac:(lia)). nia. }
    rewrite Hbig.
    exists (nearest_scaled 0 m e). split; [|reflexivity].
    unfold nearest_scaled. change (10 ^ Z.of_nat 0) with 1.
    rewrite Z.mul_1_r.
    destruct e as [|pe|pe].
    + simpl in *. lia.
    + pose proof (pow2_gt0 (Zpos pe) ltac:(lia)). nia.
    + pose proof (pow2_gt0 (Zpos pe) ltac:(lia)) as Hpp.
      rewrite Z.pow_add_r by lia. rewrite Z.pow_1_r.
      split.
      * apply Z.div_pos; lia.
      * assert ((2 * Zpos m + 2 ^ Zpos pe) / (2 ^ Zpos pe * 2) < 101);
          [|lia].
        apply Z.div_lt_upper_bound; lia.
Qed.

Lemma wmic_first_C_row_witness :
  getDiskUsage (js "win32")
    (ExecOutput
       (js "Caption  FreeSpace   Size" ++ [13%N; LF] ++
        js "C:       1073741824  4294967296" ++ [13%N; LF] ++
        js "D:       5           10" ++ [13%N; LF]))
  = js "3/4GB 75%".
Proof.
  destruct (wmic_first_C_row
              (js "Caption  FreeSpace   Size" ++ [13%N; LF] ++
               js "C:       1073741824  4294967296" ++ [13%N; LF] ++
               js "D:       5           10" ++ [13%N; LF])
              [] [js "D:       5           10"]
              [] (js "C:") (js "       ") 1073741824 (js "  ") 4294967296
              [13%N]) as [E _].
  - vm_compute. reflexivity.
  - constructor.
  - literal_shape.
  - literal_shape.
  - literal_shape.
  - literal_shape.
  - literal_shape.
  - reflexivity.
  - lia.
  - lia.
  - rewrite E. vm_compute. reflexivity.
Defined.

(** X13.  In the row of drive [C:], when the free bytes are no more than
    the total bytes and the total is positive (and JavaScript counts both
    exactly), the status bar shows a whole percentage from 0 to 100. *)
Theorem wmic_percent_in_range :
  forall lead caption g1 free g2 size trail after,
    blank lead -> blank trail -> gap g1 -> gap g2 ->
    solid caption -> includes (js "C:") caption = true ->
    0 <= free <= size -> 0 < size < 2 ^ 53 ->
    exists n,
      0 <= n <= 100 /\
      disk_token
        (wmic_rows ((lead ++ caption ++ g1 ++ digits10 free ++ g2 ++
                     digits10 size ++ trail) :: after))
      = digits10 n ++ js "%".
Proof.
  intros lead caption g1 free g2 size trail after
         Hlead Htrail Hg1 Hg2 Hcap Hc Hfree Hsize.
  rewrite wmic_rows_C by (assumption || lia).
  destruct (toFixed_0_at_most_hundred
              (fmul (fdiv (fsub (ofZ size) (ofZ free)) (ofZ size)) (ofZ 100)))
    as (n & Hn & En).
  { apply fmul_hundred_at_most. now apply used_share_at_most_one. }
  exists n. split; [exact Hn|].
  cbv zeta. rewrite En.
  set (a := toFixed 0 (fdiv (fsub (ofZ size) (ofZ free)) (ofZ GiB))).
  set (b := toFixed 0 (fdiv (ofZ size) (ofZ GiB))).
  replace (a ++ js "/" ++ b ++ js "GB " ++ digits10 n ++ js "%")
    with ((a ++ js "/" ++ b ++ js "GB") ++ SPACE :: (digits10 n ++ js "%"))
    by (rewrite <- !app_assoc; reflexivity).
  apply disk_token_last.
  intros Hin. apply in_app_iff in Hin. destruct Hin as [Hin | Hin].
  - apply digits10_digits in Hin. unfold SPACE in Hin. lia.
  - destruct Hin as [Hin | []]. discriminate.
Qed.

Lemma wmic_percent_in_range_witness :
  exists n,
    0 <= n <= 100 /\
    disk_token (wmic_rows [js "C:  250000000000  1000000000000"])
    = digits10 n ++ js "%".
Proof.
  apply (wmic_percent_in_range [] (js "C:") (js "  ") 250000000000 (js "  ")
           1000000000000 [] []).
  - literal_shape.
  - literal_shape.
  - literal_shape.
  - literal_shape.
  - literal_shape.
  - reflexivity.
  - lia.
  - lia.
Defined.

(** ** The name of the system *)

Lemma unquoted_run_no_quote : forall s, ~ In QUOTE (unquoted_run s).
Proof.
  induction s as [|c s IH]; simpl; [now intros []|].
  destruct (N.eqb_spec c QUOTE) as [E | E]; [now intros []|].
  intros [H | H]; [congruence | now apply IH].
Qed.

Lemma unquoted_run_app :
  forall name rest,
    ~ In QUOTE name ->
    rest = [] \/ (exists r, rest = QUOTE :: r) ->
    unquoted_run (name ++ rest) = name.
Proof.
  induction name as [|c name IH]; intros rest Hn Hr.
  - destruct Hr as [-> | [r ->]]; reflexivity.
  - cbn [app unquoted_run].
    destruct (N.eqb_spec c QUOTE) as [E | _].
    + exfalso. apply Hn. now left.
    + f_equal. apply IH; [|exact Hr]. intros H. apply Hn. now right.
Qed.

Lemma match_pretty_name_here_group :
  forall s g,
    match_pretty_name_here s = Some g -> g <> [] /\ ~ In QUOTE g.
Proof.
  intros s g H. unfold match_pretty_name_here in H.
  destruct (starts_with (js "PRETTY_NAME=") s); [|discriminate].
  cbv zeta in H.
  set (a := match skipn 12 s with
            | c :: r => if (c =? QUOTE)%N then r else skipn 12 s
            | [] => skipn 12 s
            end) in H.
  destruct (unquoted_run a) as [|c r] eqn:E; [discriminate|].
  inversion H; subst. split; [discriminate|].
  rewrite <- E. apply unquoted_run_no_quote.
Qed.

Lemma match_pretty_name_group :
  forall s line_start g,
    match_pretty_name line_start s = Some g -> g <> [] /\ ~ In QUOTE g.
Proof.
  induction s as [|c s IH]; intros line_start g H; cbn [match_pretty_name] in H.
  - destruct line_start; [|discriminate].
    destruct (match_pretty_name_here []) eqn:E; [|discriminate].
    inversion H; subst. now apply (match_pretty_name_here_group []).
  - destruct (if line_start then match_pretty_name_here (c :: s) else None)
      as [g'|] eqn:E.
    + inversion H; subst. destruct line_start; [|discriminate].
      now apply (match_pretty_name_here_group (c :: s)).
    + now apply (IH (is_line_terminator c) g).
Qed.

(** X14.  Whatever [/etc/os-release] holds, and whether it can be read or
    not, the name shown for a Linux system is not empty and holds no double
    quote; without the file, or with a read that throws, it is [Linux].  On
    the other platforms the name is [Windows], [macOS], or the name of the
    platform as Node gives it, and the file plays no part. *)
Theorem getOSName_shape :
  forall toLowerCase platform file,
    (JsString.eqb platform (js "linux") = true ->
     getOSName toLowerCase platform file <> [] /\
     ~ In QUOTE (getOSName toLowerCase platform file) /\
     getOSName toLowerCase platform NoFile = js "Linux" /\
     getOSName toLowerCase platform ReadThrows = js "Linux") /\
    (JsString.eqb platform (js "linux") = false ->
     getOSName toLowerCase platform file
     = (if JsString.eqb platform (js "win32") then js "Windows"
        else if JsString.eqb platform (js "darwin") then js "macOS"
        else platform)).
Proof.
  intros toLowerCase platform file. unfold getOSName. split; intros Hp; rewrite Hp.
  - assert (forall l, l = js "Linux" \/ l = js "ChromeOS" ->
                      l <> [] /\ ~ In QUOTE l) as Hlit.
    { intros l [-> | ->]; (split; [discriminate | intros H; not_in_literal H]). }
    assert (forall A B C D : Prop, A /\ B -> C -> D -> A /\ B /\ C /\ D) as Hj
      by tauto.
    apply Hj; try reflexivity.
    destruct file as [| | content]; try (apply Hlit; now left).
    destruct (includes (js "chrome os") (toLowerCase content)
              || includes (js "chromium os") (toLowerCase content));
      [apply Hlit; now right|].
    destruct (match_pretty_name true content) as [g|] eqn:E;
      [|apply Hlit; now left].
    now apply (match_pretty_name_group content true).
  - reflexivity.
Qed.

Lemma getOSName_shape_witness :
  getOSName lower_ascii (js "linux")
    (Content (js "NAME=x" ++ [LF] ++ js "PRETTY_NAME=" ++ [QUOTE; QUOTE] ++ [LF]))
  <> [] /\
  getOSName lower_ascii (js "freebsd") NoFile = js "freebsd".
Proof.
  split.
  - apply (getOSName_shape lower_ascii (js "linux")). reflexivity.
  - apply (getOSName_shape lower_ascii (js "freebsd") NoFile). reflexivity.
Defined.

Lemma starts_with_app_cases :
  forall p a b,
    starts_with p (a ++ b) = true ->
    starts_with p a = true \/ (forall c, In c a -> In c p).
Proof.
  induction p as [|x p IH]; intros a b H.
  - left. reflexivity.
  - destruct a as [|y a].
    + right. intros c [].
    + cbn [app starts_with] in H. apply andb_true_iff in H.
      destruct H as [Hx Hp]. apply N.eqb_eq in Hx. subst y.
      destruct (IH a b Hp) as [H | H].
      * left. simpl. now rewrite N.eqb_refl.
      * right. intros c [-> | Hc]; [now left | right; now apply H].
Qed.

Lemma includes_false_head :
  forall p c s, includes p (c :: s) = false ->
    starts_with p (c :: s) = false /\ includes p s = false.
Proof.
  intros p c s H. cbn [includes] in H. now apply orb_false_iff in H.
Qed.

Lemma pretty_name_key_no_terminator :
  forall c, In c (js "PRETTY_NAME=") -> is_line_terminator c = false.
Proof.
  intros c H. vm_compute in H.
  repeat (destruct H as [H | H]; [subst c; reflexivity|]). contradiction.
Qed.

Lemma match_pretty_name_here_miss :
  forall s,
    starts_with (js "PRETTY_NAME=") s = false ->
    match_pretty_name_here s = None.
Proof.
  intros s H. unfold match_pretty_name_here. now rewrite H.
Qed.

(** Lines that do not hold the key are passed over. *)
Lemma match_pretty_name_skip :
  forall b c tail line_start,
    is_line_terminator c = true ->
    includes (js "PRETTY_NAME=") (b ++ [c]) = false ->
    match_pretty_name line_start (b ++ c :: tail)
    = match_pretty_name true tail.
Proof.
  induction b as [|d b IH]; intros c tail line_start Hc Hinc.
  - cbn [app match_pretty_name].
    assert (match_pretty_name_here (c :: tail) = None) as E.
    { apply match_pretty_name_here_miss.
      destruct (starts_with (js "PRETTY_NAME=") (c :: tail)) eqn:S;
        [|reflexivity].
      change (c :: tail) with ([c] ++ tail) in S.
      apply starts_with_app_cases in S. destruct S as [S | S].
      - cbn [app] in Hinc.
        apply includes_false_head in Hinc. destruct Hinc as [Hinc _].
        congruence.
      - specialize (S c ltac:(now left)).
        apply pretty_name_key_no_terminator in S. congruence. }
    rewrite E. rewrite Hc. destruct line_start; reflexivity.
  - cbn [app] in *.
    apply includes_false_head in Hinc. destruct Hinc as [Hhead Hrest].
    cbn [match_pretty_name].
    assert (match_pretty_name_here (d :: b ++ c :: tail) = None) as E.
    { apply match_pretty_name_here_miss.
      destruct (starts_with (js "PRETTY_NAME=") (d :: b ++ c :: tail)) eqn:S;
        [|reflexivity].
      replace (d :: b ++ c :: tail) with ((d :: b ++ [c]) ++ tail) in S
        by (cbn [app]; rewrite <- app_assoc; reflexivity).
      apply starts_with_app_cases in S. destruct S as [S | S].
      - congruence.
      - specialize (S c ltac:(right; apply in_app_iff; right; now left)).
        apply pretty_name_key_no_terminator in S. congruence. }
    rewrite E.
    replace (if line_start then @None jsstring else None) with (@None jsstring)
      by (destruct line_start; reflexivity).
    now apply IH.
Qed.

Lemma match_pretty_name_here_hit :
  forall q name rest,
    q = [] \/ q = [QUOTE] ->
    name <> [] -> ~ In QUOTE name ->
    rest = [] \/ (exists r, rest = QUOTE :: r) ->
    match_pretty_name_here (js "PRETTY_NAME=" ++ q ++ name ++ rest)
    = Some name.
Proof.
  intros q name rest Hq Hne Hn Hr. unfold match_pretty_name_here.
  rewrite starts_with_app.
  replace (skipn 12 (js "PRETTY_NAME=" ++ q ++ name ++ rest))
    with (q ++ name ++ rest) by reflexivity.
  cbv zeta.
  assert (match q ++ name ++ rest with
          | c :: r => if (c =? QUOTE)%N then r else q ++ name ++ rest
          | [] => q ++ name ++ rest
          end = name ++ rest) as ->.
  { destruct Hq as [-> | ->].
    - cbn [app]. destruct name as [|c name]; [congruence|].
      cbn [app]. destruct (N.eqb_spec c QUOTE) as [E | _]; [|reflexivity].
      exfalso. apply Hn. now left.
    - reflexivity. }
  rewrite (unquoted_run_app name rest Hn Hr).
  destruct name; [congruence | reflexivity].
Qed.

(** X15.  An [/etc/os-release] that does not say Chrome OS, whose first
    [PRETTY_NAME=] stands at the start of a line.  The name shown is what
    follows the key, after a double quote if one is there, up to the next
    double quote or, if there is none, up to the end of the file: line
    feeds do not end it.  A value written without quotes thus takes the
    lines after it along. *)
Theorem getOSName_pretty_name :
  forall toLowerCase before q name rest,
    let content := before ++ js "PRETTY_NAME=" ++ q ++ name ++ rest in
    includes (js "chrome os") (toLowerCase content) = false ->
    includes (js "chromium os") (toLowerCase content) = false ->
    before = [] \/
    (exists b c, before = b ++ [c] /\ is_line_terminator c = true) ->
    includes (js "PRETTY_NAME=") before = false ->
    q = [] \/ q = [QUOTE] ->
    name <> [] -> ~ In QUOTE name ->
    rest = [] \/ (exists r, rest = QUOTE :: r) ->
    getOSName toLowerCase (js "linux") (Content content) = name.
Proof.
  intros toLowerCase before q name rest content Hc1 Hc2 Hb Hkey Hq Hne Hn Hr.
  unfold getOSName.
  replace (JsString.eqb (js "linux") (js "linux")) with true by reflexivity.
  rewrite Hc1, Hc2. cbn [orb].
  assert (match_pretty_name true content = Some name) as ->; [|reflexivity].
  assert (match_pretty_name true
            (js "PRETTY_NAME=" ++ q ++ name ++ rest) = Some name) as Hhit.
  { pose proof (match_pretty_name_here_hit q name rest Hq Hne Hn Hr) as E.
    destruct (js "PRETTY_NAME=" ++ q ++ name ++ rest) eqn:S;
      cbn [match_pretty_name]; rewrite E; reflexivity. }
  subst content. destruct Hb as [-> | (b & c & -> & Hc)].
  - exact Hhit.
  - rewrite <- app_assoc. cbn [app].
    rewrite (match_pretty_name_skip b c _ true Hc Hkey). exact Hhit.
Qed.

Lemma getOSName_pretty_name_witness :
  getOSName lower_ascii (js "linux")
    (Content (js "NAME=Ubuntu" ++ [LF] ++
              js "PRETTY_NAME=" ++ [QUOTE] ++ js "Ubuntu 22.04.3 LTS" ++
              [QUOTE] ++ [LF] ++ js "ID=ubuntu" ++ [LF]))
  = js "Ubuntu 22.04.3 LTS" /\
  getOSName lower_ascii (js "linux")
    (Content (js "PRETTY_NAME=" ++ js "Void" ++ [LF] ++ js "ID=void" ++ [LF]))
  = js "Void" ++ [LF] ++ js "ID=void" ++ [LF].
Proof.
  split.
  - apply (getOSName_pretty_name lower_ascii (js "NAME=Ubuntu" ++ [LF])
             [QUOTE] (js "Ubuntu 22.04.3 LTS")
             ([QUOTE] ++ [LF] ++ js "ID=ubuntu" ++ [LF])).
    + reflexivity.
    + reflexivity.
    + right. exists (js "NAME=Ubuntu"), LF. split; reflexivity.
    + reflexivity.
    + now right.
    + discriminate.
    + intros H. not_in_literal H.
    + right. eexists. reflexivity.
  - apply (getOSName_pretty_name lower_ascii [] []
             (js "Void" ++ [LF] ++ js "ID=void" ++ [LF]) []).
    + reflexivity.
    + reflexivity.
    + now left.
    + reflexivity.
    + now left.
    + discriminate.
    + intros H. not_in_literal H.
    + now left.
Defined.

(** ** Calls of [updateStatusBarItem] one after the other *)

Lemma updateStatusBarItem_aligned :
  forall c osName p st t,
    (length (cpus t) <= length (previousCpus st))%nat ->
    exists res net',
      updateStatusBarItem c osName p st t
      = (Returned (status_of c osName p res), mkTracker (cpus t) net') /\
      calculateCpuUsage (previousCpus st) (cpus t) = (Returned (cpu res), cpus t).
Proof.
  intros c osName p st t Hlen.
  pose proof (calculateCpuUsage_aligned (previousCpus st) (cpus t) Hlen) as Hcpu.
  unfold updateStatusBarItem, getResources. rewrite Hcpu.
  destruct (getTrafUsage (platform t) (netRead t) (now t) (prevNet st))
    as [tr net'].
  eexists. exists net'. split; reflexivity.
Qed.

(** X16.  The calls of [updateStatusBarItem] in the order in which they are
    made, whoever makes them: the timer, the command [os-monitor.update],
    or a speed test at its start and at its end.  As long as no sample has
    more cores than the one before it, no call fails: every call writes the
    status bar, and the CPU figure of each call is the load between the
    sample of the call before it (for the first call, the sample taken when
    the module was loaded) and its own sample.  A tick of the timer that
    follows a click thus shows the load since the click, not since the tick
    before.  At the end the stored sample is the last one. *)
Theorem calls_compare_neighbours :
  forall rs st,
    cores_never_grow (previousCpus st) rs ->
    exists bars st',
      timer_ticks st rs = (map Returned bars, st') /\
      length bars = length rs /\
      previousCpus st' = last (samples st rs) [] /\
      forall k r,
        nth_error rs k = Some r ->
        exists res,
          nth_error bars k
          = Some (status_of (r_config r) (r_osName r) (r_probe r) res) /\
          fst (calculateCpuUsage (nth k (samples st rs) []) (cpus (r_input r)))
          = Returned (cpu res).
Proof.
  induction rs as [|r rs IH]; intros st H.
  - exists [], st. repeat split. intros [|k] r H'; discriminate.
  - destruct H as [Hlen Hrest].
    destruct (updateStatusBarItem_aligned (r_config r) (r_osName r) (r_probe r)
                st (r_input r) Hlen) as (res & net' & Hu & Hc).
    destruct (IH (mkTracker (cpus (r_input r)) net') Hrest)
      as (bars & st' & Ht & Hl & Hp & Hk).
    exists (status_of (r_config r) (r_osName r) (r_probe r) res :: bars), st'.
    cbn [timer_ticks]. rewrite Hu, Ht.
    split; [reflexivity|]. split; [simpl; now rewrite Hl|]. split.
    + rewrite Hp. unfold samples. cbn [previousCpus map].
      destruct (map (fun r0 => cpus (r_input r0)) rs); reflexivity.
    + intros [|k] r' Hr'.
      * cbn [nth_error] in Hr'. inversion Hr'; subst r'.
        exists res. split; [reflexivity|].
        unfold samples. cbn [nth]. now rewrite Hc.
      * cbn [nth_error] in Hr'. destruct (Hk k r' Hr') as (res' & Hb & Hc').
        exists res'. split; [exact Hb|]. exact Hc'.
Qed.

Lemma calls_compare_neighbours_witness :
  exists bars st',
    timer_ticks (mkTracker [core 0 0 0 0 0] prevNet_initial)
      [mkRefresh default_config (js "Linux") probe_initial
         (mkTick (js "linux") [core 10 0 0 30 0] 8 4 ExecError ReadError 1000);
       mkRefresh default_config (js "Linux") probe_initial
         (mkTick (js "linux") [core 40 0 0 40 0] 8 4 ExecError ReadError 2000)]
    = (map Returned bars, st') /\
    length bars = 2%nat /\
    previousCpus st' = [core 40 0 0 40 0].
Proof.
  destruct (calls_compare_neighbours
              [mkRefresh default_config (js "Linux") probe_initial
                 (mkTick (js "linux") [core 10 0 0 30 0] 8 4 ExecError ReadError 1000);
               mkRefresh default_config (js "Linux") probe_initial
                 (mkTick (js "linux") [core 40 0 0 40 0] 8 4 ExecError ReadError 2000)]
              (mkTracker [core 0 0 0 0 0] prevNet_initial))
    as (bars & st' & H1 & H2 & H3 & _).
  - simpl. lia.
  - exists bars, st'. repeat split; assumption.
Defined.
